(** * Diff/approval engine of Roo-Code: a shallow embedding

    The development follows three source files:
    - [src/integrations/diff-approve/DiffApproveProvider.ts]
      (classes [DiffFile] and [DiffApproveProvider]),
    - [src/integrations/diff-approve/diffApprovePanel.ts]
      (class [DiffApprovePanel]),
    - the earlier single-panel provider kept under [unnamed/part_002]
      (class [DiffApproveProvider] with the grouping [findRelatedBlocks]).

    JavaScript numbers that the code uses as line numbers and block ids are
    integers here ([Z]); array indices of loops are [nat].  Strings are
    [string]; an array is a [list]. *)

From Stdlib Require Import ZArith String Ascii Lia.
From stdpp Require Import base tactics option list strings gmap.

Local Open Scope Z_scope.

(** ** JavaScript string and array primitives used by the sources *)

Module JS.

Definition LF : ascii := ascii_of_nat 10.

Definition is_LF (c : ascii) : bool := Ascii.eqb c LF.

(** [s.split("\n")]: never the empty array; the empty string gives [[""]]. *)
Fixpoint split (s : string) : list string :=
  match s with
  | EmptyString => [EmptyString]
  | String c rest =>
      if is_LF c then EmptyString :: split rest
      else match split rest with
           | h :: t => String c h :: t
           | [] => [String c EmptyString]
           end
  end.

(** [lines.join("\n")]. *)
Fixpoint join (l : list string) : string :=
  match l with
  | [] => EmptyString
  | [x] => x
  | x :: rest => (x ++ String LF (join rest))%string
  end.

(** [s.endsWith("\n")]. *)
Fixpoint endsWith_LF (s : string) : bool :=
  match s with
  | EmptyString => false
  | String c EmptyString => is_LF c
  | String _ rest => endsWith_LF rest
  end.

(** [line.length > 0]. *)
Definition nonempty (s : string) : bool :=
  match s with EmptyString => false | _ => true end.

(** The start index of [Array.prototype.splice] / [slice] once made
    relative: a negative index counts from the end, and the result is
    clamped to [0 .. len]. *)
Definition rel_index (len : nat) (k : Z) : nat :=
  if k <? 0 then Z.to_nat (Z.max (Z.of_nat len + k) 0)
  else Nat.min (Z.to_nat k) len.

(** [arr.splice(start, deleteCount, ...items)], returning the array as it
    is after the call. *)
Definition splice {A} (arr : list A) (start deleteCount : Z) (items : list A)
  : list A :=
  let s := rel_index (length arr) start in
  let d := Nat.min (Z.to_nat (Z.max deleteCount 0)) (length arr - s) in
  take s arr ++ items ++ drop (s + d) arr.

(** [arr.slice(from, to)] for indices that are natural numbers. *)
Definition slice {A} (arr : list A) (from to : nat) : list A :=
  take (to - from) (drop from arr).

End JS.

(** ** The data model ([DiffBlock], shared by all three files) *)

Inductive BlockType := addition | deletion | change | context.

Global Instance BlockType_eq_dec : EqDecision BlockType.
Proof. solve_decision. Defined.

Record DiffBlock := mkBlock {
  id : Z;
  type : BlockType;
  oldLines : list string;
  newLines : list string;
  oldStart : Z;
  newStart : Z
}.

Global Instance DiffBlock_eq_dec : EqDecision DiffBlock.
Proof. solve_decision. Defined.

Definition is_context (b : DiffBlock) : bool :=
  bool_decide (type b = context).

(** [new Set(array)] as the list of its elements in insertion order: an
    element that is already there is not added again. *)
Definition setOfArray (array : list Z) : list Z :=
  fold_left (λ set x, if decide (x ∈ set) then set else set ++ [x]) array [].

(** [blocks.filter(b => b.type !== "context").map(b => b.id)] *)
Definition nonContextIds (blocks : list DiffBlock) : list Z :=
  id <$> filter (λ b, type b ≠ context) blocks.

(** [blocks.find(b => b.id === blockId)] *)
Definition findBlock (blocks : list DiffBlock) (blockId : Z) : option DiffBlock :=
  snd <$> list_find (λ b, id b = blockId) blocks.

(** The kind invariant of the data model. *)
Definition kind_ok (b : DiffBlock) : Prop :=
  match type b with
  | context => oldLines b = newLines b
  | addition => oldLines b = []
  | deletion => newLines b = []
  | change => oldLines b ≠ [] ∧ newLines b ≠ []
  end.

Global Instance kind_ok_dec b : Decision (kind_ok b).
Proof. unfold kind_ok. destruct (type b); apply _. Defined.

(** ** [diff.diffLines]: the interface of the line differ

    The differ is the npm package [diff]; the sources only consume its
    result, an array of change objects. *)

Record Change := mkChange {
  value : string;
  added : bool;
  removed : bool;
  count : option Z
}.

(** [part.count || 0] *)
Definition count_or_0 (p : Change) : Z :=
  match count p with Some n => n | None => 0 end.

(** [part.value.split("\n").filter(line => line.length > 0 || part.value.endsWith("\n"))] *)
Definition partLines (p : Change) : list string :=
  List.filter (λ line, JS.nonempty line || JS.endsWith_LF (value p))
              (JS.split (value p)).

(** ** [DiffFile.computeDiff] (DiffApproveProvider.ts, lines 282-369) *)

Module DiffFile.

(** The local variables of the loop. *)
Record LoopState := mkLoop {
  blocks : list DiffBlock;
  blockId : Z;
  oldLineNumber : Z;
  newLineNumber : Z;
  pendingBlock : option DiffBlock;
  lastChangeLineNumber : Z
}.

Definition init : LoopState :=
  {| blocks := []; blockId := 0; oldLineNumber := 1; newLineNumber := 1;
     pendingBlock := None; lastChangeLineNumber := -1 |}.

(** [if (pendingBlock) blocks.push(pendingBlock)] *)
Definition flush (bs : list DiffBlock) (pb : option DiffBlock) : list DiffBlock :=
  match pb with Some b => bs ++ [b] | None => bs end.

(** The condition that starts a new block, for a pending block [b]
    ([!pendingBlock] is the other case of [step]). *)
Definition startsNewBlock (p : Change) (b : DiffBlock)
           (currentLineNumber lastChange : Z) : bool :=
  (1 <? currentLineNumber - lastChange)
  || (added p && bool_decide (type b = addition))
  || (removed p && bool_decide (type b = deletion)).

(** The [else if] that turns the pending block into a change block. *)
Definition retype (p : Change) (b : DiffBlock) : DiffBlock :=
  if (added p && bool_decide (type b = deletion))
     || (removed p && bool_decide (type b = addition))
  then mkBlock (id b) change (oldLines b) (newLines b) (oldStart b) (newStart b)
  else b.

Definition pushNew (b : DiffBlock) (lines : list string) : DiffBlock :=
  mkBlock (id b) (type b) (oldLines b) (newLines b ++ lines) (oldStart b) (newStart b).

Definition pushOld (b : DiffBlock) (lines : list string) : DiffBlock :=
  mkBlock (id b) (type b) (oldLines b ++ lines) (newLines b) (oldStart b) (newStart b).

(** The block object created by [pendingBlock = { id: blockId++, ... }]. *)
Definition freshBlock (st : LoopState) (part : Change) : DiffBlock :=
  mkBlock (blockId st) (if added part then addition else deletion)
          [] [] (oldLineNumber st) (newLineNumber st).

(** The first [if]/[else if] of the changed-part branch: the block list,
    the id counter and the pending block after it. *)
Definition openBlock (st : LoopState) (part : Change) (currentLineNumber : Z)
  : list DiffBlock * Z * DiffBlock :=
  match pendingBlock st with
  | None => (blocks st, blockId st + 1, freshBlock st part)
  | Some b =>
      if startsNewBlock part b currentLineNumber (lastChangeLineNumber st)
      then (blocks st ++ [b], blockId st + 1, freshBlock st part)
      else (blocks st, blockId st, retype part b)
  end.

(** One iteration of [for (const part of changes)]. *)
Definition step (st : LoopState) (part : Change) : LoopState :=
  let currentLineNumber :=
    if added part then newLineNumber st else oldLineNumber st in
  if added part || removed part then
    let lines := partLines part in
    let '(bs, bid, pb) := openBlock st part currentLineNumber in
    if added part then
      let n := newLineNumber st + count_or_0 part in
      {| blocks := bs; blockId := bid;
         oldLineNumber := oldLineNumber st; newLineNumber := n;
         pendingBlock := Some (pushNew pb lines);
         lastChangeLineNumber := n - 1 |}
    else
      let o := oldLineNumber st + count_or_0 part in
      {| blocks := bs; blockId := bid;
         oldLineNumber := o; newLineNumber := newLineNumber st;
         pendingBlock := Some (pushOld pb lines);
         lastChangeLineNumber := o - 1 |}
  else
    let bs := flush (blocks st) (pendingBlock st) in
    let contextLines := partLines part in
    let emit := negb (bool_decide (contextLines = [])) in
    {| blocks :=
         if emit
         then bs ++ [mkBlock (blockId st) context contextLines contextLines
                             (oldLineNumber st) (newLineNumber st)]
         else bs;
       blockId := if emit then blockId st + 1 else blockId st;
       oldLineNumber := oldLineNumber st + count_or_0 part;
       newLineNumber := newLineNumber st + count_or_0 part;
       pendingBlock := None;
       lastChangeLineNumber := -1 |}.

Definition loop (changes : list Change) (st : LoopState) : LoopState :=
  fold_left step changes st.

(** The body of [computeDiff] once [diff.diffLines] has answered. *)
Definition computeDiffOf (changes : list Change) : list DiffBlock :=
  let st := loop changes init in
  flush (blocks st) (pendingBlock st).

(** [computeDiff(content1, content2)], with the differ as a parameter. *)
Definition computeDiff (diffLines : string → string → list Change)
           (content1 content2 : string) : list DiffBlock :=
  computeDiffOf (diffLines content1 content2).

(** [findRelatedBlocks(blockId)]: "a simplified implementation that just
    returns an array with the block itself". *)
Definition findRelatedBlocks (blockId : Z) : list DiffBlock :=
  [mkBlock blockId change [] [] 0 0].

(** *** The approval session of one file ([DiffFile.show])

    The two callbacks handed to the constructor are code of the caller;
    the session records every call it makes to them.  Whether a call to
    [onBlockApprove] resolves or rejects is part of the event.  A handler
    runs to its end before the next event is taken. *)

Inductive Callback :=
| BlockApprove (blockId : Z) (approved : bool)
| AllBlocksProcessed.

Global Instance Callback_eq_dec : EqDecision Callback.
Proof. solve_decision. Defined.

Record Session := mkSession {
  filePath : string;
  pendingBlocks : list Z;          (* Set<number>, in insertion order *)
  hasCalledAllBlocksProcessed : bool;
  approvedFiles : gset string;     (* DiffApproveProvider.approvedFiles *)
  calls : list Callback;           (* calls made to the two callbacks *)
  disposed : bool                  (* the panel's listeners are gone *)
}.

(** [pendingBlocks.delete(blockId)] *)
Definition deletePending (blockId : Z) (s : Session) : Session :=
  mkSession (filePath s) (filter (λ x, x ≠ blockId) (pendingBlocks s))
            (hasCalledAllBlocksProcessed s) (approvedFiles s) (calls s)
            (disposed s).

Definition clearPending (s : Session) : Session :=
  mkSession (filePath s) [] (hasCalledAllBlocksProcessed s)
            (approvedFiles s) (calls s) (disposed s).

Definition record (c : Callback) (s : Session) : Session :=
  mkSession (filePath s) (pendingBlocks s) (hasCalledAllBlocksProcessed s)
            (approvedFiles s) (calls s ++ [c]) (disposed s).

(** [DiffApproveProvider.isFileApproved] and [markFileAsApproved]. *)
Definition isFileApproved (files : gset string) (path : string) : bool :=
  bool_decide (path ∈ files).

Definition markFileAsApproved (files : gset string) (path : string)
  : gset string := {[ path ]} ∪ files.

(** The guarded block that both message cases and the dispose handler
    share: [if (!hasCalledAllBlocksProcessed) { ... }]. *)
Definition signalCompletion (s : Session) : Session :=
  if hasCalledAllBlocksProcessed s then s
  else mkSession (filePath s) (pendingBlocks s) true
                 (markFileAsApproved (approvedFiles s) (filePath s))
                 (calls s ++ [AllBlocksProcessed]) (disposed s).

(** [for (const block of blocks) { await onBlockApprove(...);
    pendingBlocks.delete(block.id) }]; [false] when a call rejected, which
    ends the handler. *)
Fixpoint processGroup (resolves : Z → bool) (approved : bool)
         (group : list DiffBlock) (s : Session) : Session * bool :=
  match group with
  | [] => (s, true)
  | block :: rest =>
      let s1 := record (BlockApprove (id block) approved) s in
      if resolves (id block)
      then processGroup resolves approved rest (deletePending (id block) s1)
      else (s1, false)
  end.

(** [for (const blockId of this.pendingBlocks) await onBlockApprove(...)] *)
Fixpoint notifyAll (resolves : Z → bool) (approved : bool)
         (ids : list Z) (s : Session) : Session * bool :=
  match ids with
  | [] => (s, true)
  | blockId :: rest =>
      let s1 := record (BlockApprove blockId approved) s in
      if resolves blockId then notifyAll resolves approved rest s1
      else (s1, false)
  end.

Inductive MessageType := approve | deny | approveAll | denyAll | otherType.

Global Instance MessageType_eq_dec : EqDecision MessageType.
Proof. solve_decision. Defined.

Inductive Event :=
| Message (t : MessageType) (blockId : option Z) (resolves : Z → bool)
| PanelDisposed.

(** The handler given to [onDidReceiveMessage]. *)
Definition onMessage (t : MessageType) (blockId : option Z)
           (resolves : Z → bool) (s : Session) : Session :=
  match t with
  | approve | deny =>
      match blockId with
      | None => s
      | Some b =>
          let group := findRelatedBlocks b in
          if (0 <? length group)%nat then
            let '(s1, ok) :=
              processGroup resolves (bool_decide (t = approve)) group s in
            if ok then
              if bool_decide (pendingBlocks s1 = []) then signalCompletion s1
              else s1
            else s1
          else s
      end
  | approveAll | denyAll =>
      let '(s1, ok) :=
        notifyAll resolves (bool_decide (t = approveAll)) (pendingBlocks s) s in
      if ok then signalCompletion (clearPending s1) else s1
  | otherType => s
  end.

(** The handler given to [onDidDispose]. *)
Definition onDidDispose (s : Session) : Session :=
  let s1 :=
    if (0 <? length (pendingBlocks s))%nat then s
    else signalCompletion s in
  mkSession (filePath s1) (pendingBlocks s1) (hasCalledAllBlocksProcessed s1)
            (approvedFiles s1) (calls s1) true.

(** Once the panel is gone its listeners are disposed with it. *)
Definition handle (s : Session) (e : Event) : Session :=
  if disposed s then s
  else match e with
       | Message t blockId resolves => onMessage t blockId resolves s
       | PanelDisposed => onDidDispose s
       end.

Definition run (s : Session) (events : list Event) : Session :=
  fold_left handle events s.

(** [new DiffFile(...)] followed by [show]: [updateContent] fills the
    pending set with the ids of the non-context blocks. *)
Definition open (path : string) (blocks : list DiffBlock)
           (files : gset string) : Session :=
  mkSession path (setOfArray (nonContextIds blocks)) false files [] false.

End DiffFile.

(** ** The earlier single-panel provider ([unnamed/part_002]) *)

Module SinglePanelProvider.

(** [for (let i = targetIndex; i >= 0; i--)]: stops at a context block,
    otherwise [blocks.unshift(block)]. *)
Fixpoint lookBackwards (all : list DiffBlock) (i : nat)
         (blocks : list DiffBlock) {struct i} : list DiffBlock :=
  match all !! i with
  | None => blocks
  | Some block =>
      if is_context block then blocks
      else match i with
           | O => block :: blocks
           | S i' => lookBackwards all i' (block :: blocks)
           end
  end.

(** [for (let i = targetIndex + 1; i < length; i++)] over the blocks that
    follow the target: stops at a context block, otherwise
    [blocks.push(block)]. *)
Fixpoint lookForwards (following : list DiffBlock)
         (blocks : list DiffBlock) : list DiffBlock :=
  match following with
  | [] => blocks
  | block :: rest =>
      if is_context block then blocks
      else lookForwards rest (blocks ++ [block])
  end.

(** [findRelatedBlocks(blockId)] (lines 138-163).  [find] returns the first
    block with the id; [indexOf] of that object is the position where
    [find] met it, so both come from one search. *)
Definition findRelatedBlocks (diffContent : option (list DiffBlock))
           (blockId : Z) : list DiffBlock :=
  match diffContent with
  | None => []
  | Some all =>
      match list_find (λ block, id block = blockId) all with
      | None => []
      | Some (targetIndex, _) =>
          lookForwards (drop (S targetIndex) all)
                       (lookBackwards all targetIndex [])
      end
  end.

End SinglePanelProvider.

(** ** [DiffApprovePanel] (diffApprovePanel.ts) *)

Module DiffApprovePanel.

Inductive ApprovalAction := approve | deny.

(** [lines[i]] for an index the loops keep in range. *)
Definition lineAt (lines : list string) (i : nat) : string :=
  default EmptyString (lines !! i).

(** *** [_computeDiff] (lines 145-271) *)

(** The inner [for (searchJ ...)] loop: the first [searchJ] in
    [j .. min(j + 10, lines2.length) - 1] whose line equals
    [lines1[searchI]]. *)
Definition searchRow (lines1 lines2 : list string) (searchI j : nat)
  : option nat :=
  List.find (λ searchJ, bool_decide (lines1 !! searchI = lines2 !! searchJ))
            (seq j (Nat.min (j + 10) (length lines2) - j)).

(** The outer [for (searchI ...)] loop with its [break]. *)
Fixpoint searchRows (lines1 lines2 : list string) (rows : list nat) (j : nat)
  : option (nat * nat) :=
  match rows with
  | [] => None
  | searchI :: rest =>
      match searchRow lines1 lines2 searchI j with
      | Some searchJ => Some (searchI, searchJ)
      | None => searchRows lines1 lines2 rest j
      end
  end.

(** [(nextMatchOld, nextMatchNew)], or [None] for [-1]. *)
Definition findNextMatch (lines1 lines2 : list string) (i j : nat)
  : option (nat * nat) :=
  searchRows lines1 lines2
             (seq i (Nat.min (i + 10) (length lines1) - i)) j.

Record LoopState := mkLoop {
  blocks : list DiffBlock;
  blockId : Z;
  i : nat;
  j : nat
}.

Definition line1 (n : nat) : Z := Z.of_nat n + 1.

(** [blocks[blocks.length - 1].oldLines.push(l1)] and the same for
    [newLines] with [l2]. *)
Fixpoint pushToLast (l1 l2 : string) (bs : list DiffBlock) : list DiffBlock :=
  match bs with
  | [] => []
  | [b] => [mkBlock (id b) (type b) (oldLines b ++ [l1]) (newLines b ++ [l2])
                    (oldStart b) (newStart b)]
  | b :: rest => b :: pushToLast l1 l2 rest
  end.

(** [blocks.length === 0 || blocks[blocks.length - 1].type !== "context"] *)
Definition needsContextBlock (bs : list DiffBlock) : bool :=
  match last bs with
  | None => true
  | Some b => negb (is_context b)
  end.

(** [lines1[i] === lines2[j]] guarded by the two range tests. *)
Definition linesMatch (lines1 lines2 : list string) (i j : nat) : bool :=
  (i <? length lines1)%nat && (j <? length lines2)%nat
  && bool_decide (lines1 !! i = lines2 !! j).

(** The body of the [while] loop. *)
Definition iteration (lines1 lines2 : list string) (st : LoopState)
  : LoopState :=
  let i := i st in
  let j := j st in
  let push ty olds news :=
    blocks st ++ [mkBlock (blockId st) ty olds news (line1 i) (line1 j)] in
  if linesMatch lines1 lines2 i j then
    let '(bs, bid) :=
      if needsContextBlock (blocks st)
      then (push context [] [], blockId st + 1)
      else (blocks st, blockId st) in
    mkLoop (pushToLast (lineAt lines1 i) (lineAt lines2 j) bs) bid
           (S i) (S j)
  else
    match findNextMatch lines1 lines2 i j with
    | None =>
        if (i <? length lines1)%nat && (j <? length lines2)%nat then
          mkLoop (push change [lineAt lines1 i] [lineAt lines2 j])
                 (blockId st + 1) (S i) (S j)
        else if (i <? length lines1)%nat then
          mkLoop (push deletion [lineAt lines1 i] [])
                 (blockId st + 1) (S i) j
        else
          mkLoop (push addition [] [lineAt lines2 j])
                 (blockId st + 1) i (S j)
    | Some (nextMatchOld, nextMatchNew) =>
        let bs :=
          if (i <? nextMatchOld)%nat && (j <? nextMatchNew)%nat then
            push change (JS.slice lines1 i nextMatchOld)
                        (JS.slice lines2 j nextMatchNew)
          else if (i <? nextMatchOld)%nat then
            push deletion (JS.slice lines1 i nextMatchOld) []
          else
            push addition [] (JS.slice lines2 j nextMatchNew) in
        mkLoop bs (blockId st + 1) nextMatchOld nextMatchNew
    end.

(** [while (i < lines1.length || j < lines2.length)], with a bound on the
    number of iterations; [None] when the bound is used up. *)
Fixpoint while (fuel : nat) (lines1 lines2 : list string) (st : LoopState)
  : option (list DiffBlock) :=
  if (i st <? length lines1)%nat || (j st <? length lines2)%nat then
    match fuel with
    | O => None
    | S fuel' => while fuel' lines1 lines2 (iteration lines1 lines2 st)
    end
  else Some (blocks st).

Definition _computeDiffLines (lines1 lines2 : list string)
  : option (list DiffBlock) :=
  while (length lines1 + length lines2) lines1 lines2 (mkLoop [] 0 0%nat 0%nat).

Definition _computeDiff (content1 content2 : string)
  : option (list DiffBlock) :=
  _computeDiffLines (JS.split content1) (JS.split content2).

(** *** The panel and the two files it reads and writes *)

Record Panel := mkPanel {
  file1 : option string;            (* content at _file1Uri, if readable *)
  file2 : option string;            (* content at _file2Uri, if readable *)
  _diffContent : option (list DiffBlock);
  _pendingBlocks : gset Z;
  openRequests : nat                (* calls of _openModifiedFile *)
}.

(** [_loadDiffContent]: a failed read is caught and leaves the content. *)
Definition _loadDiffContent (p : Panel) : Panel :=
  match file1 p, file2 p with
  | Some file1Content, Some file2Content =>
      match _computeDiff file1Content file2Content with
      | Some diffs =>
          mkPanel (file1 p) (file2 p) (Some diffs) (_pendingBlocks p)
                  (openRequests p)
      | None => p
      end
  | _, _ => p
  end.

(** [_checkIfAllBlocksProcessed] *)
Definition _checkIfAllBlocksProcessed (p : Panel) : Panel :=
  if bool_decide (size (_pendingBlocks p) = 0%nat)
  then mkPanel (file1 p) (file2 p) (_diffContent p) (_pendingBlocks p)
               (S (openRequests p))
  else p.

(** The [switch (block.type)] of the deny branch. *)
Definition revert (block : DiffBlock) (lines : list string) : list string :=
  match type block with
  | addition =>
      JS.splice lines (newStart block - 1)
                (Z.of_nat (length (newLines block))) []
  | deletion =>
      JS.splice lines (newStart block - 1) 0 (oldLines block)
  | change =>
      JS.splice lines (newStart block - 1)
                (Z.of_nat (length (newLines block))) (oldLines block)
  | context => lines
  end.

(** [_handleApproval(blockId, action, updateUI)] *)
Definition _handleApproval (blockId : Z) (action : ApprovalAction)
           (updateUI : bool) (p : Panel) : Panel :=
  match _diffContent p with
  | None => p
  | Some blocks =>
      match findBlock blocks blockId with
      | None => p
      | Some block =>
          match action with
          | approve =>
              _checkIfAllBlocksProcessed
                (mkPanel (file1 p) (file2 p) (_diffContent p)
                         (_pendingBlocks p ∖ {[ blockId ]}) (openRequests p))
          | deny =>
              match file2 p with
              | None => p
              | Some file2Content =>
                  let lines := revert block (JS.split file2Content) in
                  let p1 :=
                    mkPanel (file1 p) (Some (JS.join lines)) (_diffContent p)
                            (_pendingBlocks p ∖ {[ blockId ]})
                            (openRequests p) in
                  _checkIfAllBlocksProcessed
                    (if updateUI then _loadDiffContent p1 else p1)
              end
          end
      end
  end.

(** [_handleApproveAll] *)
Definition _handleApproveAll (p : Panel) : Panel :=
  match _diffContent p with
  | None => p
  | Some _ =>
      _checkIfAllBlocksProcessed
        (mkPanel (file1 p) (file2 p) (_diffContent p) ∅ (openRequests p))
  end.

(** [_handleDenyAll] *)
Definition _handleDenyAll (p : Panel) : Panel :=
  match _diffContent p with
  | None => p
  | Some blocks =>
      let nonContextBlocks := filter (λ block, type block ≠ context) blocks in
      let p1 :=
        fold_left (λ q block, _handleApproval (id block) deny false q)
                  nonContextBlocks p in
      let p2 := _loadDiffContent p1 in
      _checkIfAllBlocksProcessed
        (mkPanel (file1 p2) (file2 p2) (_diffContent p2) ∅ (openRequests p2))
  end.

(** The ["getContent"] message: load, then fill the pending set. *)
Definition getContent (p : Panel) : Panel :=
  let p1 := _loadDiffContent p in
  match _diffContent p1 with
  | None => p1
  | Some blocks =>
      mkPanel (file1 p1) (file2 p1) (_diffContent p1)
              (list_to_set (nonContextIds blocks)) (openRequests p1)
  end.

(** A panel just created over two readable files. *)
Definition create (file1Content file2Content : string) : Panel :=
  mkPanel (Some file1Content) (Some file2Content) None ∅ 0.

End DiffApprovePanel.

(** ** What the line differ promises

    [diff.diffLines] cuts both texts into line tokens (a line with its
    newline; the last token has none when the text does not end in one) and
    answers with runs of tokens: the runs that are not [added] spell the old
    text, the runs that are not [removed] spell the new text, a run is never
    both, a changed run is not empty and [count] is its number of tokens. *)

Fixpoint lineTokens (s : string) : list string :=
  match s with
  | EmptyString => []
  | String c rest =>
      if JS.is_LF c then String c EmptyString :: lineTokens rest
      else match lineTokens rest with
           | h :: t => String c h :: t
           | [] => [String c EmptyString]
           end
  end.

Definition concatValues (changes : list Change) : string :=
  fold_right String.append EmptyString (value <$> changes).

Definition wellFormedChange (p : Change) : bool :=
  negb (added p && removed p)
  && bool_decide (count p = Some (Z.of_nat (length (lineTokens (value p)))))
  && (negb (added p || removed p) || JS.nonempty (value p)).

Definition isLineDiff (content1 content2 : string) (changes : list Change)
  : bool :=
  forallb wellFormedChange changes
  && bool_decide (concatValues (List.filter (λ p, negb (added p)) changes)
                  = content1)
  && bool_decide (concatValues (List.filter (λ p, negb (removed p)) changes)
                  = content2)
  && bool_decide (concat (lineTokens ∘ value
                            <$> List.filter (λ p, negb (added p)) changes)
                  = lineTokens content1)
  && bool_decide (concat (lineTokens ∘ value
                            <$> List.filter (λ p, negb (removed p)) changes)
                  = lineTokens content2).

(** Every [added] or [removed] part carries some text. *)
Definition changedPartsNonEmpty (changes : list Change) : Prop :=
  Forall (λ p, added p || removed p = true → value p ≠ EmptyString) changes.

(** ** Reading a block sequence back *)

(** The old side and the new side of a block sequence, in emission order. *)
Definition oldSide (blocks : list DiffBlock) : list string :=
  concat (oldLines <$> blocks).

Definition newSide (blocks : list DiffBlock) : list string :=
  concat (newLines <$> blocks).

(** A line token without its newline. *)
Fixpoint chomp (token : string) : string :=
  match token with
  | EmptyString => EmptyString
  | String c EmptyString => if JS.is_LF c then EmptyString else token
  | String c rest => String c (chomp rest)
  end.

(** The lines of a text: its line tokens without their newlines. *)
Definition textLines (content : string) : list string :=
  chomp <$> lineTokens content.

(** ** Related blocks, following the wording of the specification

    [group] is the contiguous run of non-context blocks of [all] around the
    block with id [blockId]: it is the segment [lo .. hi - 1], the block
    sits inside, no block of the segment is a context block, and on either
    side the segment ends at a context block or at the end of [all]. *)
Definition is_related_run (all : list DiffBlock) (blockId : Z)
           (group : list DiffBlock) : Prop :=
  ∃ lo hi idx b,
    group = take (hi - lo) (drop lo all)
    ∧ (lo ≤ idx < hi)%nat ∧ (hi ≤ length all)%nat
    ∧ all !! idx = Some b ∧ id b = blockId
    ∧ Forall (λ g, type g ≠ context) group
    ∧ (lo = 0%nat ∨ ∃ c, all !! (lo - 1)%nat = Some c ∧ type c = context)
    ∧ (hi = length all ∨ ∃ c, all !! hi = Some c ∧ type c = context).

(** ** Concrete inputs *)

Definition nl : string := String JS.LF EmptyString.

(** [diffLines("a\nb\nc\n", "a\nx\nc\n")]. *)
Definition scenarioA_old : string := "a" ++ nl ++ "b" ++ nl ++ "c" ++ nl.
Definition scenarioA_new : string := "a" ++ nl ++ "x" ++ nl ++ "c" ++ nl.
Definition scenarioA : list Change :=
  [ mkChange ("a" ++ nl) false false (Some 1);
    mkChange ("b" ++ nl) false true (Some 1);
    mkChange ("x" ++ nl) true false (Some 1);
    mkChange ("c" ++ nl) false false (Some 1) ].

(** [diffLines("", "x\n\ny")]: a new file with a blank line and no final
    newline is one added part. *)
Definition blankLine_new : string := "x" ++ nl ++ nl ++ "y".
Definition blankLine : list Change :=
  [ mkChange blankLine_new true false (Some 3) ].

(** [diffLines("a", "a\n")]: the two texts differ in the final newline. *)
Definition eofNewline : list Change :=
  [ mkChange "a" false true (Some 1);
    mkChange ("a" ++ nl) true false (Some 1) ].

(** [diffLines("a\nb\n", "x\ny\nz\na\nw\n")]: the new side runs ahead of
    the old side, so the removal and the insertion after ["a"] stay two
    blocks. *)
Definition splitEdit_old : string := "a" ++ nl ++ "b" ++ nl.
Definition splitEdit_new : string :=
  "x" ++ nl ++ "y" ++ nl ++ "z" ++ nl ++ "a" ++ nl ++ "w" ++ nl.
Definition splitEdit : list Change :=
  [ mkChange ("x" ++ nl ++ "y" ++ nl ++ "z" ++ nl) true false (Some 3);
    mkChange ("a" ++ nl) false false (Some 1);
    mkChange ("b" ++ nl) false true (Some 1);
    mkChange ("w" ++ nl) true false (Some 1) ].

(** A panel over the texts ["a\nb\nc"] and ["x\nb\ny"], and its blocks. *)
Definition editedPanel : DiffApprovePanel.Panel :=
  DiffApprovePanel.getContent
    (DiffApprovePanel.create ("a" ++ nl ++ "b" ++ nl ++ "c")
                             ("x" ++ nl ++ "b" ++ nl ++ "y")).

Definition editedBlocks : list DiffBlock :=
  [ mkBlock 0 change ["a"] ["x"] 1 1;
    mkBlock 1 context ["b"] ["b"] 2 2;
    mkBlock 2 change ["c"] ["y"] 3 3 ].

(** A panel over ["a\nb\nc\nd"] and ["x\nb\ny\nz"] after the change of
    the first line was denied: the reloaded diff numbers its blocks 0, 1, 2
    while the pending set still holds the ids 2 and 3 of the first diff. *)
Definition reloadedPanel : DiffApprovePanel.Panel :=
  DiffApprovePanel._handleApproval 0 DiffApprovePanel.deny true
    (DiffApprovePanel.getContent
       (DiffApprovePanel.create
          ("a" ++ nl ++ "b" ++ nl ++ "c" ++ nl ++ "d")
          ("x" ++ nl ++ "b" ++ nl ++ "y" ++ nl ++ "z"))).

Definition reloadedBlocks : list DiffBlock :=
  [ mkBlock 0 context ["a"; "b"] ["a"; "b"] 1 1;
    mkBlock 1 change ["c"] ["y"] 3 3;
    mkBlock 2 change ["d"] ["z"] 4 4 ].

(** A panel over ["p\na\nc"] and ["a\nd"]: a deletion of one line is
    followed by a change further down. *)
Definition shifted_old : string := "p" ++ nl ++ "a" ++ nl ++ "c".
Definition shifted_new : string := "a" ++ nl ++ "d".
Definition shiftedPanel : DiffApprovePanel.Panel :=
  DiffApprovePanel.getContent (DiffApprovePanel.create shifted_old shifted_new).

(** A session of [DiffFile] over the blocks of [splitEdit]. *)
Definition splitSession : DiffFile.Session :=
  DiffFile.open "a.ts" (DiffFile.computeDiffOf splitEdit) ∅.

(** ** Invariants of the loops *)

Module DiffFileInv.
Import DiffFile.

(** A block still being filled is never a context block and already
    holds the lines of the part that opened it. *)
Definition pending_ok (pb : option DiffBlock) : Prop :=
  match pb with
  | None => True
  | Some b =>
      match type b with
      | addition => oldLines b = [] ∧ newLines b ≠ []
      | deletion => newLines b = [] ∧ oldLines b ≠ []
      | change => oldLines b ≠ [] ∧ newLines b ≠ []
      | context => False
      end
  end.

Definition kinds_inv (st : LoopState) : Prop :=
  Forall kind_ok (blocks st) ∧ pending_ok (pendingBlock st).

(** Ids are handed out in emission order, starting at 0. *)
Definition ids_sequential (bs : list DiffBlock) : Prop :=
  ∀ k b, bs !! k = Some b → id b = Z.of_nat k.

Definition ids_inv (st : LoopState) : Prop :=
  ids_sequential (flush (blocks st) (pendingBlock st))
  ∧ blockId st = Z.of_nat (length (flush (blocks st) (pendingBlock st))).

End DiffFileInv.

Module GroupingInv.
Local Open Scope nat_scope.

(** The segment [lo .. hi - 1] of [all] holds no context block and cannot
    be extended on either side. *)
Definition maximal_run (all : list DiffBlock) (lo hi : nat) : Prop :=
  hi ≤ length all
  ∧ (∀ k g, lo ≤ k < hi → all !! k = Some g → type g ≠ context)
  ∧ (lo = 0 ∨ ∃ c, all !! (lo - 1) = Some c ∧ type c = context)
  ∧ (hi = length all ∨ ∃ c, all !! hi = Some c ∧ type c = context).

End GroupingInv.

Module PanelDiffInv.
Import DiffApprovePanel.
Local Open Scope nat_scope.

Definition remaining (lines1 lines2 : list string) (st : LoopState) : nat :=
  (length lines1 - i st) + (length lines2 - j st).

Definition in_bounds (lines1 lines2 : list string) (st : LoopState) : Prop :=
  i st ≤ length lines1 ∧ j st ≤ length lines2.

Definition running (lines1 lines2 : list string) (st : LoopState) : bool :=
  (i st <? length lines1) || (j st <? length lines2).

(** Block [b] holds the old lines from its [oldStart] up to (not
    including) index [i'] and the new lines from its [newStart] up to [j']. *)
Definition placed_to (lines1 lines2 : list string) (b : DiffBlock)
           (i' j' : nat) : Prop :=
  ∃ o n, oldStart b = line1 o ∧ newStart b = line1 n
    ∧ o + length (oldLines b) = i' ∧ n + length (newLines b) = j'
    ∧ i' ≤ length lines1 ∧ j' ≤ length lines2
    ∧ oldLines b = JS.slice lines1 o i'
    ∧ newLines b = JS.slice lines2 n j'.

Definition placed (lines1 lines2 : list string) (b : DiffBlock) : Prop :=
  ∃ i' j', placed_to lines1 lines2 b i' j'.

(** Every block sits where it says, and the last one ends at the two
    cursors. *)
Definition cover_inv (lines1 lines2 : list string) (st : LoopState) : Prop :=
  Forall (placed lines1 lines2) (blocks st)
  ∧ ∀ b, last (blocks st) = Some b → placed_to lines1 lines2 b (i st) (j st).

End PanelDiffInv.

Module SessionInv.
Import DiffFile.
Local Open Scope nat_scope.

(** How often [onAllBlocksProcessed] was called so far. *)
Definition signals (s : Session) : nat :=
  length (filter (λ c, c = AllBlocksProcessed) (calls s)).

(** A session before any completion: the flag is down and the callback
    has not been called. *)
Definition fresh (s : Session) : Prop :=
  hasCalledAllBlocksProcessed s = false ∧ signals s = 0.

(** The flag and the calls go together; once the flag is up nothing is
    pending and the file is in the approved set. *)
Definition session_inv (s : Session) : Prop :=
  match hasCalledAllBlocksProcessed s with
  | false => signals s = 0
  | true => signals s = 1 ∧ pendingBlocks s = []
            ∧ filePath s ∈ approvedFiles s
  end.

(** The calls of [onBlockApprove] that one bulk denial makes. *)
Definition denials (ids : list Z) : list Callback :=
  (λ blockId, BlockApprove blockId false) <$> ids.

End SessionInv.

(** ** Further invariants of [DiffApprovePanel._computeDiff] *)

Module PanelSidesInv.
Import DiffApprovePanel.
Local Open Scope nat_scope.

(** The blocks so far spell the old lines up to [i] and the new lines up
    to [j]. *)
Definition sides_inv (lines1 lines2 : list string) (st : LoopState) : Prop :=
  oldSide (blocks st) = take (i st) lines1
  ∧ newSide (blocks st) = take (j st) lines2.

(** The block at position [k] carries the id [k] and starts, on either
    side, right after the lines of the blocks before it. *)
Definition starts_ok (bs : list DiffBlock) : Prop :=
  ∀ k b, bs !! k = Some b →
    id b = Z.of_nat k
    ∧ oldStart b = line1 (length (oldSide (take k bs)))
    ∧ newStart b = line1 (length (newSide (take k bs))).

Definition starts_inv (st : LoopState) : Prop :=
  starts_ok (blocks st) ∧ blockId st = Z.of_nat (length (blocks st)).

(** No context block follows a context block, and no block is without
    lines. *)
Definition no_adjacent_context (bs : list DiffBlock) : Prop :=
  ∀ k a b, bs !! k = Some a → bs !! (S k) = Some b →
    type a = context → type b ≠ context.

Definition has_lines (b : DiffBlock) : Prop :=
  oldLines b ≠ [] ∨ newLines b ≠ [].

Definition shape_inv (st : LoopState) : Prop :=
  no_adjacent_context (blocks st) ∧ Forall has_lines (blocks st).

(** The loop state after [i] rounds over two equal texts. *)
Definition same_text_inv (lines : list string) (st : LoopState) : Prop :=
  j st = i st ∧ (i st = 0 → blockId st = 0%Z)
  ∧ blocks st = match i st with
                | O => []
                | S _ => [mkBlock 0 context (take (i st) lines)
                                  (take (i st) lines) 1 1]
                end.

End PanelSidesInv.

(** ** Lines without a newline *)

(** No character of [s] is a newline. *)
Fixpoint lf_free (s : string) : bool :=
  match s with
  | EmptyString => true
  | String c rest => negb (JS.is_LF c) && lf_free rest
  end.

(** ** When a bulk denial meets stale positions *)

(** Every non-context block that is followed by another non-context block
    replaces as many lines as it removes, so that reverting it does not
    move the blocks behind it. *)
Definition shifts_only_last (blocks : list DiffBlock) : Prop :=
  ∀ (k k' : nat) (b b' : DiffBlock),
    blocks !! k = Some b → type b ≠ context →
    (k < k')%nat → blocks !! k' = Some b' → type b' ≠ context →
    length (oldLines b) = length (newLines b).

(** ** The webview script of [DiffApprovePanel] ([renderDiff], lines 488-533) *)

Module Webview.

(** [content.blocks.filter(block => block.type === 'context' ||
    pendingBlocks.has(block.id))] *)
Definition visibleBlocks (blocks : list DiffBlock) (pendingBlocks : gset Z)
  : list DiffBlock :=
  filter (λ block, type block = context ∨ id block ∈ pendingBlocks) blocks.

(** The tests that let the context block at index [i] through: it is the
    first or the last visible block, or both neighbours exist and one of
    them is not a context block. *)
Definition keepsContext (visibleBlocks : list DiffBlock) (i : nat) : bool :=
  (i =? 0)%nat || (i =? length visibleBlocks - 1)%nat
  || match visibleBlocks !! (i - 1)%nat, visibleBlocks !! (i + 1)%nat with
     | Some prevBlock, Some nextBlock =>
         negb (is_context prevBlock) || negb (is_context nextBlock)
     | _, _ => false
     end.

(** [for (let i = 0; i < visibleBlocks.length; i++)], from index [i] on,
    with [rest] the blocks from that index. *)
Fixpoint filterFrom (visibleBlocks : list DiffBlock) (i : nat)
         (rest : list DiffBlock) : list DiffBlock :=
  match rest with
  | [] => []
  | block :: rest' =>
      (if is_context block
       then if keepsContext visibleBlocks i then [block] else []
       else [block])
      ++ filterFrom visibleBlocks (S i) rest'
  end.

Definition filteredBlocks (visibleBlocks : list DiffBlock) : list DiffBlock :=
  filterFrom visibleBlocks 0 visibleBlocks.

(** The blocks that [renderDiff] draws; [None] when it returns early
    (no content, or the "No pending changes to review." notice). *)
Definition renderDiff (content : option (list DiffBlock))
           (pendingBlocks : gset Z) : option (list DiffBlock) :=
  match content with
  | None => None
  | Some blocks =>
      let visible := visibleBlocks blocks pendingBlocks in
      if (length visible =? 0)%nat then None
      else Some (filteredBlocks visible)
  end.

End Webview.

(** ** The message handler of the single-panel provider
    ([unnamed/part_002], lines 76-136) *)

Module SinglePanelSession.

Record Provider := mkProvider {
  diffContent : option (list DiffBlock);
  pendingBlocks : list Z;              (* Set<number>, in insertion order *)
  calls : list DiffFile.Callback;      (* calls made to the two callbacks *)
  disposed : bool                      (* [dispose()] has run *)
}.

Definition record (c : DiffFile.Callback) (s : Provider) : Provider :=
  mkProvider (diffContent s) (pendingBlocks s) (calls s ++ [c]) (disposed s).

Definition deletePending (blockId : Z) (s : Provider) : Provider :=
  mkProvider (diffContent s) (filter (λ x, x ≠ blockId) (pendingBlocks s))
             (calls s) (disposed s).

Definition clearPending (s : Provider) : Provider :=
  mkProvider (diffContent s) [] (calls s) (disposed s).

(** [dispose()] *)
Definition dispose (s : Provider) : Provider :=
  mkProvider (diffContent s) (pendingBlocks s) (calls s) true.

(** [await this.onAllBlocksProcessed?.(); this.dispose()]: a rejected call
    ends the handler before [dispose]. *)
Definition complete (completes : bool) (s : Provider) : Provider :=
  let s1 := record DiffFile.AllBlocksProcessed s in
  if completes then dispose s1 else s1.

(** The loop over the blocks of a group. *)
Fixpoint processGroup (resolves : Z → bool) (approved : bool)
         (group : list DiffBlock) (s : Provider) : Provider * bool :=
  match group with
  | [] => (s, true)
  | block :: rest =>
      let s1 := record (DiffFile.BlockApprove (id block) approved) s in
      if resolves (id block)
      then processGroup resolves approved rest (deletePending (id block) s1)
      else (s1, false)
  end.

(** The loop over the pending ids of a bulk action. *)
Fixpoint notifyAll (resolves : Z → bool) (approved : bool)
         (ids : list Z) (s : Provider) : Provider * bool :=
  match ids with
  | [] => (s, true)
  | blockId :: rest =>
      let s1 := record (DiffFile.BlockApprove blockId approved) s in
      if resolves blockId then notifyAll resolves approved rest s1
      else (s1, false)
  end.

Inductive Event :=
| Message (t : DiffFile.MessageType) (blockId : option Z)
          (resolves : Z → bool) (completes : bool)
| PanelDisposed.

(** The handler given to [onDidReceiveMessage]. *)
Definition onMessage (t : DiffFile.MessageType) (blockId : option Z)
           (resolves : Z → bool) (completes : bool) (s : Provider)
  : Provider :=
  match diffContent s with
  | None => s
  | Some _ =>
      match t with
      | DiffFile.approve | DiffFile.deny =>
          match blockId with
          | None => s
          | Some b =>
              let blocks :=
                SinglePanelProvider.findRelatedBlocks (diffContent s) b in
              if (0 <? length blocks)%nat then
                let '(s1, ok) :=
                  processGroup resolves (bool_decide (t = DiffFile.approve))
                               blocks s in
                if ok then
                  if bool_decide (pendingBlocks s1 = [])
                  then complete completes s1
                  else s1
                else s1
              else s
          end
      | DiffFile.approveAll | DiffFile.denyAll =>
          let '(s1, ok) :=
            notifyAll resolves (bool_decide (t = DiffFile.approveAll))
                      (pendingBlocks s) s in
          if ok then complete completes (clearPending s1) else s1
      | DiffFile.otherType => s
      end
  end.

(** After [dispose()] the listeners are gone; closing the panel only
    disposes. *)
Definition handle (s : Provider) (e : Event) : Provider :=
  if disposed s then s
  else match e with
       | Message t blockId resolves completes =>
           onMessage t blockId resolves completes s
       | PanelDisposed => dispose s
       end.

Definition run (s : Provider) (events : list Event) : Provider :=
  fold_left handle events s.

(** [updateContent]: the blocks and the ids of the non-context ones. *)
Definition load (blocks : list DiffBlock) : Provider :=
  mkProvider (Some blocks) (setOfArray (nonContextIds blocks)) [] false.

(** How often [onAllBlocksProcessed] was called so far. *)
Definition signals (s : Provider) : nat :=
  length (filter (λ c, c = DiffFile.AllBlocksProcessed) (calls s)).

End SinglePanelSession.

(** ** [escapeHtml] (DiffApproveProvider.ts, lines 535-542) *)

Module Html.

Definition amp : ascii := ascii_of_nat 38.
Definition lt : ascii := ascii_of_nat 60.
Definition gt : ascii := ascii_of_nat 62.
Definition quot : ascii := ascii_of_nat 34.
Definition apos : ascii := ascii_of_nat 39.

(** [s.replace(/c/g, by)] for a single character [c]. *)
Fixpoint replaceAll (c : ascii) (by_ : string) (s : string) : string :=
  match s with
  | EmptyString => EmptyString
  | String x rest =>
      if Ascii.eqb x c then (by_ ++ replaceAll c by_ rest)%string
      else String x (replaceAll c by_ rest)
  end.

Definition escapeHtml (unsafe : string) : string :=
  replaceAll apos "&#039;"
    (replaceAll quot "&quot;"
       (replaceAll gt "&gt;"
          (replaceAll lt "&lt;"
             (replaceAll amp "&amp;" unsafe)))).

(** What one character becomes. *)
Definition escapeChar (c : ascii) : string :=
  if Ascii.eqb c amp then "&amp;"
  else if Ascii.eqb c lt then "&lt;"
  else if Ascii.eqb c gt then "&gt;"
  else if Ascii.eqb c quot then "&quot;"
  else if Ascii.eqb c apos then "&#039;"
  else String c EmptyString.

Fixpoint escapeEach (s : string) : string :=
  match s with
  | EmptyString => EmptyString
  | String c rest => (escapeChar c ++ escapeEach rest)%string
  end.

(** The characters of a string. *)
Fixpoint chars (s : string) : list ascii :=
  match s with
  | EmptyString => []
  | String c rest => c :: chars rest
  end.

End Html.

(** ** Reading the parts of the differ side by side *)

(** The lines that [DiffFile.computeDiff] takes from the parts for the old
    side and for the new side. *)
Definition oldPartLines (changes : list Change) : list string :=
  concat (partLines <$> List.filter (λ p, negb (added p)) changes).

Definition newPartLines (changes : list Change) : list string :=
  concat (partLines
            <$> List.filter (λ p, added p || negb (removed p)) changes).

Module DiffFileSidesInv.
Import DiffFile.

Definition sides_inv (seen : list Change) (st : LoopState) : Prop :=
  oldSide (flush (blocks st) (pendingBlock st)) = oldPartLines seen
  ∧ newSide (flush (blocks st) (pendingBlock st)) = newPartLines seen.

End DiffFileSidesInv.

(** ** The registry of active files ([DiffApproveProvider], lines 558-629)

    A [DiffFile] keeps the two callbacks it was constructed with; the
    registry is modelled with the [DiffFile] identified with them. *)

Module Registry.

(** [show]: the registry afterwards and the [DiffFile] whose [show] is
    called. *)
Definition show {DiffFile : Type} (filePath : string) (callbacks : DiffFile)
           (activeFiles : gmap string DiffFile)
  : gmap string DiffFile * DiffFile :=
  match activeFiles !! filePath with
  | Some diffFile => (activeFiles, diffFile)
  | None => (<[filePath := callbacks]> activeFiles, callbacks)
  end.

(** [removeActiveFile], called when the panel of the file is closed. *)
Definition removeActiveFile {DiffFile : Type} (filePath : string)
           (activeFiles : gmap string DiffFile) : gmap string DiffFile :=
  delete filePath activeFiles.

End Registry.

(** * Properties *)

(** ** The string primitives *)

Section JSFacts.

Lemma split_not_nil s : JS.split s ≠ [].
Proof.
  destruct s as [|c rest]; simpl; [done|].
  destruct (JS.is_LF c); [done|]. by destruct (JS.split rest).
Qed.

(** A text that does not end in a newline ends in a non-empty line. *)
Lemma split_last_nonempty s :
  s ≠ EmptyString → JS.endsWith_LF s = false →
  ∃ l x, JS.split s = l ++ [x] ∧ x ≠ EmptyString.
Proof.
  induction s as [|c rest IH]; [done|]. intros _ Hend.
  destruct rest as [|c' rest'].
  - simpl in *. rewrite Hend. by exists [], (String c EmptyString).
  - assert (Hrest : JS.endsWith_LF (String c' rest') = false) by exact Hend.
    destruct (IH ltac:(done) Hrest) as (l & x & Hsplit & Hx).
    change (JS.split (String c (String c' rest')))
      with (if JS.is_LF c then EmptyString :: JS.split (String c' rest')
            else match JS.split (String c' rest') with
                 | h :: t => String c h :: t
                 | [] => [String c EmptyString]
                 end).
    rewrite Hsplit. destruct (JS.is_LF c).
    + by exists (EmptyString :: l), x.
    + destruct l as [|h t]; simpl.
      * by exists [], (String c x).
      * by exists (String c h :: t), x.
Qed.

Lemma partLines_not_nil p : value p ≠ EmptyString → partLines p ≠ [].
Proof.
  intros Hv. unfold partLines.
  destruct (JS.endsWith_LF (value p)) eqn:Hend.
  - pose proof (split_not_nil (value p)) as Hs.
    destruct (JS.split (value p)) as [|h t]; [done|]. simpl.
    by rewrite orb_true_r.
  - destruct (split_last_nonempty _ Hv Hend) as (l & x & -> & Hx).
    rewrite List.filter_app. simpl.
    destruct x; [done|]. simpl. by destruct (List.filter _ l).
Qed.

Lemma split_singleton_empty s : JS.split s = [EmptyString] → s = EmptyString.
Proof.
  destruct s as [|c rest]; [done|]. simpl.
  pose proof (split_not_nil rest) as Hne.
  destruct (JS.is_LF c); destruct (JS.split rest); naive_solver.
Qed.

(** The split of a text that ends in a newline ends in the empty string. *)
Lemma split_last_empty s :
  JS.endsWith_LF s = true → last (JS.split s) = Some EmptyString.
Proof.
  induction s as [|c rest IH]; [done|]. intros Hend.
  destruct rest as [|c' rest'].
  - simpl in *. by rewrite Hend.
  - specialize (IH Hend).
    change (JS.split (String c (String c' rest')))
      with (if JS.is_LF c then EmptyString :: JS.split (String c' rest')
            else match JS.split (String c' rest') with
                 | h :: t => String c h :: t
                 | [] => [String c EmptyString]
                 end).
    destruct (JS.split (String c' rest')) as [|h t] eqn:Hsplit; [done|].
    destruct (JS.is_LF c); [done|].
    destruct t; [|done]. simpl in IH. injection IH as ->.
    by apply split_singleton_empty in Hsplit.
Qed.

(** For a part that ends in a newline the filter keeps every element of the
    split, the empty last one included. *)
Lemma partLines_of_terminated_part p :
  JS.endsWith_LF (value p) = true →
  partLines p = JS.split (value p)
  ∧ last (partLines p) = Some EmptyString.
Proof.
  intros Hend.
  assert (Hall : partLines p = JS.split (value p)).
  { unfold partLines. rewrite Hend.
    induction (JS.split (value p)) as [|x l IH]; [done|].
    simpl. by rewrite orb_true_r, IH. }
  split; [done|]. rewrite Hall. by apply split_last_empty.
Qed.

End JSFacts.

(** ** [DiffFile.computeDiff]: kinds and ids *)

Module DiffFileFacts.
Import DiffFile DiffFileInv.

Lemma pending_ok_kind_ok b : pending_ok (Some b) → kind_ok b.
Proof. unfold pending_ok, kind_ok. destruct (type b); tauto. Qed.

Lemma app_not_nil_r {A} (l k : list A) : k ≠ [] → l ++ k ≠ [].
Proof. destruct l, k; naive_solver. Qed.

Lemma app_not_nil_l {A} (l k : list A) : l ≠ [] → l ++ k ≠ [].
Proof. destruct l; naive_solver. Qed.

Lemma step_kinds st part :
  (added part || removed part = true → value part ≠ EmptyString) →
  kinds_inv st → kinds_inv (step st part).
Proof.
  intros Hne [Hbs Hpb]. unfold step.
  destruct (added part || removed part) eqn:Hchanged.
  - pose proof (partLines_not_nil part (Hne eq_refl)) as Hlines.
    assert (Hfresh_new :
      pending_ok (Some (pushNew (mkBlock (blockId st) addition [] []
                          (oldLineNumber st) (newLineNumber st))
                          (partLines part)))) by (by split).
    assert (Hfresh_old :
      pending_ok (Some (pushOld (mkBlock (blockId st) deletion [] []
                          (oldLineNumber st) (newLineNumber st))
                          (partLines part)))) by (by split).
    unfold openBlock, freshBlock.
    destruct (pendingBlock st) as [b|] eqn:Epb.
    + destruct (startsNewBlock part b _ _) eqn:Hstart.
      * assert (Forall kind_ok (blocks st ++ [b])).
        { apply Forall_app; split; [done|].
          apply Forall_singleton. by apply pending_ok_kind_ok. }
        by destruct (added part); split.
      * unfold startsNewBlock in Hstart.
        apply orb_false_elim in Hstart as [Hstart Hdel].
        apply orb_false_elim in Hstart as [_ Hadd].
        unfold retype. unfold pending_ok in Hpb.
        destruct (added part) eqn:Ea, (removed part) eqn:Er;
          try discriminate Hchanged; simpl in *;
          destruct (type b) eqn:Et; simpl in *;
          try discriminate; try done;
          (split; [done|]); unfold pending_ok; simpl; rewrite ?Et;
          destruct Hpb as [Ho Hn]; rewrite ?Ho, ?Hn; simpl;
          auto using app_not_nil_r, app_not_nil_l.
    + by destruct (added part); split.
  - split; simpl; [|done].
    assert (Hflush : Forall kind_ok (flush (blocks st) (pendingBlock st))).
    { destruct (pendingBlock st) as [b|]; simpl; [|done].
      apply Forall_app; split; [done|].
      apply Forall_singleton. by apply pending_ok_kind_ok. }
    destruct (negb _); [|done].
    apply Forall_app; split; [done|]. by apply Forall_singleton.
Qed.

Lemma loop_kinds changes st :
  changedPartsNonEmpty changes → kinds_inv st → kinds_inv (loop changes st).
Proof.
  unfold loop. revert st.
  induction changes as [|part rest IH]; intros st Hne Hinv; [done|].
  inversion_clear Hne as [|?? Hpart Hrest]. simpl.
  apply IH; [done|]. by apply step_kinds.
Qed.

Lemma computeDiffOf_kinds changes :
  changedPartsNonEmpty changes → Forall kind_ok (computeDiffOf changes).
Proof.
  intros Hne. unfold computeDiffOf.
  destruct (loop_kinds changes init Hne) as [Hbs Hpb]; [by split|].
  destruct (pendingBlock (loop changes init)) as [b|]; simpl; [|done].
  apply Forall_app; split; [done|].
  apply Forall_singleton. by apply pending_ok_kind_ok.
Qed.

Lemma ids_snoc bs b :
  ids_sequential bs → id b = Z.of_nat (length bs) →
  ids_sequential (bs ++ [b]).
Proof.
  intros Hbs Hb k g Hk.
  destruct (decide (k < length bs)%nat) as [Hlt|Hge].
  - rewrite lookup_app_l in Hk by done. by apply Hbs.
  - rewrite lookup_app_r in Hk by lia.
    destruct (k - length bs)%nat as [|n] eqn:Hn; simpl in Hk; [|done].
    injection Hk as <-. rewrite Hb. f_equal. lia.
Qed.

Lemma ids_snoc_inv bs b :
  ids_sequential (bs ++ [b]) →
  ids_sequential bs ∧ id b = Z.of_nat (length bs).
Proof.
  intros H. split.
  - intros k g Hk. apply H. by apply lookup_app_l_Some.
  - apply H. rewrite lookup_app_r by lia.
    by replace (length bs - length bs)%nat with 0%nat by lia.
Qed.

Lemma step_ids st part : ids_inv st → ids_inv (step st part).
Proof.
  intros [Hseq Hid]. unfold step, ids_inv.
  destruct (added part || removed part).
  - unfold openBlock, freshBlock.
    destruct (pendingBlock st) as [b|] eqn:Epb; simpl in *.
    + apply ids_snoc_inv in Hseq as Hsplit. destruct Hsplit as [Hbs Hb].
      rewrite length_app in Hid. simpl in Hid.
      destruct (startsNewBlock part b _ _).
      * destruct (added part); simpl; rewrite !length_app; simpl;
          (split; [apply ids_snoc; [done|]; simpl;
                   rewrite length_app; simpl; lia | lia]).
      * unfold retype.
        destruct (added part); simpl;
          repeat match goal with
            | |- context [if ?c then _ else _] => destruct c
            end; simpl; rewrite !length_app; simpl;
          (split; [by apply ids_snoc | lia]).
    + destruct (added part); simpl; rewrite !length_app; simpl;
        (split; [by apply ids_snoc | lia]).
  - simpl. destruct (negb _); simpl; [|done].
    rewrite length_app. simpl. split; [by apply ids_snoc | lia].
Qed.

Lemma computeDiffOf_ids changes : ids_sequential (computeDiffOf changes).
Proof.
  unfold computeDiffOf, loop.
  assert (Hinit : ids_inv init) by (split; [by intros [|?] ?|done]).
  revert Hinit. generalize init.
  induction changes as [|part rest IH]; intros st Hinv; simpl.
  - by destruct Hinv.
  - apply IH. by apply step_ids.
Qed.

End DiffFileFacts.

(** ** Related blocks *)

Module GroupingFacts.
Import SinglePanelProvider DiffFileInv DiffFileFacts GroupingInv.
Local Open Scope nat_scope.

Lemma is_context_true b : is_context b = true ↔ type b = context.
Proof. unfold is_context. by rewrite bool_decide_eq_true. Qed.

Lemma is_context_false b : is_context b = false ↔ type b ≠ context.
Proof. unfold is_context. by rewrite bool_decide_eq_false. Qed.

Lemma lookBackwards_context all i c acc :
  all !! i = Some c → is_context c = true → lookBackwards all i acc = acc.
Proof. intros Hc Hctx. destruct i; simpl; by rewrite Hc, Hctx. Qed.

Lemma lookBackwards_run all i b acc :
  all !! i = Some b → type b ≠ context →
  ∃ lo, lo ≤ i
    ∧ lookBackwards all i acc = take (S i - lo) (drop lo all) ++ acc
    ∧ (∀ k g, lo ≤ k ≤ i → all !! k = Some g → type g ≠ context)
    ∧ (lo = 0 ∨ ∃ c, all !! (lo - 1) = Some c ∧ type c = context).
Proof.
  revert b acc. induction i as [|i IH]; intros b acc Hb Hty.
  - exists 0. simpl. rewrite Hb.
    rewrite (proj2 (is_context_false b) Hty).
    split_and!; [done| |..|by left].
    + destruct all as [|b0 rest]; [done|]. by injection Hb as ->.
    + intros k g Hk Hg. assert (k = 0) as -> by lia.
      rewrite Hb in Hg. by injection Hg as <-.
  - simpl. rewrite Hb. rewrite (proj2 (is_context_false b) Hty).
    apply lookup_lt_Some in Hb as Hlen.
    destruct (lookup_lt_is_Some_2 all i ltac:(lia)) as [b' Hb'].
    destruct (is_context b') eqn:Hctx.
    + exists (S i). split_and!; [done| | |].
      * rewrite (lookBackwards_context all i b' _ Hb' Hctx).
        replace (S (S i) - S i) with 1 by lia.
        by rewrite (take_S_r _ 0 b) by (by rewrite lookup_drop, Nat.add_0_r).
      * intros k g Hk Hg. assert (k = S i) as -> by lia.
        rewrite Hb in Hg. by injection Hg as <-.
      * right. exists b'. replace (S i - 1) with i by lia.
        split; [done|]. by apply is_context_true.
    + apply is_context_false in Hctx.
      destruct (IH b' (b :: acc) Hb' Hctx) as (lo & Hlo & Heq & Hrun & Hbound).
      exists lo. split_and!; [lia| |..|done].
      * rewrite Heq. replace (S (S i) - lo) with (S (S i - lo)) by lia.
        rewrite (take_S_r _ (S i - lo) b).
        -- by rewrite <- app_assoc.
        -- rewrite lookup_drop. by replace (lo + (S i - lo)) with (S i) by lia.
      * intros k g Hk Hg.
        destruct (decide (k = S i)) as [->|].
        -- rewrite Hb in Hg. by injection Hg as <-.
        -- apply (Hrun k); [lia|done].
Qed.

Lemma lookForwards_run following acc :
  ∃ n, n ≤ length following
    ∧ lookForwards following acc = acc ++ take n following
    ∧ (∀ k g, k < n → following !! k = Some g → type g ≠ context)
    ∧ (n = length following
       ∨ ∃ c, following !! n = Some c ∧ type c = context).
Proof.
  revert acc. induction following as [|b rest IH]; intros acc.
  - exists 0. simpl. rewrite app_nil_r. split_and!; [done..|lia|by left].
  - simpl. destruct (is_context b) eqn:Hctx.
    + exists 0. simpl. rewrite app_nil_r. split_and!; [lia|done|lia|].
      right. exists b. split; [done|]. by apply is_context_true.
    + destruct (IH (acc ++ [b])) as (n & Hn & Heq & Hrun & Hbound).
      exists (S n). simpl. split_and!; [lia| | |].
      * by rewrite Heq, <- app_assoc.
      * intros [|k] g Hk Hg; simpl in Hg.
        -- injection Hg as <-. by apply is_context_false.
        -- apply (Hrun k); [lia|done].
      * destruct Hbound as [->|Hc]; [by left|by right].
Qed.

(** What the two loops collect around position [idx]. *)
Lemma scan_run all idx b :
  all !! idx = Some b → type b ≠ context →
  ∃ lo hi, lo ≤ idx < hi ∧ maximal_run all lo hi
    ∧ lookForwards (drop (S idx) all) (lookBackwards all idx [])
      = take (hi - lo) (drop lo all).
Proof.
  intros Hb Hty.
  destruct (lookBackwards_run all idx b [] Hb Hty)
    as (lo & Hlo & Hback & Hrun1 & Hbound1).
  destruct (lookForwards_run (drop (S idx) all) (lookBackwards all idx []))
    as (n & Hn & Hfwd & Hrun2 & Hbound2).
  apply lookup_lt_Some in Hb as Hlt.
  rewrite length_drop in Hn, Hbound2.
  exists lo, (S idx + n). split; [lia|]. split.
  - split_and!; [lia| |done|].
    + intros k g Hk Hg.
      destruct (decide (k ≤ idx)); [by apply (Hrun1 k); [lia|]|].
      apply (Hrun2 (k - S idx)); [lia|].
      rewrite lookup_drop. by replace (S idx + (k - S idx)) with k by lia.
    + destruct Hbound2 as [->|(c & Hc & Hctx)]; [left; lia|].
      right. exists c. by rewrite lookup_drop in Hc.
  - rewrite Hfwd, Hback, app_nil_r.
    replace (S idx + n - lo) with ((S idx - lo) + n) by lia.
    rewrite <- take_take_drop, drop_drop.
    by replace (lo + (S idx - lo)) with (S idx) by lia.
Qed.

Lemma maximal_run_unique all lo hi lo' hi' k :
  maximal_run all lo hi → maximal_run all lo' hi' →
  lo ≤ k < hi → lo' ≤ k < hi' → lo = lo' ∧ hi = hi'.
Proof.
  intros (Hlen & Hrun & Hlow & Hhigh) (Hlen' & Hrun' & Hlow' & Hhigh') Hk Hk'.
  split.
  - destruct (Nat.lt_trichotomy lo lo') as [Hlt|[->|Hgt]]; [|done|].
    + destruct Hlow' as [->|(c & Hc & Hctx)]; [lia|].
      by destruct (Hrun (lo' - 1) c ltac:(lia) Hc).
    + destruct Hlow as [->|(c & Hc & Hctx)]; [lia|].
      by destruct (Hrun' (lo - 1) c ltac:(lia) Hc).
  - destruct (Nat.lt_trichotomy hi hi') as [Hlt|[->|Hgt]]; [|done|].
    + destruct Hhigh as [->|(c & Hc & Hctx)]; [lia|].
      by destruct (Hrun' hi c ltac:(lia) Hc).
    + destruct Hhigh' as [->|(c & Hc & Hctx)]; [lia|].
      by destruct (Hrun hi' c ltac:(lia) Hc).
Qed.

(** With ids equal to positions, the search for an id ends at the block
    that carries it. *)
Lemma find_by_id all idx b :
  ids_sequential all → all !! idx = Some b →
  list_find (λ block, id block = id b) all = Some (idx, b).
Proof.
  intros Hids Hb. apply list_find_Some. split_and!; [done..|].
  intros j y Hy Hj Heq. rewrite (Hids _ _ Hy), (Hids _ _ Hb) in Heq. lia.
Qed.

Lemma findRelatedBlocks_at all idx b :
  ids_sequential all → all !! idx = Some b → type b ≠ context →
  ∃ lo hi, lo ≤ idx < hi ∧ maximal_run all lo hi
    ∧ findRelatedBlocks (Some all) (id b) = take (hi - lo) (drop lo all).
Proof.
  intros Hids Hb Hty. unfold findRelatedBlocks.
  rewrite (find_by_id all idx b Hids Hb). by apply (scan_run all idx b).
Qed.

Lemma findRelatedBlocks_member all idx b m :
  ids_sequential all → all !! idx = Some b → type b ≠ context →
  m ∈ findRelatedBlocks (Some all) (id b) →
  findRelatedBlocks (Some all) (id m) = findRelatedBlocks (Some all) (id b).
Proof.
  intros Hids Hb Hty Hm.
  destruct (findRelatedBlocks_at all idx b Hids Hb Hty)
    as (lo & hi & Hidx & Hmax & Heq).
  rewrite Heq in Hm |- *.
  apply list_elem_of_lookup in Hm as [k Hk].
  apply lookup_take_Some in Hk as [Hk Hlt]. rewrite lookup_drop in Hk.
  assert (Hmty : type m ≠ context).
  { destruct Hmax as (_ & Hrun & _). apply (Hrun (lo + k)); [lia|done]. }
  destruct (findRelatedBlocks_at all (lo + k) m Hids Hk Hmty)
    as (lo' & hi' & Hidx' & Hmax' & Heq').
  rewrite Heq'.
  destruct (maximal_run_unique all lo hi lo' hi' (lo + k) Hmax Hmax')
    as [-> ->]; [lia|lia|done].
Qed.

End GroupingFacts.

(** ** [DiffApprovePanel._computeDiff]: termination and kinds *)

Module PanelDiffFacts.
Import DiffApprovePanel PanelDiffInv.
Local Open Scope nat_scope.

Lemma searchRow_Some lines1 lines2 searchI j searchJ :
  searchRow lines1 lines2 searchI j = Some searchJ →
  j ≤ searchJ < length lines2 ∧ lines1 !! searchI = lines2 !! searchJ.
Proof.
  unfold searchRow. intros H. apply find_some in H as [Hin Heq].
  apply in_seq in Hin. apply bool_decide_eq_true in Heq. split; [lia|done].
Qed.

Lemma searchRows_Some lines1 lines2 rows j m n :
  searchRows lines1 lines2 rows j = Some (m, n) →
  In m rows ∧ j ≤ n < length lines2 ∧ lines1 !! m = lines2 !! n.
Proof.
  induction rows as [|searchI rest IH]; simpl; [done|].
  destruct (searchRow lines1 lines2 searchI j) as [searchJ|] eqn:Hrow.
  - intros [= <- <-]. apply searchRow_Some in Hrow. split; [by left|done].
  - intros H. destruct (IH H) as (? & ? & ?). split; [by right|done].
Qed.

Lemma findNextMatch_Some lines1 lines2 i j m n :
  findNextMatch lines1 lines2 i j = Some (m, n) →
  i ≤ m < length lines1 ∧ j ≤ n < length lines2
  ∧ lines1 !! m = lines2 !! n.
Proof.
  unfold findNextMatch. intros H.
  apply searchRows_Some in H as (Hin & Hn & Heq).
  apply in_seq in Hin. split; [lia|done].
Qed.

(** A match found where the lines at [i] and [j] differ lies ahead. *)
Lemma findNextMatch_ahead lines1 lines2 i j m n :
  linesMatch lines1 lines2 i j = false →
  findNextMatch lines1 lines2 i j = Some (m, n) →
  i < m ∨ j < n.
Proof.
  intros Hno Hfind. apply findNextMatch_Some in Hfind as (Hm & Hn & Heq).
  destruct (decide (i < m)); [by left|].
  destruct (decide (j < n)); [by right|].
  assert (m = i) as -> by lia. assert (n = j) as -> by lia.
  unfold linesMatch in Hno.
  rewrite (proj2 (Nat.ltb_lt _ _)), (proj2 (Nat.ltb_lt _ _)) in Hno by lia.
  by rewrite bool_decide_eq_true_2 in Hno.
Qed.

Lemma iteration_progress lines1 lines2 st :
  in_bounds lines1 lines2 st → running lines1 lines2 st = true →
  in_bounds lines1 lines2 (iteration lines1 lines2 st)
  ∧ remaining lines1 lines2 (iteration lines1 lines2 st)
    < remaining lines1 lines2 st.
Proof.
  unfold in_bounds, running, remaining, iteration. intros [Hi Hj] Hrun.
  apply orb_true_iff in Hrun. rewrite !Nat.ltb_lt in Hrun.
  destruct (linesMatch lines1 lines2 (i st) (j st)) eqn:Hmatch.
  - unfold linesMatch in Hmatch.
    apply andb_true_iff in Hmatch as [Hmatch _].
    apply andb_true_iff in Hmatch as [H1 H2].
    apply Nat.ltb_lt in H1, H2.
    destruct (needsContextBlock (blocks st)); simpl; lia.
  - destruct (findNextMatch lines1 lines2 (i st) (j st)) as [[m n]|] eqn:Hfind.
    + pose proof (findNextMatch_ahead _ _ _ _ _ _ Hmatch Hfind).
      apply findNextMatch_Some in Hfind as (Hm & Hn & _). simpl. lia.
    + destruct (i st <? length lines1) eqn:H1;
        destruct (j st <? length lines2) eqn:H2; simpl;
        rewrite ?Nat.ltb_lt, ?Nat.ltb_ge in *; lia.
Qed.

Lemma pushToLast_kinds x bs :
  Forall kind_ok bs → (∀ b, last bs = Some b → type b = context) →
  Forall kind_ok (pushToLast x x bs).
Proof.
  induction bs as [|b rest IH]; intros Hok Hlast; [done|].
  inversion_clear Hok as [|?? Hb Hrest].
  destruct rest as [|b2 rest].
  - simpl. apply Forall_singleton. specialize (Hlast b eq_refl).
    unfold kind_ok in *. simpl. rewrite Hlast in *. by rewrite Hb.
  - change (pushToLast x x (b :: b2 :: rest))
      with (b :: pushToLast x x (b2 :: rest)).
    apply Forall_cons. split; [done|]. apply IH; [done|].
    intros b3 Hb3. by apply Hlast.
Qed.

Lemma slice_not_nil (lines : list string) from to :
  from < to → from < length lines → JS.slice lines from to ≠ [].
Proof.
  intros Hlt Hlen. unfold JS.slice.
  destruct (lookup_lt_is_Some_2 lines from Hlen) as [x Hx].
  rewrite (drop_S _ x) by done.
  by destruct (to - from) eqn:?; [lia|].
Qed.

Lemma lineAt_eq lines1 lines2 i j :
  linesMatch lines1 lines2 i j = true → lineAt lines1 i = lineAt lines2 j.
Proof.
  unfold linesMatch, lineAt. intros H.
  apply andb_true_iff in H as [_ H]. apply bool_decide_eq_true in H.
  by rewrite H.
Qed.

Lemma iteration_kinds lines1 lines2 st :
  Forall kind_ok (blocks st) →
  Forall kind_ok (blocks (iteration lines1 lines2 st)).
Proof.
  intros Hok. unfold iteration.
  assert (Hpush : ∀ b, kind_ok b → Forall kind_ok (blocks st ++ [b])).
  { intros b Hb. apply Forall_app. split; [done|]. by apply Forall_singleton. }
  destruct (linesMatch lines1 lines2 (i st) (j st)) eqn:Hmatch.
  - rewrite (lineAt_eq _ _ _ _ Hmatch).
    destruct (needsContextBlock (blocks st)) eqn:Hneed; simpl.
    + apply pushToLast_kinds; [by apply Hpush|].
      intros b. rewrite last_snoc. by intros [= <-].
    + apply pushToLast_kinds; [done|].
      intros b Hb. unfold needsContextBlock in Hneed. rewrite Hb in Hneed.
      apply negb_false_iff in Hneed. by apply bool_decide_eq_true in Hneed.
  - destruct (findNextMatch lines1 lines2 (i st) (j st)) as [[m n]|] eqn:Hfind.
    + apply findNextMatch_Some in Hfind as (Hm & Hn & _).
      destruct (i st <? m) eqn:H1; destruct (j st <? n) eqn:H2; simpl;
        apply Hpush; unfold kind_ok; simpl; try done.
      apply Nat.ltb_lt in H1, H2.
      split; apply slice_not_nil; lia.
    + destruct (i st <? length lines1); destruct (j st <? length lines2);
        simpl; apply Hpush; by unfold kind_ok.
Qed.

Lemma slice_length (lines : list string) from to :
  from ≤ to → to ≤ length lines → length (JS.slice lines from to) = to - from.
Proof.
  intros. unfold JS.slice. rewrite length_take, length_drop. lia.
Qed.

Lemma placed_to_fresh lines1 lines2 blockId ty i j i' j' :
  i ≤ i' → i' ≤ length lines1 → j ≤ j' → j' ≤ length lines2 →
  placed_to lines1 lines2
    (mkBlock blockId ty (JS.slice lines1 i i') (JS.slice lines2 j j')
             (line1 i) (line1 j)) i' j'.
Proof.
  intros. exists i, j. simpl. rewrite !slice_length by lia.
  split_and!; try done; lia.
Qed.

Lemma slice_one (lines : list string) k :
  k < length lines → [lineAt lines k] = JS.slice lines k (S k).
Proof.
  intros Hk. unfold lineAt, JS.slice.
  destruct (lookup_lt_is_Some_2 lines k Hk) as [x Hx]. rewrite Hx. simpl.
  replace (S k - k) with 1 by lia.
  by rewrite (take_S_r _ 0 x) by (by rewrite lookup_drop, Nat.add_0_r).
Qed.

Lemma slice_none (lines : list string) k : [] = JS.slice lines k k.
Proof. unfold JS.slice. by rewrite Nat.sub_diag. Qed.

Lemma slice_snoc (lines : list string) from to :
  from ≤ to → to < length lines →
  JS.slice lines from to ++ [lineAt lines to] = JS.slice lines from (S to).
Proof.
  intros Hle Hlt. unfold JS.slice, lineAt.
  destruct (lookup_lt_is_Some_2 lines to Hlt) as [x Hx]. rewrite Hx. simpl.
  replace (S to - from) with (S (to - from)) by lia.
  rewrite (take_S_r _ (to - from) x); [done|].
  rewrite lookup_drop. by replace (from + (to - from)) with to by lia.
Qed.

Lemma pushToLast_snoc l1 l2 bs b :
  pushToLast l1 l2 (bs ++ [b])
  = bs ++ [mkBlock (id b) (type b) (oldLines b ++ [l1]) (newLines b ++ [l2])
                   (oldStart b) (newStart b)].
Proof.
  induction bs as [|b0 rest IH]; [done|].
  change ((b0 :: rest) ++ [b]) with (b0 :: (rest ++ [b])).
  destruct (rest ++ [b]) as [|b1 rest'] eqn:E.
  - by destruct rest.
  - change (pushToLast l1 l2 (b0 :: b1 :: rest'))
      with (b0 :: pushToLast l1 l2 (b1 :: rest')).
    by rewrite IH.
Qed.

Lemma placed_to_extend lines1 lines2 b i j :
  i < length lines1 → j < length lines2 →
  placed_to lines1 lines2 b i j →
  placed_to lines1 lines2
    (mkBlock (id b) (type b) (oldLines b ++ [lineAt lines1 i])
             (newLines b ++ [lineAt lines2 j]) (oldStart b) (newStart b))
    (S i) (S j).
Proof.
  intros Hi Hj (o & n & Ho & Hn & Hio & Hjn & _ & _ & Hold & Hnew).
  exists o, n. simpl. rewrite !length_app. simpl.
  split_and!; try done; try lia.
  - rewrite Hold at 1. apply slice_snoc; lia.
  - rewrite Hnew at 1. apply slice_snoc; lia.
Qed.

Lemma cover_snoc lines1 lines2 bs b i' j' :
  Forall (placed lines1 lines2) bs → placed_to lines1 lines2 b i' j' →
  Forall (placed lines1 lines2) (bs ++ [b])
  ∧ ∀ b0, last (bs ++ [b]) = Some b0 → placed_to lines1 lines2 b0 i' j'.
Proof.
  intros Hbs Hb. split.
  - apply Forall_app. split; [done|]. apply Forall_singleton. by exists i', j'.
  - intros b0. rewrite last_snoc. by intros [= <-].
Qed.

Lemma iteration_cover lines1 lines2 st :
  in_bounds lines1 lines2 st → running lines1 lines2 st = true →
  cover_inv lines1 lines2 st →
  cover_inv lines1 lines2 (iteration lines1 lines2 st).
Proof.
  intros [Hi Hj] Hrun [Hall Hlast]. unfold cover_inv, iteration.
  unfold running in Hrun. apply orb_true_iff in Hrun.
  rewrite !Nat.ltb_lt in Hrun.
  destruct (linesMatch lines1 lines2 (i st) (j st)) eqn:Hmatch.
  - unfold linesMatch in Hmatch.
    apply andb_true_iff in Hmatch as [Hmatch _].
    apply andb_true_iff in Hmatch as [H1 H2]. apply Nat.ltb_lt in H1, H2.
    destruct (needsContextBlock (blocks st)) eqn:Hneed; simpl.
    + rewrite pushToLast_snoc. simpl. apply cover_snoc; [done|].
      rewrite (slice_one lines1 (i st)), (slice_one lines2 (j st)) by done.
      apply placed_to_fresh; lia.
    + unfold needsContextBlock in Hneed.
      destruct (last (blocks st)) as [b|] eqn:Hb; [|done].
      apply last_Some in Hb as Hsplit. destruct Hsplit as [bs Hbs].
      rewrite Hbs, pushToLast_snoc. rewrite Hbs in Hall.
      apply Forall_app in Hall as [Hall _].
      apply cover_snoc; [done|]. apply placed_to_extend; [done..|].
      by apply Hlast.
  - destruct (findNextMatch lines1 lines2 (i st) (j st)) as [[m n]|] eqn:Hfind.
    + apply findNextMatch_Some in Hfind as (Hm & Hn & _).
      destruct (i st <? m) eqn:H1; destruct (j st <? n) eqn:H2; simpl;
        rewrite ?Nat.ltb_lt, ?Nat.ltb_ge in *; apply cover_snoc; try done.
      * apply placed_to_fresh; lia.
      * assert (n = j st) as -> by lia.
        rewrite (slice_none lines2 (j st)). apply placed_to_fresh; lia.
      * assert (m = i st) as -> by lia.
        rewrite (slice_none lines1 (i st)). apply placed_to_fresh; lia.
      * assert (m = i st) as -> by lia.
        rewrite (slice_none lines1 (i st)). apply placed_to_fresh; lia.
    + destruct (i st <? length lines1) eqn:H1;
        destruct (j st <? length lines2) eqn:H2; simpl;
        rewrite ?Nat.ltb_lt, ?Nat.ltb_ge in *; apply cover_snoc; try done.
      * rewrite (slice_one lines1 (i st)), (slice_one lines2 (j st)) by done.
        apply placed_to_fresh; lia.
      * rewrite (slice_one lines1 (i st)) by done.
        rewrite (slice_none lines2 (j st)). apply placed_to_fresh; lia.
      * rewrite (slice_one lines2 (j st)) by done.
        rewrite (slice_none lines1 (i st)). apply placed_to_fresh; lia.
      * lia.
Qed.

(** The loop ends within its bound, and what holds of the loop state
    throughout holds of the blocks it returns. *)
Lemma while_total fuel lines1 lines2 st :
  remaining lines1 lines2 st ≤ fuel → in_bounds lines1 lines2 st →
  Forall kind_ok (blocks st) → cover_inv lines1 lines2 st →
  ∃ bs, while fuel lines1 lines2 st = Some bs
    ∧ Forall kind_ok bs ∧ Forall (placed lines1 lines2) bs.
Proof.
  revert st. induction fuel as [|fuel IH]; intros st Hfuel Hb Hok Hcov.
  - simpl. destruct Hb as [Hi Hj]. unfold remaining in Hfuel.
    rewrite (proj2 (Nat.ltb_ge _ _)), (proj2 (Nat.ltb_ge _ _)) by lia.
    exists (blocks st). by destruct Hcov.
  - simpl. destruct (_ || _) eqn:Hrun.
    + destruct (iteration_progress lines1 lines2 st Hb Hrun) as [Hb' Hlt].
      apply IH; [lia|done|by apply iteration_kinds|by apply iteration_cover].
    + exists (blocks st). by destruct Hcov.
Qed.

Lemma _computeDiff_total content1 content2 :
  ∃ bs, _computeDiff content1 content2 = Some bs
    ∧ Forall kind_ok bs
    ∧ Forall (placed (JS.split content1) (JS.split content2)) bs.
Proof.
  unfold _computeDiff, _computeDiffLines. apply while_total.
  - unfold remaining. simpl. lia.
  - unfold in_bounds. simpl. lia.
  - done.
  - by split.
Qed.

(** A placed block splits the new text around its new lines. *)
Lemma placed_split lines1 lines2 b :
  placed lines1 lines2 b →
  ∃ before after,
    lines2 = before ++ newLines b ++ after
    ∧ Z.of_nat (length before) = (newStart b - 1)%Z.
Proof.
  intros (i' & j' & o & n & _ & Hn & _ & Hjn & _ & Hlen & _ & Hnew).
  exists (take n lines2), (drop j' lines2). split.
  - rewrite Hnew at 1. unfold JS.slice.
    rewrite <- (take_drop n lines2) at 1. f_equal.
    rewrite <- (take_drop (j' - n) (drop n lines2)) at 1. f_equal.
    rewrite drop_drop. f_equal. lia.
  - rewrite length_take, Hn. unfold line1. lia.
Qed.

End PanelDiffFacts.

(** ** The approval session of [DiffFile] *)

Module SessionFacts.
Import DiffFile SessionInv.
Local Open Scope nat_scope.

Lemma signals_record_block blockId approved s :
  signals (record (BlockApprove blockId approved) s) = signals s.
Proof.
  unfold signals, record. simpl. rewrite filter_app, length_app.
  rewrite filter_cons_False by done. simpl. lia.
Qed.

(** What the loop over a group leaves alone. *)
Lemma processGroup_frame resolves approved group s :
  let r := (processGroup resolves approved group s).1 in
  filePath r = filePath s
  ∧ hasCalledAllBlocksProcessed r = hasCalledAllBlocksProcessed s
  ∧ approvedFiles r = approvedFiles s
  ∧ disposed r = disposed s
  ∧ signals r = signals s
  ∧ (pendingBlocks s = [] → pendingBlocks r = []).
Proof.
  revert s. induction group as [|block rest IH]; intros s; simpl; [done|].
  destruct (resolves (id block)); simpl.
  - destruct (IH (deletePending (id block)
                    (record (BlockApprove (id block) approved) s)))
      as (-> & -> & -> & -> & -> & Hp).
    simpl. rewrite <- (signals_record_block (id block) approved s).
    split_and!; try done. intros Hs. apply Hp. simpl. by rewrite Hs.
  - by rewrite <- (signals_record_block (id block) approved s).
Qed.

Lemma notifyAll_frame resolves approved ids s :
  let r := (notifyAll resolves approved ids s).1 in
  filePath r = filePath s
  ∧ hasCalledAllBlocksProcessed r = hasCalledAllBlocksProcessed s
  ∧ approvedFiles r = approvedFiles s
  ∧ disposed r = disposed s
  ∧ signals r = signals s
  ∧ pendingBlocks r = pendingBlocks s.
Proof.
  revert s. induction ids as [|blockId rest IH]; intros s; simpl; [done|].
  destruct (resolves blockId); simpl.
  - destruct (IH (record (BlockApprove blockId approved) s))
      as (-> & -> & -> & -> & -> & ->).
    by rewrite <- (signals_record_block blockId approved s).
  - by rewrite <- (signals_record_block blockId approved s).
Qed.

(** The guarded block, run in a state where nothing is pending. *)
Lemma signalCompletion_inv s :
  session_inv s → pendingBlocks s = [] →
  session_inv (signalCompletion s)
  ∧ hasCalledAllBlocksProcessed (signalCompletion s) = true
  ∧ signals (signalCompletion s)
    = (if hasCalledAllBlocksProcessed s then signals s else S (signals s)).
Proof.
  unfold session_inv, signalCompletion. intros Hinv Hp.
  destruct (hasCalledAllBlocksProcessed s) eqn:Hflag; simpl.
  - by rewrite Hflag.
  - unfold signals in *. simpl. rewrite filter_app, length_app, Hinv.
    rewrite filter_cons_True by done. simpl.
    split_and!; try done. unfold markFileAsApproved. set_solver.
Qed.

Lemma session_inv_frame s r :
  hasCalledAllBlocksProcessed r = hasCalledAllBlocksProcessed s →
  signals r = signals s → filePath r = filePath s →
  approvedFiles r = approvedFiles s →
  (pendingBlocks s = [] → pendingBlocks r = []) →
  session_inv s → session_inv r.
Proof.
  unfold session_inv. intros -> -> -> -> Hp.
  destruct (hasCalledAllBlocksProcessed s); [|done].
  intros (? & ? & ?). split_and!; auto.
Qed.

(** One event: the invariant is kept, the path stays, calls only grow. *)
Lemma handle_inv s e :
  session_inv s →
  session_inv (handle s e) ∧ filePath (handle s e) = filePath s
  ∧ signals s ≤ signals (handle s e) ≤ 1
  ∧ (signals (handle s e) ≠ signals s → pendingBlocks (handle s e) = [])
  ∧ (pendingBlocks s ≠ [] → pendingBlocks (handle s e) = [] →
     signals s = 0 ∧ signals (handle s e) = 1)
  ∧ approvedFiles s ⊆ approvedFiles (handle s e).
Proof.
  intros Hinv.
  assert (Hle : signals s ≤ 1).
  { unfold session_inv in Hinv.
    destruct (hasCalledAllBlocksProcessed s); [destruct Hinv|]; lia. }
  assert (Hflag : pendingBlocks s ≠ [] → hasCalledAllBlocksProcessed s = false).
  { unfold session_inv in Hinv.
    destruct (hasCalledAllBlocksProcessed s); [|done]. by destruct Hinv as (_ & -> & _). }
  assert (Hzero : hasCalledAllBlocksProcessed s = false → signals s = 0).
  { unfold session_inv in Hinv. intros Hf. by rewrite Hf in Hinv. }
  unfold handle. destruct (disposed s); [split_and!; try done; lia|].
  (* the shared end of every completing path *)
  assert (Hdone : ∀ r,
    hasCalledAllBlocksProcessed r = hasCalledAllBlocksProcessed s →
    signals r = signals s → filePath r = filePath s →
    approvedFiles r = approvedFiles s → pendingBlocks r = [] →
    session_inv (signalCompletion r)
    ∧ filePath (signalCompletion r) = filePath s
    ∧ signals s ≤ signals (signalCompletion r) ≤ 1
    ∧ (signals (signalCompletion r) ≠ signals s →
       pendingBlocks (signalCompletion r) = [])
    ∧ (pendingBlocks s ≠ [] → pendingBlocks (signalCompletion r) = [] →
       signals s = 0 ∧ signals (signalCompletion r) = 1)
    ∧ approvedFiles s ⊆ approvedFiles (signalCompletion r)).
  { intros r Hf Hs Hpath Hap Hp.
    assert (Hr : session_inv r) by (by apply (session_inv_frame s); auto).
    destruct (signalCompletion_inv r Hr Hp) as (Hinv' & Hup & Hsig).
    assert (Hpend : pendingBlocks (signalCompletion r) = [])
      by (unfold signalCompletion; by destruct (hasCalledAllBlocksProcessed r)).
    assert (Hpath' : filePath (signalCompletion r) = filePath s)
      by (unfold signalCompletion; by destruct (hasCalledAllBlocksProcessed r)).
    assert (Hsub : approvedFiles s ⊆ approvedFiles (signalCompletion r)).
    { unfold signalCompletion, markFileAsApproved.
      destruct (hasCalledAllBlocksProcessed r); simpl; rewrite Hap;
        [done|apply union_subseteq_r]. }
    rewrite Hf, Hs in Hsig.
    destruct (hasCalledAllBlocksProcessed s) eqn:Hfs.
    - split_and!; try done; try lia.
      intros Hne. by specialize (Hflag Hne).
    - specialize (Hzero eq_refl). split_and!; try done; lia. }
  assert (Hstay : ∀ r,
    hasCalledAllBlocksProcessed r = hasCalledAllBlocksProcessed s →
    signals r = signals s → filePath r = filePath s →
    approvedFiles r = approvedFiles s →
    (pendingBlocks s = [] → pendingBlocks r = []) →
    (pendingBlocks s ≠ [] → pendingBlocks r ≠ []) →
    session_inv r ∧ filePath r = filePath s
    ∧ signals s ≤ signals r ≤ 1
    ∧ (signals r ≠ signals s → pendingBlocks r = [])
    ∧ (pendingBlocks s ≠ [] → pendingBlocks r = [] →
       signals s = 0 ∧ signals r = 1)
    ∧ approvedFiles s ⊆ approvedFiles r).
  { intros r Hf Hs Hpath Hap Hp Hnp.
    split_and!; try done; try lia.
    - by apply (session_inv_frame s).
    - intros Hne Hnil. by destruct (Hnp Hne).
    - by rewrite Hap. }
  assert (Hsingle : ∀ resolves b approved,
    let P r :=
      session_inv r ∧ filePath r = filePath s
      ∧ signals s ≤ signals r ≤ 1
      ∧ (signals r ≠ signals s → pendingBlocks r = [])
      ∧ (pendingBlocks s ≠ [] → pendingBlocks r = [] →
         signals s = 0 ∧ signals r = 1)
      ∧ approvedFiles s ⊆ approvedFiles r in
    P (let '(s1, ok) := processGroup resolves approved (findRelatedBlocks b) s in
       if ok then
         if bool_decide (pendingBlocks s1 = []) then signalCompletion s1 else s1
       else s1)).
  { intros resolves b approved P. unfold P, findRelatedBlocks. simpl.
    pose proof (signals_record_block b approved s) as Hrec.
    destruct (resolves b).
    - case_bool_decide as Hnil.
      + by apply Hdone.
      + apply Hstay; try done. simpl. by intros ->.
    - by apply Hstay. }
  destruct e as [t blockId resolves|].
  - unfold onMessage. destruct t.
    1,2: destruct blockId as [b|]; [|by apply Hstay];
      change (0 <? length (findRelatedBlocks b)) with true; cbv iota zeta;
      apply Hsingle.
    1,2: match goal with
      | |- context [notifyAll ?r ?a ?ids ?s0] =>
          pose proof (notifyAll_frame r a ids s0) as Hfr;
          destruct (notifyAll r a ids s0) as [s1 ok]
      end;
      simpl in Hfr; destruct Hfr as (Hpath & Hf & Hap & _ & Hs & Hp);
      (destruct ok; [by apply (Hdone (clearPending s1))|]);
      apply Hstay; try done; by rewrite Hp.
    by apply Hstay.
  - unfold onDidDispose.
    destruct (0 <? length (pendingBlocks s)) eqn:Hlen.
    + by apply (Hstay (mkSession _ _ _ _ _ true)).
    + apply Nat.ltb_ge in Hlen.
      assert (Hnil : pendingBlocks s = []).
      { destruct (pendingBlocks s); [done|simpl in Hlen; lia]. }
      by destruct (Hdone s) as (H1 & H2 & H3 & H4 & H5 & H6).
Qed.

Lemma run_inv s events :
  session_inv s →
  session_inv (run s events) ∧ filePath (run s events) = filePath s
  ∧ approvedFiles s ⊆ approvedFiles (run s events).
Proof.
  unfold run. revert s.
  induction events as [|e rest IH]; intros s Hinv; simpl; [done|].
  destruct (handle_inv s e Hinv) as (Hinv' & Hpath & _ & _ & _ & Hsub).
  destruct (IH _ Hinv') as (? & Hpath' & Hsub').
  split_and!; [done|by rewrite Hpath', Hpath|by etrans].
Qed.

Lemma fresh_inv s : fresh s → session_inv s.
Proof. unfold fresh, session_inv. by intros [-> ?]. Qed.

Lemma notifyAll_calls resolves approved ids s s1 :
  notifyAll resolves approved ids s = (s1, true) →
  calls s1 = calls s ++ ((λ blockId, BlockApprove blockId approved) <$> ids).
Proof.
  revert s. induction ids as [|blockId rest IH]; intros s; simpl.
  - intros [= <-]. by rewrite app_nil_r.
  - destruct (resolves blockId); [|done].
    intros H. rewrite (IH _ H). simpl. by rewrite <- app_assoc.
Qed.

(** One [approve] or [deny] message for block [b] in an open session. *)
Lemma single_message_effect s t b resolves :
  disposed s = false → t = approve ∨ t = deny →
  let s' := handle s (Message t (Some b) resolves) in
  let call := BlockApprove b (bool_decide (t = approve)) in
  disposed s' = false
  ∧ (resolves b = false → s' = record call s)
  ∧ (resolves b = true →
     pendingBlocks s' = filter (λ x, x ≠ b) (pendingBlocks s)
     ∧ (pendingBlocks s' = [] → hasCalledAllBlocksProcessed s' = true)
     ∧ (hasCalledAllBlocksProcessed s = true ∨ pendingBlocks s' ≠ [] →
        calls s' = calls s ++ [call]
        ∧ hasCalledAllBlocksProcessed s' = hasCalledAllBlocksProcessed s)).
Proof.
  intros Hopen Ht s' call. subst s' call. unfold handle. rewrite Hopen.
  destruct Ht as [-> | ->]; unfold onMessage, findRelatedBlocks; simpl;
    (destruct (resolves b); simpl; [|by split_and!]);
    (case_bool_decide as Hnil;
     [ unfold signalCompletion; simpl;
       destruct (hasCalledAllBlocksProcessed s) eqn:Hflag; simpl
     | ]);
    (split_and!; try done; intros _; split_and!; try done);
    try (intros [?|?]; done).
Qed.

End SessionFacts.

(** ** The handlers of [DiffApprovePanel] *)

Module PanelFacts.
Import DiffApprovePanel.
Local Open Scope nat_scope.

(** Splicing at the end of [before], over exactly the lines [mid]. *)
Lemma splice_at {A} (before mid after items : list A) start :
  Z.of_nat (length before) = start →
  JS.splice (before ++ mid ++ after) start (Z.of_nat (length mid)) items
  = before ++ items ++ after.
Proof.
  intros <-. unfold JS.splice, JS.rel_index.
  rewrite (proj2 (Z.ltb_ge _ _)) by lia.
  rewrite !length_app, Nat2Z.id, Z.max_l, Nat2Z.id by lia.
  rewrite Nat.min_l by lia.
  replace (Nat.min (length mid)
             (length before + (length mid + length after) - length before))
    with (length mid) by lia.
  rewrite take_app_length. f_equal. f_equal.
  rewrite drop_app_ge by lia.
  replace (length before + length mid - length before) with (length mid) by lia.
  by rewrite drop_app_length.
Qed.

Lemma findBlock_of_id blocks blockId :
  blockId ∈ nonContextIds blocks → is_Some (findBlock blocks blockId).
Proof.
  unfold nonContextIds, findBlock. intros Hin.
  apply list_elem_of_fmap in Hin as (b & -> & Hb).
  apply list_elem_of_filter in Hb as [_ Hb].
  destruct (list_find_elem_of (λ b0, id b0 = id b) blocks b Hb eq_refl)
    as [[k x] Hfind].
  rewrite Hfind. by eexists.
Qed.

Lemma _loadDiffContent_frame p :
  file1 (_loadDiffContent p) = file1 p
  ∧ file2 (_loadDiffContent p) = file2 p
  ∧ _pendingBlocks (_loadDiffContent p) = _pendingBlocks p
  ∧ openRequests (_loadDiffContent p) = openRequests p.
Proof.
  unfold _loadDiffContent.
  destruct (file1 p) eqn:H1, (file2 p) eqn:H2; rewrite ?H1, ?H2; try done.
  destruct (_computeDiff _ _); simpl; by rewrite ?H1, ?H2.
Qed.

Lemma _checkIfAllBlocksProcessed_frame p :
  file1 (_checkIfAllBlocksProcessed p) = file1 p
  ∧ file2 (_checkIfAllBlocksProcessed p) = file2 p
  ∧ _pendingBlocks (_checkIfAllBlocksProcessed p) = _pendingBlocks p
  ∧ _diffContent (_checkIfAllBlocksProcessed p) = _diffContent p.
Proof. unfold _checkIfAllBlocksProcessed. by case_bool_decide. Qed.

(** What a denial does to the file and to the pending set. *)
Lemma deny_effect p blocks blockId block content updateUI :
  _diffContent p = Some blocks → findBlock blocks blockId = Some block →
  file2 p = Some content →
  let p' := _handleApproval blockId deny updateUI p in
  file2 p' = Some (JS.join (revert block (JS.split content)))
  ∧ file1 p' = file1 p
  ∧ _pendingBlocks p' = _pendingBlocks p ∖ {[ blockId ]}.
Proof.
  intros Hdc Hfind Hfile. unfold _handleApproval. rewrite Hdc, Hfind, Hfile.
  cbv zeta.
  match goal with
  | |- context [_checkIfAllBlocksProcessed ?q] =>
      destruct (_checkIfAllBlocksProcessed_frame q) as (E1 & E2 & E3 & _);
      rewrite E1, E2, E3
  end.
  destruct updateUI; [|done].
  match goal with
  | |- context [_loadDiffContent ?q] =>
      destruct (_loadDiffContent_frame q) as (F1 & F2 & F3 & _);
      by rewrite F1, F2, F3
  end.
Qed.

Lemma approve_effect p blocks blockId block updateUI :
  _diffContent p = Some blocks → findBlock blocks blockId = Some block →
  let p' := _handleApproval blockId approve updateUI p in
  _pendingBlocks p' = _pendingBlocks p ∖ {[ blockId ]}
  ∧ file1 p' = file1 p ∧ file2 p' = file2 p
  ∧ _diffContent p' = Some blocks.
Proof.
  intros Hdc Hfind. unfold _handleApproval. rewrite Hdc, Hfind. cbv zeta.
  unfold _checkIfAllBlocksProcessed. by case_bool_decide.
Qed.

End PanelFacts.

(** * The claims *)

Import DiffFileInv GroupingInv SessionInv PanelDiffInv.

(** C1 (the blocks of [computeDiff(a, b)] read back as the lines of [a] and
    of [b]), evaluated on [a = "a\nb\nc\n"], [b = "a\nx\nc\n"]: the four
    parts are a line diff of the two texts, yet the old side of the blocks
    reads a, "", b, "", c, "" and the new side a, "", x, "", c, "", while
    the old text has the lines a, b, c (and splits into a, b, c, "").  On
    [a = ""], [b = "x\n\ny"] the new side reads x, y: the blank line of the
    new text is gone. *)
Theorem computeDiff_scenarioA_sides :
  isLineDiff scenarioA_old scenarioA_new scenarioA = true
  ∧ oldSide (DiffFile.computeDiffOf scenarioA) = ["a"; ""; "b"; ""; "c"; ""]
  ∧ newSide (DiffFile.computeDiffOf scenarioA) = ["a"; ""; "x"; ""; "c"; ""]
  ∧ textLines scenarioA_old = ["a"; "b"; "c"]
  ∧ JS.split scenarioA_old = ["a"; "b"; "c"; ""]
  ∧ oldSide (DiffFile.computeDiffOf scenarioA) ≠ textLines scenarioA_old
  ∧ oldSide (DiffFile.computeDiffOf scenarioA) ≠ JS.split scenarioA_old
  ∧ isLineDiff "" blankLine_new blankLine = true
  ∧ newSide (DiffFile.computeDiffOf blankLine) = ["x"; "y"]
  ∧ JS.split blankLine_new = ["x"; ""; "y"].
Proof. by vm_compute. Qed.

(** C7 (no block holds a phantom empty line that comes from a trailing
    newline), evaluated on [a = "a"], [b = "a\n"]: the differ answers with
    the removed part ["a"] and the added part ["a\n"], and the one block
    of [computeDiff] is a change from the line a to the two lines a, "". *)
Theorem computeDiff_keeps_line_after_final_newline :
  isLineDiff "a" ("a" ++ nl) eofNewline = true
  ∧ JS.endsWith_LF (value (mkChange ("a" ++ nl) true false (Some 1))) = true
  ∧ DiffFile.computeDiffOf eofNewline
    = [mkBlock 0 change ["a"] ["a"; ""] 1 1]
  ∧ partLines (mkChange ("a" ++ nl) true false (Some 1)) = ["a"; ""].
Proof. by vm_compute. Qed.

(** C5: every block of a diff computation satisfies the kind invariant,
    both for [DiffFile.computeDiff] (run on the parts the differ returns,
    whose added and removed parts carry text) and for
    [DiffApprovePanel._computeDiff], which returns for any two texts. *)
Theorem blocks_satisfy_kind_invariant
        (changes : list Change) (content1 content2 : string) :
  changedPartsNonEmpty changes →
  Forall kind_ok (DiffFile.computeDiffOf changes)
  ∧ ∃ blocks, DiffApprovePanel._computeDiff content1 content2 = Some blocks
              ∧ Forall kind_ok blocks.
Proof.
  intros Hne. split.
  - by apply DiffFileFacts.computeDiffOf_kinds.
  - destruct (PanelDiffFacts._computeDiff_total content1 content2)
      as (blocks & Heq & Hkinds & _).
    by exists blocks.
Qed.

Lemma blocks_satisfy_kind_invariant_witness :
  changedPartsNonEmpty scenarioA
  ∧ Forall kind_ok (DiffFile.computeDiffOf scenarioA)
  ∧ ∃ blocks,
      DiffApprovePanel._computeDiff scenarioA_old scenarioA_new = Some blocks
      ∧ Forall kind_ok blocks.
Proof.
  assert (H : changedPartsNonEmpty scenarioA)
    by (repeat constructor; intros _; discriminate).
  split; [exact H|].
  exact (blocks_satisfy_kind_invariant scenarioA scenarioA_old scenarioA_new H).
Defined.

(** C4, as stated, fails for [DiffFile.findRelatedBlocks]: on the blocks of
    [diffLines("a\nb\n", "x\ny\nz\na\nw\n")] the deletion with id 2 is
    followed by the addition with id 3, so the run around id 2 has two
    blocks, but the simplified implementation answers with one block, whose
    only id is 2. *)
Lemma simplified_findRelatedBlocks_misses_run :
  ¬ (∀ changes blockId b,
       findBlock (DiffFile.computeDiffOf changes) blockId = Some b →
       type b ≠ context →
       ∃ group,
         is_related_run (DiffFile.computeDiffOf changes) blockId group
         ∧ id <$> DiffFile.findRelatedBlocks blockId = id <$> group).
Proof.
  intros H.
  destruct (H splitEdit 2%Z (mkBlock 2 deletion ["b"; ""] [] 2 5))
    as (group & Hrun & Hids); [by vm_compute|done|].
  destruct Hrun as (lo & hi & idx & b & -> & Hidx & Hhi & Hb & Hid
                    & _ & _ & Hend).
  assert (Hlen : length (DiffFile.computeDiffOf splitEdit) = 4%nat)
    by (by vm_compute).
  rewrite Hlen in Hhi, Hend.
  assert (idx = 2%nat) as ->.
  { destruct idx as [|[|[|[|idx]]]]; vm_compute in Hb; try done;
      injection Hb as <-; by vm_compute in Hid. }
  assert (hi = 4%nat) as ->.
  { destruct Hend as [->|(c & Hc & Hctx)]; [done|]. exfalso.
    assert (hi = 3%nat ∨ hi = 4%nat) as [-> | ->] by lia;
      vm_compute in Hc; [|done].
    injection Hc as <-. by vm_compute in Hctx. }
  apply (f_equal length) in Hids.
  rewrite !length_fmap, length_take, length_drop, Hlen in Hids.
  simpl in Hids. lia.
Qed.

(** C4, amended: the grouping [findRelatedBlocks] of the single-panel
    provider returns, for the id of a non-context block of a diff
    computation, the contiguous run of non-context blocks around it, and
    the same run for the id of each of its members;
    [DiffFile.findRelatedBlocks] returns a single block with the id it was
    given. *)
Theorem findRelatedBlocks_contiguous_run
        (changes : list Change) (blockId : Z) (b : DiffBlock) :
  findBlock (DiffFile.computeDiffOf changes) blockId = Some b →
  type b ≠ context →
  let all := DiffFile.computeDiffOf changes in
  let group := SinglePanelProvider.findRelatedBlocks (Some all) blockId in
  is_related_run all blockId group
  ∧ (∀ m, m ∈ group →
          SinglePanelProvider.findRelatedBlocks (Some all) (id m) = group)
  ∧ id <$> DiffFile.findRelatedBlocks blockId = [blockId].
Proof.
  intros Hfind Hty all group.
  pose proof (DiffFileFacts.computeDiffOf_ids changes) as Hids.
  unfold findBlock in Hfind.
  destruct (list_find _ _) as [[idx b']|] eqn:Hlf; [|done].
  injection Hfind as ->.
  apply list_find_Some in Hlf as (Hb & Hid & _).
  subst blockId. fold all in Hb, Hids.
  destruct (GroupingFacts.findRelatedBlocks_at all idx b Hids Hb Hty)
    as (lo & hi & Hidx & Hmax & Heq).
  split_and!; [|intros m Hm|done].
  - exists lo, hi, idx, b. destruct Hmax as (Hhi & Hrun & Hlo & Hend).
    split_and!; try done; try lia.
    subst group. rewrite Heq. apply Forall_lookup. intros k g Hk.
    apply lookup_take_Some in Hk as [Hk Hlt]. rewrite lookup_drop in Hk.
    apply (Hrun (lo + k)%nat); [lia|done].
  - by apply (GroupingFacts.findRelatedBlocks_member all idx b m).
Qed.

Lemma findRelatedBlocks_contiguous_run_witness :
  findBlock (DiffFile.computeDiffOf splitEdit) 2
  = Some (mkBlock 2 deletion ["b"; ""] [] 2 5)
  ∧ is_related_run (DiffFile.computeDiffOf splitEdit) 2
      (SinglePanelProvider.findRelatedBlocks
         (Some (DiffFile.computeDiffOf splitEdit)) 2).
Proof.
  assert (H : findBlock (DiffFile.computeDiffOf splitEdit) 2
              = Some (mkBlock 2 deletion ["b"; ""] [] 2 5))
    by (vm_compute; reflexivity).
  split; [exact H|].
  apply (findRelatedBlocks_contiguous_run splitEdit 2 _ H). discriminate.
Defined.

(** C6: in one approval session the completion callback is called at most
    once.  From a fresh session, after any events: a further event calls it
    only if it was not called before, and then nothing is pending
    afterwards; the event that empties a non-empty pending set calls it;
    once called it is never called again (a second bulk action included);
    and closing the panel while blocks are pending calls nothing, does not
    touch the approved set and leaves the flag down. *)
Theorem completion_signal_at_most_once
        (s0 : DiffFile.Session) (before : list DiffFile.Event)
        (e : DiffFile.Event) :
  fresh s0 →
  let s := DiffFile.run s0 before in
  let s' := DiffFile.handle s e in
  (signals s ≤ signals s' ≤ 1)%nat
  ∧ (signals s' ≠ signals s →
     signals s = 0%nat ∧ DiffFile.pendingBlocks s' = [])
  ∧ (DiffFile.pendingBlocks s ≠ [] → DiffFile.pendingBlocks s' = [] →
     signals s = 0%nat ∧ signals s' = 1%nat)
  ∧ (signals s = 1%nat → signals s' = 1%nat)
  ∧ (e = DiffFile.PanelDisposed → DiffFile.pendingBlocks s ≠ [] →
     DiffFile.calls s' = DiffFile.calls s
     ∧ DiffFile.approvedFiles s' = DiffFile.approvedFiles s
     ∧ DiffFile.hasCalledAllBlocksProcessed s'
       = DiffFile.hasCalledAllBlocksProcessed s
     ∧ DiffFile.pendingBlocks s' = DiffFile.pendingBlocks s).
Proof.
  intros Hfresh s s'.
  destruct (SessionFacts.run_inv s0 before (SessionFacts.fresh_inv _ Hfresh))
    as (Hinv & _ & _).
  destruct (SessionFacts.handle_inv s e Hinv)
    as (_ & _ & Hle & Hfire & Hempty & _).
  fold s' in Hle, Hfire, Hempty.
  split_and!; [lia|lia| | | |].
  - intros Hne. split; [lia|by apply Hfire].
  - done.
  - lia.
  - intros -> Hpending. subst s'. unfold DiffFile.handle.
    destruct (DiffFile.disposed s); [done|].
    unfold DiffFile.onDidDispose.
    destruct (DiffFile.pendingBlocks s) as [|x rest] eqn:E; done.
Qed.

Lemma completion_signal_at_most_once_witness :
  fresh (DiffFile.open "a.ts" (DiffFile.computeDiffOf scenarioA) ∅)
  ∧ signals (DiffFile.open "a.ts" (DiffFile.computeDiffOf scenarioA) ∅)
    = 0%nat
  ∧ signals
      (DiffFile.handle
         (DiffFile.open "a.ts" (DiffFile.computeDiffOf scenarioA) ∅)
         (DiffFile.Message DiffFile.approve (Some 1%Z) (λ _, true)))
    = 1%nat.
Proof.
  assert (H : fresh (DiffFile.open "a.ts" (DiffFile.computeDiffOf scenarioA) ∅))
    by (split; reflexivity).
  split; [exact H|].
  destruct (completion_signal_at_most_once _ []
              (DiffFile.Message DiffFile.approve (Some 1%Z) (λ _, true)) H)
    as (_ & _ & Hempties & _).
  apply Hempties; [discriminate|reflexivity].
Defined.

(** C10: when a user action empties the pending set of a session, the file
    path is in [approvedFiles] from then on, so [isFileApproved] answers
    true; this includes the bulk denial, where every pending block was passed
    to [onBlockApprove] as denied just before the completion callback. *)
Theorem completed_session_marks_file_approved
        (s0 : DiffFile.Session) (before later : list DiffFile.Event)
        (e : DiffFile.Event) :
  fresh s0 →
  let s := DiffFile.run s0 before in
  let s' := DiffFile.handle s e in
  DiffFile.pendingBlocks s ≠ [] → DiffFile.pendingBlocks s' = [] →
  DiffFile.isFileApproved (DiffFile.approvedFiles s') (DiffFile.filePath s0)
  = true
  ∧ DiffFile.isFileApproved (DiffFile.approvedFiles (DiffFile.run s' later))
                            (DiffFile.filePath s0) = true
  ∧ (∀ resolves, e = DiffFile.Message DiffFile.denyAll None resolves →
       DiffFile.calls s'
       = DiffFile.calls s ++ denials (DiffFile.pendingBlocks s)
                          ++ [DiffFile.AllBlocksProcessed]).
Proof.
  intros Hfresh s s' Hpending Hnil.
  destruct (SessionFacts.run_inv s0 before (SessionFacts.fresh_inv _ Hfresh))
    as (Hinv & Hpath & _).
  destruct (SessionFacts.handle_inv s e Hinv)
    as (Hinv' & Hpath' & _ & _ & Hempty & _).
  fold s s' in Hinv, Hpath, Hinv', Hpath', Hempty.
  destruct (Hempty Hpending Hnil) as [Hzero Hone].
  assert (Hflag : DiffFile.hasCalledAllBlocksProcessed s' = true).
  { unfold session_inv in Hinv'.
    destruct (DiffFile.hasCalledAllBlocksProcessed s'); [done|lia]. }
  assert (Hin : DiffFile.filePath s0 ∈ DiffFile.approvedFiles s').
  { unfold session_inv in Hinv'. rewrite Hflag in Hinv'.
    destruct Hinv' as (_ & _ & Hin). by rewrite Hpath', Hpath in Hin. }
  split_and!.
  - by apply bool_decide_eq_true.
  - apply bool_decide_eq_true.
    destruct (SessionFacts.run_inv s' later Hinv') as (_ & _ & Hsub).
    by apply Hsub.
  - intros resolves ->. subst s'. unfold DiffFile.handle in *.
    destruct (DiffFile.disposed s); [done|].
    unfold DiffFile.onMessage in *.
    rewrite bool_decide_eq_false_2 in * by done.
    destruct (DiffFile.notifyAll resolves false (DiffFile.pendingBlocks s) s)
      as [s1 ok] eqn:Hnotify.
    destruct ok.
    + apply SessionFacts.notifyAll_calls in Hnotify as Hcalls.
      pose proof (SessionFacts.notifyAll_frame resolves false
                    (DiffFile.pendingBlocks s) s) as Hfr.
      rewrite Hnotify in Hfr. simpl in Hfr.
      destruct Hfr as (_ & Hf & _).
      unfold DiffFile.signalCompletion, DiffFile.clearPending. simpl.
      assert (Hdown : DiffFile.hasCalledAllBlocksProcessed s = false).
      { unfold session_inv in Hinv.
        destruct (DiffFile.hasCalledAllBlocksProcessed s); [|done].
        by destruct Hinv as (_ & ? & _). }
      rewrite Hf, Hdown. simpl. rewrite Hcalls.
      by rewrite <- app_assoc.
    + pose proof (SessionFacts.notifyAll_frame resolves false
                    (DiffFile.pendingBlocks s) s) as Hfr.
      rewrite Hnotify in Hfr. simpl in Hfr.
      destruct Hfr as (_ & _ & _ & _ & _ & Hp). by rewrite Hp in Hnil.
Qed.

Lemma completed_session_marks_file_approved_witness :
  fresh (DiffFile.open "a.ts" (DiffFile.computeDiffOf scenarioA) ∅)
  ∧ DiffFile.isFileApproved
      (DiffFile.approvedFiles
         (DiffFile.handle
            (DiffFile.run
               (DiffFile.open "a.ts" (DiffFile.computeDiffOf scenarioA) ∅) [])
            (DiffFile.Message DiffFile.denyAll None (λ _, true))))
      "a.ts" = true.
Proof.
  assert (H : fresh (DiffFile.open "a.ts" (DiffFile.computeDiffOf scenarioA) ∅))
    by (split; reflexivity).
  split; [exact H|].
  apply (completed_session_marks_file_approved _ [] [DiffFile.PanelDisposed]
           (DiffFile.Message DiffFile.denyAll None (λ _, true)) H);
    [discriminate|reflexivity].
Defined.

(** C9: approving a pending block id changes neither of the two files nor
    the stored block list, whatever the state of the panel.  The block the
    id resolves to is the stored block with that id: when there is one, the
    id is removed from the pending set and nothing else is; when there is
    none (no content is stored, or the diff was reloaded and renumbered
    after the id became pending), nothing is resolved and the panel is left
    exactly as it was. *)
Theorem approve_changes_only_pending
        (p : DiffApprovePanel.Panel) (blockId : Z) (updateUI : bool) :
  blockId ∈ DiffApprovePanel._pendingBlocks p →
  let p' := DiffApprovePanel._handleApproval
              blockId DiffApprovePanel.approve updateUI p in
  (DiffApprovePanel.file1 p' = DiffApprovePanel.file1 p
   ∧ DiffApprovePanel.file2 p' = DiffApprovePanel.file2 p
   ∧ DiffApprovePanel._diffContent p' = DiffApprovePanel._diffContent p)
  ∧ (∀ blocks block,
       DiffApprovePanel._diffContent p = Some blocks →
       findBlock blocks blockId = Some block →
       DiffApprovePanel._pendingBlocks p'
       = DiffApprovePanel._pendingBlocks p ∖ {[ blockId ]}
       ∧ (blockId ∉ DiffApprovePanel._pendingBlocks p')
       ∧ (∀ other, other ≠ blockId →
            (other ∈ DiffApprovePanel._pendingBlocks p')
            ↔ (other ∈ DiffApprovePanel._pendingBlocks p)))
  ∧ ((∀ blocks, DiffApprovePanel._diffContent p = Some blocks →
                findBlock blocks blockId = None) →
     p' = p).
Proof.
  intros _ p'. split; [|split].
  - subst p'. unfold DiffApprovePanel._handleApproval.
    destruct (DiffApprovePanel._diffContent p) as [blocks|] eqn:Hdc;
      [|by split_and!].
    destruct (findBlock blocks blockId) as [block|]; [|by split_and!].
    unfold DiffApprovePanel._checkIfAllBlocksProcessed.
    by case_bool_decide.
  - intros blocks block Hdc Hfind.
    destruct (PanelFacts.approve_effect
                p blocks blockId block updateUI Hdc Hfind)
      as (Hp & _).
    fold p' in Hp. rewrite Hp. split_and!; [done| |].
    + apply not_elem_of_difference. right. by apply elem_of_singleton.
    + intros other Hother.
      rewrite elem_of_difference, elem_of_singleton. tauto.
  - intros Hnone. subst p'. unfold DiffApprovePanel._handleApproval.
    destruct (DiffApprovePanel._diffContent p) as [blocks|]; [|done].
    by rewrite (Hnone blocks eq_refl).
Qed.

Lemma approve_changes_only_pending_witness :
  (2 ∈ DiffApprovePanel._pendingBlocks reloadedPanel
   ∧ DiffApprovePanel._pendingBlocks
       (DiffApprovePanel._handleApproval 2 DiffApprovePanel.approve true
                                         reloadedPanel)
     = DiffApprovePanel._pendingBlocks reloadedPanel ∖ {[ 2 ]})
  ∧ (3 ∈ DiffApprovePanel._pendingBlocks reloadedPanel
     ∧ DiffApprovePanel._handleApproval 3 DiffApprovePanel.approve true
                                        reloadedPanel
       = reloadedPanel).
Proof.
  assert (Hdc : DiffApprovePanel._diffContent reloadedPanel
                = Some reloadedBlocks) by (vm_compute; reflexivity).
  assert (H2 : 2 ∈ DiffApprovePanel._pendingBlocks reloadedPanel)
    by (apply (bool_decide_unpack _); vm_compute; exact I).
  assert (H3 : 3 ∈ DiffApprovePanel._pendingBlocks reloadedPanel)
    by (apply (bool_decide_unpack _); vm_compute; exact I).
  split; (split; [done|]).
  - destruct (approve_changes_only_pending reloadedPanel 2 true H2)
      as (_ & Hfound & _).
    by destruct (Hfound reloadedBlocks (mkBlock 2 change ["d"] ["z"] 4 4)
                        Hdc eq_refl) as [Hpending _].
  - destruct (approve_changes_only_pending reloadedPanel 3 true H3)
      as (_ & _ & Hnone).
    apply Hnone. intros blocks Hblocks. rewrite Hdc in Hblocks.
    by injection Hblocks as <-.
Defined.

(** C3: denying a non-context block splices the live content of the second
    file at the block's recorded new-side position and writes the result
    back: an addition has its count of new lines removed there, a deletion
    has its old lines inserted there, a change has its count of new lines
    replaced by its old lines.  Where the live lines hold the block's new
    lines at that position, as they do for the blocks of the texts on
    disk, what is written is the text with the old lines in their place. *)
Theorem deny_splices_at_new_position
        (p : DiffApprovePanel.Panel) (blocks : list DiffBlock)
        (blockId : Z) (block : DiffBlock) (content : string)
        (updateUI : bool) :
  DiffApprovePanel._diffContent p = Some blocks →
  findBlock blocks blockId = Some block →
  type block ≠ context →
  DiffApprovePanel.file2 p = Some content →
  let lines := JS.split content in
  let start := newStart block - 1 in
  let spliced :=
    match type block with
    | addition =>
        JS.splice lines start (Z.of_nat (length (newLines block))) []
    | deletion => JS.splice lines start 0 (oldLines block)
    | _ => JS.splice lines start (Z.of_nat (length (newLines block)))
                     (oldLines block)
    end in
  let p' := DiffApprovePanel._handleApproval
              blockId DiffApprovePanel.deny updateUI p in
  DiffApprovePanel.file2 p' = Some (JS.join spliced)
  ∧ (DiffApprovePanel._pendingBlocks p'
     = DiffApprovePanel._pendingBlocks p ∖ {[ blockId ]})
  ∧ (∀ before after,
       lines = before ++ newLines block ++ after →
       Z.of_nat (length before) = start →
       spliced = match type block with
                 | addition => before ++ after
                 | deletion => before ++ oldLines block
                                      ++ newLines block ++ after
                 | _ => before ++ oldLines block ++ after
                 end)
  ∧ (∀ content1,
       DiffApprovePanel._computeDiff content1 content = Some blocks →
       ∃ before after,
         lines = before ++ newLines block ++ after
         ∧ Z.of_nat (length before) = start
         ∧ spliced = before ++ oldLines block ++ after).
Proof.
  intros Hdc Hfind Hty Hfile lines start spliced p'.
  destruct (PanelFacts.deny_effect p blocks blockId block content updateUI
              Hdc Hfind Hfile) as (Hwritten & _ & Hpending).
  fold p' in Hwritten, Hpending.
  assert (Hrevert : DiffApprovePanel.revert block lines = spliced).
  { unfold DiffApprovePanel.revert, spliced. by destruct (type block). }
  assert (Hplace : ∀ before after,
    lines = before ++ newLines block ++ after →
    Z.of_nat (length before) = start →
    spliced = match type block with
              | addition => before ++ after
              | deletion => before ++ oldLines block
                                   ++ newLines block ++ after
              | _ => before ++ oldLines block ++ after
              end).
  { intros before after Hlines Hstart. unfold spliced. rewrite Hlines.
    destruct (type block); try done.
    - by rewrite (PanelFacts.splice_at before (newLines block) after []).
    - by rewrite (PanelFacts.splice_at before [] (newLines block ++ after)
                    (oldLines block)).
    - by rewrite (PanelFacts.splice_at before (newLines block) after
                    (oldLines block)). }
  split_and!; [by rewrite Hwritten, <- Hrevert|done|done|].
  intros content1 Hdiff.
  destruct (PanelDiffFacts._computeDiff_total content1 content)
    as (bs & Hbs & Hkinds & Hplaced).
  rewrite Hdiff in Hbs. injection Hbs as <-.
  assert (Hin : block ∈ blocks).
  { unfold findBlock in Hfind.
    destruct (list_find _ blocks) as [[k x]|] eqn:Hlf; [|done].
    injection Hfind as ->. apply list_find_Some in Hlf as (Hk & _).
    by apply list_elem_of_lookup_2 in Hk. }
  rewrite Forall_forall in Hkinds, Hplaced.
  specialize (Hkinds block Hin). specialize (Hplaced block Hin).
  destruct (PanelDiffFacts.placed_split _ _ _ Hplaced)
    as (before & after & Hlines & Hstart).
  exists before, after. split_and!; [done..|].
  rewrite (Hplace before after Hlines Hstart).
  unfold kind_ok in Hkinds. destruct (type block); try done.
  - by rewrite Hkinds.
  - by rewrite Hkinds.
Qed.

Lemma deny_splices_at_new_position_witness :
  DiffApprovePanel._diffContent editedPanel = Some editedBlocks
  ∧ findBlock editedBlocks 0 = Some (mkBlock 0 change ["a"] ["x"] 1 1)
  ∧ DiffApprovePanel.file2 editedPanel = Some ("x" ++ nl ++ "b" ++ nl ++ "y")%string
  ∧ DiffApprovePanel.file2
      (DiffApprovePanel._handleApproval 0 DiffApprovePanel.deny true
                                        editedPanel)
    = Some ("a" ++ nl ++ "b" ++ nl ++ "y")%string.
Proof.
  assert (H1 : DiffApprovePanel._diffContent editedPanel = Some editedBlocks)
    by (vm_compute; reflexivity).
  assert (H2 : findBlock editedBlocks 0 = Some (mkBlock 0 change ["a"] ["x"] 1 1))
    by (vm_compute; reflexivity).
  assert (H3 : DiffApprovePanel.file2 editedPanel
               = Some ("x" ++ nl ++ "b" ++ nl ++ "y")%string)
    by (vm_compute; reflexivity).
  split_and!; [exact H1|exact H2|exact H3|].
  destruct (deny_splices_at_new_position editedPanel editedBlocks 0 _ _ true
              H1 H2 ltac:(discriminate) H3) as [Hwritten _].
  exact Hwritten.
Defined.

(** C8, as stated, fails: over ["a\nb\nc"] and ["x\nb\ny"] block 0 is
    approved and leaves the pending set, block 2 is still pending, and a
    denial of block 0 that follows rewrites the file. *)
Lemma deny_after_approve_rewrites_file :
  let p1 := DiffApprovePanel._handleApproval
              0 DiffApprovePanel.approve true editedPanel in
  let p2 := DiffApprovePanel._handleApproval
              0 DiffApprovePanel.deny true p1 in
  (0 ∈ DiffApprovePanel._pendingBlocks editedPanel)
  ∧ (0 ∉ DiffApprovePanel._pendingBlocks p1)
  ∧ (2 ∈ DiffApprovePanel._pendingBlocks p1)
  ∧ DiffApprovePanel.file2 p1 = Some ("x" ++ nl ++ "b" ++ nl ++ "y")%string
  ∧ DiffApprovePanel.file2 p2 = Some ("a" ++ nl ++ "b" ++ nl ++ "y")%string
  ∧ DiffApprovePanel.file2 p2 ≠ DiffApprovePanel.file2 p1.
Proof.
  cbv zeta. split_and!;
    try (apply (bool_decide_unpack _); vm_compute; exact I);
    by vm_compute.
Qed.

(** C8, amended: once [approve(blockId)] has removed the id from the
    pending set, a following [deny(blockId)] leaves the pending set as it
    is, but it is not rejected: the panel applies the block's splice to the
    file again and writes it, and the session of [DiffFile] calls
    [onBlockApprove(blockId, false)] once more. *)
Theorem deny_after_approve_is_processed
        (p : DiffApprovePanel.Panel) (blocks : list DiffBlock)
        (blockId : Z) (block : DiffBlock) (content : string)
        (s : DiffFile.Session) (resolves resolves' : Z → bool) :
  DiffApprovePanel._diffContent p = Some blocks →
  findBlock blocks blockId = Some block →
  DiffApprovePanel.file2 p = Some content →
  DiffFile.disposed s = false →
  resolves blockId = true →
  let p1 := DiffApprovePanel._handleApproval
              blockId DiffApprovePanel.approve true p in
  let p2 := DiffApprovePanel._handleApproval
              blockId DiffApprovePanel.deny true p1 in
  let s1 := DiffFile.handle s (DiffFile.Message DiffFile.approve
                                                (Some blockId) resolves) in
  let s2 := DiffFile.handle s1 (DiffFile.Message DiffFile.deny
                                                 (Some blockId) resolves') in
  (blockId ∉ DiffApprovePanel._pendingBlocks p1)
  ∧ DiffApprovePanel._pendingBlocks p2 = DiffApprovePanel._pendingBlocks p1
  ∧ DiffApprovePanel.file2 p2
    = Some (JS.join (DiffApprovePanel.revert block (JS.split content)))
  ∧ (blockId ∉ DiffFile.pendingBlocks s1)
  ∧ DiffFile.pendingBlocks s2 = DiffFile.pendingBlocks s1
  ∧ DiffFile.calls s2
    = DiffFile.calls s1 ++ [DiffFile.BlockApprove blockId false].
Proof.
  intros Hdc Hfind Hfile Hopen Hres p1 p2 s1 s2.
  destruct (PanelFacts.approve_effect p blocks blockId block true Hdc Hfind)
    as (Hp1 & _ & Hf1 & Hd1).
  fold p1 in Hp1, Hf1, Hd1. rewrite Hfile in Hf1.
  destruct (PanelFacts.deny_effect p1 blocks blockId block content true
              Hd1 Hfind Hf1) as (Hf2 & _ & Hp2).
  fold p2 in Hf2, Hp2.
  assert (Hout : blockId ∉ DiffApprovePanel._pendingBlocks p1).
  { rewrite Hp1. apply not_elem_of_difference. right.
    by apply elem_of_singleton. }
  destruct (SessionFacts.single_message_effect s DiffFile.approve blockId
              resolves Hopen (or_introl eq_refl))
    as (Hopen1 & _ & Hs1).
  destruct (Hs1 Hres) as (Hpend1 & Hflag1 & _). fold s1 in Hopen1, Hpend1, Hflag1.
  assert (Hgone : blockId ∉ DiffFile.pendingBlocks s1).
  { rewrite Hpend1. intros Hin. by apply list_elem_of_filter in Hin as [? _]. }
  assert (Hsame : filter (λ x, x ≠ blockId) (DiffFile.pendingBlocks s1)
                  = DiffFile.pendingBlocks s1).
  { clear -Hgone. induction (DiffFile.pendingBlocks s1) as [|x l IH]; [done|].
    apply not_elem_of_cons in Hgone as [Hne Hl].
    rewrite filter_cons_True by done. by rewrite IH. }
  destruct (SessionFacts.single_message_effect s1 DiffFile.deny blockId
              resolves' Hopen1 (or_intror eq_refl))
    as (_ & Hfail & Hok).
  fold s2 in Hfail, Hok.
  split_and!; [done| |done|done| |].
  - rewrite Hp2. apply set_eq. intros x.
    rewrite elem_of_difference, elem_of_singleton.
    split; [by intros [? _]|]. intros Hx. split; [done|]. by intros ->.
  - destruct (resolves' blockId).
    + destruct (Hok eq_refl) as (-> & _). done.
    + by rewrite (Hfail eq_refl).
  - destruct (resolves' blockId).
    + destruct (Hok eq_refl) as (Hpend2 & _ & Hcalls).
      rewrite Hsame in Hpend2.
      destruct (DiffFile.pendingBlocks s1) as [|x l] eqn:E.
      * by destruct Hcalls as [-> _]; [left; apply Hflag1|].
      * by destruct Hcalls as [-> _]; [right; rewrite Hpend2|].
    + by rewrite (Hfail eq_refl).
Qed.

Lemma deny_after_approve_is_processed_witness :
  DiffApprovePanel._diffContent editedPanel = Some editedBlocks
  ∧ findBlock editedBlocks 0 = Some (mkBlock 0 change ["a"] ["x"] 1 1)
  ∧ DiffApprovePanel.file2 editedPanel
    = Some ("x" ++ nl ++ "b" ++ nl ++ "y")%string
  ∧ DiffFile.disposed splitSession = false
  ∧ DiffFile.calls
      (DiffFile.handle
         (DiffFile.handle splitSession
            (DiffFile.Message DiffFile.approve (Some 0) (λ _, true)))
         (DiffFile.Message DiffFile.deny (Some 0) (λ _, true)))
    = [DiffFile.BlockApprove 0 true; DiffFile.BlockApprove 0 false].
Proof.
  assert (H1 : DiffApprovePanel._diffContent editedPanel = Some editedBlocks)
    by (vm_compute; reflexivity).
  assert (H2 : findBlock editedBlocks 0 = Some (mkBlock 0 change ["a"] ["x"] 1 1))
    by (vm_compute; reflexivity).
  assert (H3 : DiffApprovePanel.file2 editedPanel
               = Some ("x" ++ nl ++ "b" ++ nl ++ "y")%string)
    by (vm_compute; reflexivity).
  assert (H4 : DiffFile.disposed splitSession = false) by reflexivity.
  split_and!; [exact H1|exact H2|exact H3|exact H4|].
  destruct (deny_after_approve_is_processed editedPanel editedBlocks 0 _ _
              splitSession (λ _, true) (λ _, true) H1 H2 H3 H4 eq_refl)
    as (_ & _ & _ & _ & _ & Hcalls).
  exact Hcalls.
Defined.

(** C2 (after [denyAll] nothing is pending and the file equals the text
    before the changes), evaluated on the old text ["p\na\nc"] and the new
    text ["a\nd"]: the pending set is empty, but the file holds
    ["p\nc\nd"], and its diff against the old text has the non-context
    blocks 1 and 3. *)
Theorem denyAll_leaves_changes :
  let p := DiffApprovePanel._handleDenyAll shiftedPanel in
  DiffApprovePanel._diffContent shiftedPanel
  = Some [ mkBlock 0 deletion ["p"] [] 1 1;
           mkBlock 1 context ["a"] ["a"] 2 1;
           mkBlock 2 change ["c"] ["d"] 3 2 ]
  ∧ DiffApprovePanel._pendingBlocks p = ∅
  ∧ DiffApprovePanel.file1 p = Some shifted_old
  ∧ DiffApprovePanel.file2 p = Some ("p" ++ nl ++ "c" ++ nl ++ "d")%string
  ∧ DiffApprovePanel.file2 p ≠ Some shifted_old
  ∧ nonContextIds
      <$> DiffApprovePanel._computeDiff shifted_old
                                        ("p" ++ nl ++ "c" ++ nl ++ "d")
    = Some [1; 3].
Proof. cbv zeta. split_and!; by vm_compute. Qed.

(** * Further properties *)

(** ** [DiffApprovePanel._computeDiff]: what the blocks cover *)

Module PanelSidesFacts.
Import DiffApprovePanel PanelDiffInv PanelSidesInv PanelDiffFacts.
Local Open Scope nat_scope.

(** The loop ends within its bound in a state where both cursors are at
    the end, and whatever each round keeps holds of that state. *)
Lemma while_invariant (P : LoopState → Prop) lines1 lines2 :
  (∀ st, in_bounds lines1 lines2 st → running lines1 lines2 st = true →
         P st → P (iteration lines1 lines2 st)) →
  ∀ fuel st,
    remaining lines1 lines2 st ≤ fuel → in_bounds lines1 lines2 st → P st →
    ∃ st', while fuel lines1 lines2 st = Some (blocks st') ∧ P st'
           ∧ i st' = length lines1 ∧ j st' = length lines2.
Proof.
  intros Hstep. induction fuel as [|fuel IH]; intros st Hfuel Hb HP.
  - simpl. destruct Hb as [Hi Hj]. unfold remaining in Hfuel.
    rewrite (proj2 (Nat.ltb_ge _ _)), (proj2 (Nat.ltb_ge _ _)) by lia.
    exists st. split_and!; [done|done|lia|lia].
  - simpl. destruct (_ || _) eqn:Hrun.
    + destruct (iteration_progress lines1 lines2 st Hb Hrun) as [Hb' Hlt].
      apply IH; [lia|done|by apply Hstep].
    + exists st. apply orb_false_iff in Hrun as [H1 H2].
      apply Nat.ltb_ge in H1, H2. destruct Hb. split_and!; [done|done|lia|lia].
Qed.

Lemma _computeDiffLines_invariant (P : LoopState → Prop) lines1 lines2 :
  (∀ st, in_bounds lines1 lines2 st → running lines1 lines2 st = true →
         P st → P (iteration lines1 lines2 st)) →
  P (mkLoop [] 0 0 0) →
  ∃ st', _computeDiffLines lines1 lines2 = Some (blocks st') ∧ P st'
         ∧ i st' = length lines1 ∧ j st' = length lines2.
Proof.
  intros Hstep Hinit. unfold _computeDiffLines.
  apply (while_invariant P); [done| | |done].
  - unfold remaining. simpl. lia.
  - unfold in_bounds. simpl. lia.
Qed.

Lemma oldSide_snoc bs b : oldSide (bs ++ [b]) = oldSide bs ++ oldLines b.
Proof. unfold oldSide. by rewrite fmap_app, concat_app; simpl; rewrite app_nil_r. Qed.

Lemma newSide_snoc bs b : newSide (bs ++ [b]) = newSide bs ++ newLines b.
Proof. unfold newSide. by rewrite fmap_app, concat_app; simpl; rewrite app_nil_r. Qed.

Lemma take_slice (lines : list string) from to :
  from ≤ to → take from lines ++ JS.slice lines from to = take to lines.
Proof.
  intros Hle. unfold JS.slice. rewrite take_take_drop. f_equal. lia.
Qed.

Lemma take_lineAt (lines : list string) k :
  k < length lines → take k lines ++ [lineAt lines k] = take (S k) lines.
Proof.
  intros Hk. rewrite slice_one by done. apply take_slice. lia.
Qed.

Lemma iteration_sides lines1 lines2 st :
  in_bounds lines1 lines2 st → running lines1 lines2 st = true →
  sides_inv lines1 lines2 st →
  sides_inv lines1 lines2 (iteration lines1 lines2 st).
Proof.
  intros [Hi Hj] Hrun [Hold Hnew]. unfold sides_inv, iteration.
  unfold running in Hrun. apply orb_true_iff in Hrun.
  rewrite !Nat.ltb_lt in Hrun.
  destruct (linesMatch lines1 lines2 (i st) (j st)) eqn:Hmatch.
  - unfold linesMatch in Hmatch.
    apply andb_true_iff in Hmatch as [Hmatch _].
    apply andb_true_iff in Hmatch as [H1 H2]. apply Nat.ltb_lt in H1, H2.
    destruct (needsContextBlock (blocks st)) eqn:Hneed; simpl.
    + rewrite pushToLast_snoc, oldSide_snoc, newSide_snoc. simpl.
      rewrite Hold, Hnew. split; by apply take_lineAt.
    + unfold needsContextBlock in Hneed.
      destruct (last (blocks st)) as [b|] eqn:Hb; [|done].
      apply last_Some in Hb as [bs Hbs]. rewrite Hbs in Hold, Hnew |- *.
      rewrite pushToLast_snoc, oldSide_snoc, newSide_snoc. simpl.
      rewrite oldSide_snoc in Hold. rewrite newSide_snoc in Hnew.
      rewrite !app_assoc, Hold, Hnew. split; by apply take_lineAt.
  - destruct (findNextMatch lines1 lines2 (i st) (j st)) as [[m n]|] eqn:Hfind.
    + apply findNextMatch_Some in Hfind as (Hm & Hn & _).
      destruct (i st <? m) eqn:H1; destruct (j st <? n) eqn:H2; simpl;
        rewrite ?Nat.ltb_lt, ?Nat.ltb_ge in *;
        rewrite oldSide_snoc, newSide_snoc, Hold, Hnew; simpl;
        rewrite ?app_nil_r.
      * split; apply take_slice; lia.
      * assert (n = j st) as -> by lia. split; [apply take_slice; lia|done].
      * assert (m = i st) as -> by lia. split; [done|apply take_slice; lia].
      * assert (m = i st) as -> by lia. split; [done|apply take_slice; lia].
    + destruct (i st <? length lines1) eqn:H1;
        destruct (j st <? length lines2) eqn:H2; simpl;
        rewrite ?Nat.ltb_lt, ?Nat.ltb_ge in *; try lia;
        rewrite oldSide_snoc, newSide_snoc, Hold, Hnew; simpl;
        rewrite ?app_nil_r.
      * split; by apply take_lineAt.
      * split; [by apply take_lineAt|done].
      * split; [done|by apply take_lineAt].
Qed.

Lemma starts_ok_snoc bs b :
  starts_ok bs → id b = Z.of_nat (length bs) →
  oldStart b = line1 (length (oldSide bs)) →
  newStart b = line1 (length (newSide bs)) →
  starts_ok (bs ++ [b]).
Proof.
  intros Hbs Hid Ho Hn k g Hk.
  destruct (decide (k < length bs)) as [Hlt|Hge].
  - rewrite lookup_app_l in Hk by done.
    rewrite take_app_le by lia. by apply Hbs.
  - rewrite lookup_app_r in Hk by lia.
    destruct (k - length bs) as [|x] eqn:Hx; simpl in Hk; [|done].
    injection Hk as <-. assert (k = length bs) as -> by lia.
    by rewrite take_app_length.
Qed.

Lemma starts_ok_snoc_inv bs b :
  starts_ok (bs ++ [b]) →
  starts_ok bs ∧ id b = Z.of_nat (length bs)
  ∧ oldStart b = line1 (length (oldSide bs))
  ∧ newStart b = line1 (length (newSide bs)).
Proof.
  intros H. split.
  - intros k g Hk. apply lookup_lt_Some in Hk as Hlt.
    specialize (H k g (lookup_app_l_Some _ _ _ _ Hk)).
    by rewrite take_app_le in H by lia.
  - specialize (H (length bs) b). rewrite take_app_length in H.
    apply H. rewrite lookup_app_r by lia.
    by replace (length bs - length bs) with 0 by lia.
Qed.

Lemma iteration_starts lines1 lines2 st :
  in_bounds lines1 lines2 st → sides_inv lines1 lines2 st →
  starts_inv st → starts_inv (iteration lines1 lines2 st).
Proof.
  intros [Hi Hj] [Hold Hnew] [Hstarts Hid]. unfold starts_inv, iteration.
  assert (Hlo : length (oldSide (blocks st)) = i st)
    by (rewrite Hold, length_take; lia).
  assert (Hln : length (newSide (blocks st)) = j st)
    by (rewrite Hnew, length_take; lia).
  assert (Hpush : ∀ ty olds news,
    starts_ok (blocks st ++ [mkBlock (blockId st) ty olds news
                                     (line1 (i st)) (line1 (j st))])).
  { intros. apply starts_ok_snoc; simpl; by rewrite ?Hlo, ?Hln. }
  destruct (linesMatch lines1 lines2 (i st) (j st)).
  - destruct (needsContextBlock (blocks st)) eqn:Hneed; simpl.
    + rewrite pushToLast_snoc. simpl. rewrite length_app. simpl.
      split; [|lia]. apply starts_ok_snoc; simpl; by rewrite ?Hlo, ?Hln.
    + unfold needsContextBlock in Hneed.
      destruct (last (blocks st)) as [b|] eqn:Hb; [|done].
      apply last_Some in Hb as [bs Hbs]. rewrite Hbs in Hstarts, Hid |- *.
      rewrite pushToLast_snoc.
      apply starts_ok_snoc_inv in Hstarts as (Hs & Hb1 & Hb2 & Hb3).
      rewrite !length_app in *. simpl in *.
      split; [|done]. by apply starts_ok_snoc.
  - destruct (findNextMatch lines1 lines2 (i st) (j st)) as [[m n]|].
    + destruct (i st <? m); destruct (j st <? n); simpl;
        rewrite length_app; simpl; (split; [apply Hpush|lia]).
    + destruct (i st <? length lines1); destruct (j st <? length lines2);
        simpl; rewrite length_app; simpl; (split; [apply Hpush|lia]).
Qed.

Lemma no_adjacent_context_snoc bs b :
  no_adjacent_context bs →
  (∀ a, last bs = Some a → type a = context → type b ≠ context) →
  no_adjacent_context (bs ++ [b]).
Proof.
  intros Hbs Hlast k x y Hx Hy Hctx.
  destruct (decide (S k < length bs)) as [Hlt|Hge].
  - rewrite lookup_app_l in Hx, Hy by lia. by apply (Hbs k x y).
  - apply lookup_lt_Some in Hy as Hlen. rewrite length_app in Hlen.
    simpl in Hlen. assert (S k = length bs) as Hk by lia.
    rewrite lookup_app_l in Hx by lia.
    rewrite lookup_app_r in Hy by lia.
    replace (S k - length bs) with 0 in Hy by lia. injection Hy as <-.
    apply (Hlast x); [|done].
    rewrite last_lookup. by replace (pred (length bs)) with k by lia.
Qed.

Lemma no_adjacent_context_retype bs b b' :
  type b' = type b →
  no_adjacent_context (bs ++ [b]) → no_adjacent_context (bs ++ [b']).
Proof.
  intros Hty H k x y Hx Hy Hctx.
  assert (Hlook : ∀ n z, (bs ++ [b']) !! n = Some z →
            ∃ z', (bs ++ [b]) !! n = Some z' ∧ type z' = type z).
  { intros n z Hz. destruct (decide (n < length bs)).
    - rewrite lookup_app_l in Hz by done.
      exists z. by rewrite lookup_app_l.
    - rewrite lookup_app_r in Hz by lia.
      destruct (n - length bs) as [|?] eqn:E; simpl in Hz; [|done].
      injection Hz as <-. exists b. rewrite lookup_app_r by lia.
      by rewrite E. }
  destruct (Hlook _ _ Hx) as (x' & Hx' & Tx).
  destruct (Hlook _ _ Hy) as (y' & Hy' & Ty).
  rewrite <- Ty. apply (H k x' y'); [done..|]. by rewrite Tx.
Qed.

Lemma iteration_shape lines1 lines2 st :
  shape_inv st → shape_inv (iteration lines1 lines2 st).
Proof.
  intros [Hadj Hlines]. unfold shape_inv, iteration.
  assert (Hpush : ∀ b, type b ≠ context → has_lines b →
    no_adjacent_context (blocks st ++ [b])
    ∧ Forall has_lines (blocks st ++ [b])).
  { intros b Hty Hb. split.
    - by apply no_adjacent_context_snoc.
    - apply Forall_app. split; [done|]. by apply Forall_singleton. }
  destruct (linesMatch lines1 lines2 (i st) (j st)) eqn:Hmatch.
  - destruct (needsContextBlock (blocks st)) eqn:Hneed; simpl.
    + rewrite pushToLast_snoc. simpl. split.
      * apply no_adjacent_context_snoc; [done|]. simpl.
        intros a Ha Hctx. unfold needsContextBlock in Hneed.
        rewrite Ha in Hneed. apply negb_true_iff in Hneed.
        by apply bool_decide_eq_false in Hneed.
      * apply Forall_app. split; [done|]. apply Forall_singleton. by left.
    + unfold needsContextBlock in Hneed.
      destruct (last (blocks st)) as [b|] eqn:Hb; [|done].
      apply last_Some in Hb as [bs Hbs]. rewrite Hbs in Hadj, Hlines |- *.
      rewrite pushToLast_snoc. split.
      * by apply (no_adjacent_context_retype bs b).
      * apply Forall_app in Hlines as [Hl _]. apply Forall_app.
        split; [done|]. apply Forall_singleton. left. simpl.
        by destruct (oldLines b).
  - destruct (findNextMatch lines1 lines2 (i st) (j st)) as [[m n]|] eqn:Hfind.
    + pose proof (findNextMatch_ahead _ _ _ _ _ _ Hmatch Hfind) as Hahead.
      apply findNextMatch_Some in Hfind as (Hm & Hn & _).
      destruct (i st <? m) eqn:H1; destruct (j st <? n) eqn:H2; simpl;
        rewrite ?Nat.ltb_lt, ?Nat.ltb_ge in *; apply Hpush; try done.
      * left. simpl. apply slice_not_nil; lia.
      * left. simpl. apply slice_not_nil; lia.
      * right. simpl. apply slice_not_nil; lia.
      * lia.
    + destruct (i st <? length lines1); destruct (j st <? length lines2);
        simpl; apply Hpush; try done; by (left + right).
Qed.

Lemma iteration_same_text lines st :
  in_bounds lines lines st → running lines lines st = true →
  same_text_inv lines st → same_text_inv lines (iteration lines lines st).
Proof.
  intros [Hi _] Hrun (Hj & Hid & Hblocks). unfold same_text_inv, iteration.
  unfold running in Hrun. rewrite Hj, orb_diag in Hrun.
  apply Nat.ltb_lt in Hrun.
  assert (Hmatch : linesMatch lines lines (i st) (j st) = true).
  { unfold linesMatch. rewrite Hj, (proj2 (Nat.ltb_lt _ _)) by done.
    by rewrite bool_decide_eq_true_2. }
  rewrite Hmatch, Hj. rewrite Hblocks.
  destruct (i st) as [|k] eqn:Hk; simpl.
  - rewrite Hid by done. split_and!; [done|done|].
    by rewrite (take_S_r _ 0 (lineAt lines 0)) by
      (unfold lineAt; by destruct (lookup_lt_is_Some_2 lines 0 Hrun) as [x ->]).
  - split_and!; [done|done|].
    destruct (lookup_lt_is_Some_2 lines (S k) Hrun) as [x Hx].
    unfold lineAt. rewrite Hx. simpl.
    destruct lines as [|l0 lines']; [done|]. simpl in *.
    by rewrite (take_S_r _ k x).
Qed.

End PanelSidesFacts.

(** ** [split] and [join] undo each other *)

Module JSRoundTrip.

Lemma join_cons x l : l ≠ [] → JS.join (x :: l) = (x ++ String JS.LF (JS.join l))%string.
Proof. by destruct l. Qed.

Lemma join_split s : JS.join (JS.split s) = s.
Proof.
  induction s as [|c rest IH]; [done|]. simpl.
  pose proof (split_not_nil rest) as Hne.
  destruct (JS.is_LF c) eqn:Hc.
  - rewrite join_cons by done. rewrite IH. simpl.
    unfold JS.is_LF in Hc. apply Ascii.eqb_eq in Hc. by rewrite Hc.
  - destruct (JS.split rest) as [|h t]; [done|].
    destruct t as [|h' t'].
    + simpl in *. by rewrite IH.
    + rewrite join_cons by done. rewrite join_cons in IH by done.
      by rewrite <- IH.
Qed.

Lemma split_lf_free x : lf_free x = true → JS.split x = [x].
Proof.
  induction x as [|c rest IH]; [done|]. simpl.
  intros [Hc Hrest]%andb_true_iff. apply negb_true_iff in Hc.
  by rewrite Hc, IH.
Qed.

Lemma split_app_lf x rest :
  lf_free x = true →
  JS.split (x ++ String JS.LF rest) = x :: JS.split rest.
Proof.
  induction x as [|c x' IH].
  - by intros _.
  - intros [Hc Hx]%andb_true_iff. apply negb_true_iff in Hc.
    change (JS.split (String c x' ++ String JS.LF rest))
      with (if JS.is_LF c
            then EmptyString :: JS.split (x' ++ String JS.LF rest)
            else match JS.split (x' ++ String JS.LF rest) with
                 | h :: t => String c h :: t
                 | [] => [String c EmptyString]
                 end).
    by rewrite Hc, IH.
Qed.

Lemma split_join l :
  l ≠ [] → Forall (λ x, lf_free x = true) l → JS.split (JS.join l) = l.
Proof.
  induction l as [|x l IH]; [done|]. intros _ Hall.
  inversion_clear Hall as [|?? Hx Hl].
  destruct l as [|y l'].
  - simpl. by apply split_lf_free.
  - rewrite join_cons by done. rewrite split_app_lf by done.
    by rewrite IH.
Qed.

Lemma split_all_lf_free s : Forall (λ x, lf_free x = true) (JS.split s).
Proof.
  induction s as [|c rest IH]; simpl; [by repeat constructor|].
  destruct (JS.is_LF c) eqn:Hc.
  - by constructor.
  - pose proof (split_not_nil rest) as Hne.
    destruct (JS.split rest) as [|h t]; [done|].
    inversion_clear IH as [|?? Hh Ht]. constructor; [|done].
    simpl. by rewrite Hc, Hh.
Qed.

End JSRoundTrip.

(** ** [DiffApprovePanel._computeDiff]: the extra properties *)

(** X1: for any two texts the placeholder differ of the panel returns
    blocks whose old lines, in order, are exactly the lines of the first
    text and whose new lines are exactly the lines of the second; joined
    with newlines they give the two texts back. *)
Theorem _computeDiff_round_trip (content1 content2 : string) :
  ∃ blocks,
    DiffApprovePanel._computeDiff content1 content2 = Some blocks
    ∧ oldSide blocks = JS.split content1
    ∧ newSide blocks = JS.split content2
    ∧ JS.join (oldSide blocks) = content1
    ∧ JS.join (newSide blocks) = content2.
Proof.
  destruct (PanelSidesFacts._computeDiffLines_invariant
              (λ st, PanelSidesInv.sides_inv (JS.split content1)
                                             (JS.split content2) st)
              (JS.split content1) (JS.split content2))
    as (st & Hrun & [Hold Hnew] & Hi & Hj).
  - intros st Hb Hr. by apply PanelSidesFacts.iteration_sides.
  - by split.
  - exists (DiffApprovePanel.blocks st).
    rewrite Hi, take_ge in Hold by done. rewrite Hj, take_ge in Hnew by done.
    rewrite Hold, Hnew, !JSRoundTrip.join_split. by split_and!.
Qed.

(** X2: the blocks of the panel's differ are numbered 0, 1, 2, ... in
    order, and every block starts, on the old and on the new side, at the
    1-based line right after the lines of all blocks before it: the
    blocks tile both texts without gap or overlap. *)
Theorem _computeDiff_ids_and_starts (content1 content2 : string) :
  ∃ blocks,
    DiffApprovePanel._computeDiff content1 content2 = Some blocks
    ∧ ∀ (k : nat) (b : DiffBlock), blocks !! k = Some b →
        id b = Z.of_nat k
        ∧ oldStart b = Z.of_nat (length (oldSide (take k blocks))) + 1
        ∧ newStart b = Z.of_nat (length (newSide (take k blocks))) + 1.
Proof.
  destruct (PanelSidesFacts._computeDiffLines_invariant
              (λ st, PanelSidesInv.sides_inv (JS.split content1)
                                             (JS.split content2) st
                     ∧ PanelSidesInv.starts_inv st)
              (JS.split content1) (JS.split content2))
    as (st & Hrun & [_ [Hstarts _]] & _ & _).
  - intros st Hb Hr [Hs Hst]. split.
    + by apply PanelSidesFacts.iteration_sides.
    + by apply PanelSidesFacts.iteration_starts.
  - split; [by split|]. split; [by intros [|?] ?|done].
  - exists (DiffApprovePanel.blocks st). split; [done|]. apply Hstarts.
Qed.

(** X3: the panel's differ never returns two context blocks in a row
    (matching lines are gathered into one context block) and never returns
    a block without lines. *)
Theorem _computeDiff_blocks_are_merged_and_non_empty
        (content1 content2 : string) :
  ∃ blocks,
    DiffApprovePanel._computeDiff content1 content2 = Some blocks
    ∧ (∀ (k : nat) (a b : DiffBlock),
         blocks !! k = Some a → blocks !! S k = Some b →
         type a = context → type b ≠ context)
    ∧ Forall (λ b, oldLines b ≠ [] ∨ newLines b ≠ []) blocks.
Proof.
  destruct (PanelSidesFacts._computeDiffLines_invariant
              PanelSidesInv.shape_inv
              (JS.split content1) (JS.split content2))
    as (st & Hrun & [Hadj Hlines] & _ & _).
  - intros st _ _. by apply PanelSidesFacts.iteration_shape.
  - split; [by intros [|?] ???|done].
  - by exists (DiffApprovePanel.blocks st).
Qed.

(** X4: the diff of a text against itself is a single context block that
    holds all its lines and starts at line 1 on both sides. *)
Theorem _computeDiff_same_text (content : string) :
  DiffApprovePanel._computeDiff content content
  = Some [mkBlock 0 context (JS.split content) (JS.split content) 1 1].
Proof.
  destruct (PanelSidesFacts._computeDiffLines_invariant
              (PanelSidesInv.same_text_inv (JS.split content))
              (JS.split content) (JS.split content))
    as (st & Hrun & (_ & _ & Hblocks) & Hi & _).
  - intros st. by apply PanelSidesFacts.iteration_same_text.
  - by split.
  - unfold DiffApprovePanel._computeDiff. rewrite Hrun, Hblocks, Hi.
    pose proof (split_not_nil content) as Hne.
    destruct (JS.split content) as [|l0 rest] eqn:E; [done|].
    simpl. by rewrite take_ge.
Qed.

(** ** [DiffApprovePanel._handleDenyAll] on diffs that do not shift *)

Module DenyAllFacts.
Import DiffApprovePanel PanelSidesInv.
Local Open Scope nat_scope.

(** All that is known of the blocks of two texts. *)
Lemma _computeDiff_facts content1 content2 blocks :
  _computeDiff content1 content2 = Some blocks →
  Forall kind_ok blocks ∧ starts_ok blocks
  ∧ oldSide blocks = JS.split content1
  ∧ newSide blocks = JS.split content2.
Proof.
  intros Hdiff.
  destruct (PanelDiffFacts._computeDiff_total content1 content2)
    as (bs & Hbs & Hkinds & _).
  destruct (_computeDiff_round_trip content1 content2)
    as (bs1 & Hbs1 & Hold & Hnew & _).
  destruct (_computeDiff_ids_and_starts content1 content2)
    as (bs2 & Hbs2 & Hstarts).
  rewrite Hdiff in Hbs, Hbs1, Hbs2.
  injection Hbs as <-. injection Hbs1 as <-. injection Hbs2 as <-.
  by split_and!.
Qed.

Lemma oldSide_app bs cs : oldSide (bs ++ cs) = oldSide bs ++ oldSide cs.
Proof. unfold oldSide. by rewrite fmap_app, concat_app. Qed.

Lemma newSide_app bs cs : newSide (bs ++ cs) = newSide bs ++ newSide cs.
Proof. unfold newSide. by rewrite fmap_app, concat_app. Qed.

Lemma findBlock_at all k b :
  starts_ok all → all !! k = Some b → findBlock all (id b) = Some b.
Proof.
  intros Hstarts Hk. unfold findBlock.
  assert (Hfind : list_find (λ block, id block = id b) all = Some (k, b)).
  { apply list_find_Some. split_and!; [done..|].
    intros n y Hy Hlt Heq.
    destruct (Hstarts n y Hy) as (Hn & _). destruct (Hstarts k b Hk) as (Hkb & _).
    rewrite Hn, Hkb in Heq. lia. }
  by rewrite Hfind.
Qed.

(** One denial of the bulk loop ([updateUI = false]). *)
Lemma deny_in_loop q all b lines :
  _diffContent q = Some all → findBlock all (id b) = Some b →
  file2 q = Some (JS.join lines) → JS.split (JS.join lines) = lines →
  let q' := _handleApproval (id b) deny false q in
  file2 q' = Some (JS.join (revert b lines))
  ∧ file1 q' = file1 q ∧ _diffContent q' = Some all.
Proof.
  intros Hdc Hfind Hfile Hsplit q'.
  destruct (PanelFacts.deny_effect q all (id b) b (JS.join lines) false
              Hdc Hfind Hfile) as (Hf2 & Hf1 & _).
  fold q' in Hf2, Hf1. rewrite Hsplit in Hf2. split_and!; [done..|].
  subst q'. unfold _handleApproval. rewrite Hdc, Hfind, Hfile. cbv zeta.
  match goal with
  | |- context [_checkIfAllBlocksProcessed ?x] =>
      destruct (PanelFacts._checkIfAllBlocksProcessed_frame x)
        as (_ & _ & _ & ->)
  end.
  done.
Qed.

(** Reverting a block whose new lines sit right after [before]. *)
Lemma revert_at b before after :
  kind_ok b → type b ≠ context →
  Z.of_nat (length before) = (newStart b - 1)%Z →
  revert b (before ++ newLines b ++ after) = before ++ oldLines b ++ after.
Proof.
  intros Hkind Hty Hstart. unfold revert, kind_ok in *.
  destruct (type b); try done.
  - rewrite Hkind. by apply PanelFacts.splice_at.
  - rewrite Hkind. by apply (PanelFacts.splice_at before [] after).
  - by apply PanelFacts.splice_at.
Qed.

(** The bulk loop, started after the blocks [done] have been reverted and
    with the blocks [todo] still ahead. *)
Lemma deny_loop all :
  Forall kind_ok all → starts_ok all → shifts_only_last all →
  newSide all ≠ [] →
  Forall (λ x, lf_free x = true) (oldSide all) →
  Forall (λ x, lf_free x = true) (newSide all) →
  ∀ todo done q,
    all = done ++ todo →
    file2 q = Some (JS.join (oldSide done ++ newSide todo)) →
    _diffContent q = Some all →
    ((∃ b, b ∈ todo ∧ type b ≠ context) →
     length (oldSide done) = length (newSide done)) →
    let q' := fold_left (λ p block, _handleApproval (id block) deny false p)
                        (filter (λ block, type block ≠ context) todo) q in
    file2 q' = Some (JS.join (oldSide all))
    ∧ file1 q' = file1 q ∧ _diffContent q' = Some all.
Proof.
  intros Hkinds Hstarts Hshift Hnonempty Hlf1 Hlf2.
  induction todo as [|b todo IH]; intros done q Hall Hfile Hdc Hlen.
  - simpl. rewrite app_nil_r in Hall, Hfile. by subst done.
  - assert (Hb : all !! length done = Some b).
    { rewrite Hall, lookup_app_r by lia.
      by replace (length done - length done) with 0 by lia. }
    assert (Hall' : all = (done ++ [b]) ++ todo)
      by (by rewrite <- app_assoc).
    assert (Hkb : kind_ok b).
    { rewrite Forall_forall in Hkinds. apply Hkinds.
      by apply list_elem_of_lookup_2 in Hb. }
    destruct (decide (type b = context)) as [Hctx|Hchange].
    + rewrite filter_cons_False by (by intros ?).
      unfold kind_ok in Hkb. rewrite Hctx in Hkb.
      apply (IH (done ++ [b])); [done| |done|].
      * rewrite Hfile. f_equal. f_equal.
        rewrite PanelSidesFacts.oldSide_snoc, <- app_assoc, Hkb.
        by unfold newSide.
      * intros (c & Hc & Hcty).
        rewrite PanelSidesFacts.oldSide_snoc, PanelSidesFacts.newSide_snoc.
        rewrite !length_app, Hkb. f_equal. apply Hlen.
        exists c. split; [by right|done].
    + rewrite filter_cons_True by done. simpl.
      assert (Hlen0 : length (oldSide done) = length (newSide done)).
      { apply Hlen. exists b. split; [by left|done]. }
      assert (Hstart : Z.of_nat (length (oldSide done)) = (newStart b - 1)%Z).
      { destruct (Hstarts _ _ Hb) as (_ & _ & Hn). rewrite Hn.
        rewrite Hall, take_app_length. unfold line1. lia. }
      set (lines := oldSide done ++ newLines b ++ newSide todo).
      assert (Hlines : oldSide done ++ newSide (b :: todo) = lines) by done.
      rewrite Hlines in Hfile.
      assert (Hsplit : JS.split (JS.join lines) = lines).
      { apply JSRoundTrip.split_join.
        - intros Hnil. apply (f_equal length) in Hnil.
          apply Hnonempty. apply length_zero_iff_nil.
          rewrite Hall, newSide_app. unfold lines in Hnil.
          rewrite !length_app in *. simpl in *.
          change (newSide (b :: todo)) with (newLines b ++ newSide todo).
          rewrite length_app. lia.
        - unfold lines. rewrite Hall, oldSide_app in Hlf1.
          rewrite Hall, newSide_app in Hlf2.
          change (newSide (b :: todo)) with (newLines b ++ newSide todo) in Hlf2.
          apply Forall_app in Hlf1 as [Hd _].
          apply Forall_app in Hlf2 as [_ Ht].
          by apply Forall_app. }
      destruct (deny_in_loop q all b lines Hdc
                  (findBlock_at all _ b Hstarts Hb) Hfile Hsplit)
        as (Hf2 & Hf1 & Hdc').
      unfold lines in Hf2. rewrite (revert_at b) in Hf2 by done.
      destruct (IH (done ++ [b])
                  (_handleApproval (id b) deny false q)) as (R1 & R2 & R3);
        [done| |done| |].
      * rewrite Hf2. f_equal. f_equal.
        by rewrite PanelSidesFacts.oldSide_snoc, <- app_assoc.
      * intros (c & Hc & Hcty).
        rewrite PanelSidesFacts.oldSide_snoc, PanelSidesFacts.newSide_snoc.
        rewrite !length_app, Hlen0. f_equal.
        apply list_elem_of_lookup in Hc as [n Hn].
        apply (Hshift (length done) (length done + S n) b c);
          [done|done|lia| |done].
        rewrite Hall, lookup_app_r by lia.
        by replace (length done + S n - length done) with (S n) by lia.
      * split_and!; [done| |done]. by rewrite R2.
Qed.

End DenyAllFacts.

(** X5: when every non-context block that has another non-context block
    behind it replaces as many lines as it removes, [denyAll] on a panel
    that holds the diff of its two files reverts the second file to the
    content of the first, empties the pending set, and the reloaded diff
    is the single context block of that text. *)
Theorem denyAll_restores_when_positions_hold
        (p : DiffApprovePanel.Panel) (content1 content2 : string)
        (blocks : list DiffBlock) :
  DiffApprovePanel.file1 p = Some content1 →
  DiffApprovePanel.file2 p = Some content2 →
  DiffApprovePanel._diffContent p = Some blocks →
  DiffApprovePanel._computeDiff content1 content2 = Some blocks →
  shifts_only_last blocks →
  let p' := DiffApprovePanel._handleDenyAll p in
  DiffApprovePanel.file2 p' = Some content1
  ∧ DiffApprovePanel.file1 p' = Some content1
  ∧ DiffApprovePanel._pendingBlocks p' = ∅
  ∧ DiffApprovePanel._diffContent p'
    = Some [mkBlock 0 context (JS.split content1) (JS.split content1) 1 1].
Proof.
  intros Hf1 Hf2 Hdc Hdiff Hshift p'.
  destruct (DenyAllFacts._computeDiff_facts _ _ _ Hdiff)
    as (Hkinds & Hstarts & Hold & Hnew).
  destruct (DenyAllFacts.deny_loop blocks Hkinds Hstarts Hshift) with
    (todo := blocks) (done := @nil DiffBlock) (q := p)
    as (R2 & R1 & Rdc); try done.
  - rewrite Hnew. apply split_not_nil.
  - rewrite Hold. apply JSRoundTrip.split_all_lf_free.
  - rewrite Hnew. apply JSRoundTrip.split_all_lf_free.
  - simpl. by rewrite Hf2, Hnew, JSRoundTrip.join_split.
  - rewrite Hold, JSRoundTrip.join_split in R2. rewrite Hf1 in R1.
    subst p'. unfold DiffApprovePanel._handleDenyAll. rewrite Hdc.
    cbv zeta.
    set (p1 := fold_left _ _ p) in *.
    assert (Hload : DiffApprovePanel._loadDiffContent p1
      = DiffApprovePanel.mkPanel (Some content1) (Some content1)
          (Some [mkBlock 0 context (JS.split content1) (JS.split content1)
                         1 1])
          (DiffApprovePanel._pendingBlocks p1)
          (DiffApprovePanel.openRequests p1)).
    { unfold DiffApprovePanel._loadDiffContent.
      by rewrite R1, R2, _computeDiff_same_text. }
    rewrite Hload.
    match goal with
    | |- context [DiffApprovePanel._checkIfAllBlocksProcessed ?x] =>
        destruct (PanelFacts._checkIfAllBlocksProcessed_frame x)
          as (-> & -> & -> & ->)
    end.
    done.
Qed.

Lemma denyAll_restores_when_positions_hold_witness :
  shifts_only_last editedBlocks
  ∧ DiffApprovePanel.file2 (DiffApprovePanel._handleDenyAll editedPanel)
    = Some ("a" ++ nl ++ "b" ++ nl ++ "c")%string.
Proof.
  assert (H : shifts_only_last editedBlocks).
  { intros k k' b b' Hk Hty Hlt Hk' Hty'.
    destruct k as [|[|[|k]]]; simpl in Hk; try done;
      by injection Hk as <-. }
  split; [exact H|].
  apply (denyAll_restores_when_positions_hold editedPanel
           ("a" ++ nl ++ "b" ++ nl ++ "c")%string
           ("x" ++ nl ++ "b" ++ nl ++ "y")%string editedBlocks);
    try (vm_compute; reflexivity). exact H.
Defined.

(** X6: denying a context block rewrites the second file with the content
    it already has (its lines are split, left alone and joined again) and
    takes the id out of the pending set. *)
Theorem deny_context_block_keeps_content
        (p : DiffApprovePanel.Panel) (blocks : list DiffBlock)
        (blockId : Z) (block : DiffBlock) (content : string)
        (updateUI : bool) :
  DiffApprovePanel._diffContent p = Some blocks →
  findBlock blocks blockId = Some block →
  type block = context →
  DiffApprovePanel.file2 p = Some content →
  let p' := DiffApprovePanel._handleApproval
              blockId DiffApprovePanel.deny updateUI p in
  DiffApprovePanel.file2 p' = Some content
  ∧ DiffApprovePanel.file1 p' = DiffApprovePanel.file1 p
  ∧ (DiffApprovePanel._pendingBlocks p'
     = DiffApprovePanel._pendingBlocks p ∖ {[ blockId ]}).
Proof.
  intros Hdc Hfind Hctx Hfile p'.
  destruct (PanelFacts.deny_effect p blocks blockId block content updateUI
              Hdc Hfind Hfile) as (Hf2 & Hf1 & Hp).
  fold p' in Hf2, Hf1, Hp. split_and!; [|done..].
  rewrite Hf2. unfold DiffApprovePanel.revert. rewrite Hctx.
  by rewrite JSRoundTrip.join_split.
Qed.

Lemma deny_context_block_keeps_content_witness :
  DiffApprovePanel._diffContent editedPanel = Some editedBlocks
  ∧ findBlock editedBlocks 1 = Some (mkBlock 1 context ["b"] ["b"] 2 2)
  ∧ DiffApprovePanel.file2
      (DiffApprovePanel._handleApproval 1 DiffApprovePanel.deny true
                                        editedPanel)
    = Some ("x" ++ nl ++ "b" ++ nl ++ "y")%string.
Proof.
  assert (H1 : DiffApprovePanel._diffContent editedPanel = Some editedBlocks)
    by (vm_compute; reflexivity).
  assert (H2 : findBlock editedBlocks 1
               = Some (mkBlock 1 context ["b"] ["b"] 2 2))
    by (vm_compute; reflexivity).
  split_and!; [exact H1|exact H2|].
  apply (deny_context_block_keeps_content editedPanel editedBlocks 1 _
           ("x" ++ nl ++ "b" ++ nl ++ "y")%string true H1 H2);
    reflexivity.
Defined.

(** Ids that equal positions are pairwise different. *)
Lemma nonContextIds_NoDup (blocks : list DiffBlock) :
  (∀ (k : nat) b, blocks !! k = Some b → id b = Z.of_nat k) →
  NoDup (nonContextIds blocks).
Proof.
  intros Hids. unfold nonContextIds.
  assert (Hinj : ∀ x y, x ∈ blocks → y ∈ blocks → id x = id y → x = y).
  { intros x y [i Hi]%list_elem_of_lookup [j Hj]%list_elem_of_lookup Heq.
    rewrite (Hids _ _ Hi), (Hids _ _ Hj) in Heq.
    assert (i = j) as -> by lia. rewrite Hi in Hj. by injection Hj. }
  assert (Hnd : NoDup blocks).
  { apply NoDup_alt. intros i j x Hi Hj.
    pose proof (Hids _ _ Hi) as E1. pose proof (Hids _ _ Hj) as E2. lia. }
  apply NoDup_fmap_2_strong.
  - intros x y [_ Hx]%list_elem_of_filter [_ Hy]%list_elem_of_filter.
    by apply Hinj.
  - by apply NoDup_filter.
Qed.

(** X7: the ["getContent"] message on two readable files stores the diff
    of the two texts and makes the pending set the ids of its non-context
    blocks, one pending id for each such block. *)
Theorem getContent_fills_pending
        (p : DiffApprovePanel.Panel) (content1 content2 : string) :
  DiffApprovePanel.file1 p = Some content1 →
  DiffApprovePanel.file2 p = Some content2 →
  let p' := DiffApprovePanel.getContent p in
  ∃ blocks,
    DiffApprovePanel._computeDiff content1 content2 = Some blocks
    ∧ DiffApprovePanel._diffContent p' = Some blocks
    ∧ (∀ x, x ∈ DiffApprovePanel._pendingBlocks p'
            ↔ ∃ b, b ∈ blocks ∧ type b ≠ context ∧ id b = x)
    ∧ size (DiffApprovePanel._pendingBlocks p')
      = length (filter (λ b, type b ≠ context) blocks)
    ∧ DiffApprovePanel.file1 p' = Some content1
    ∧ DiffApprovePanel.file2 p' = Some content2.
Proof.
  intros Hf1 Hf2 p'.
  destruct (PanelDiffFacts._computeDiff_total content1 content2)
    as (blocks & Hdiff & _).
  destruct (DenyAllFacts._computeDiff_facts _ _ _ Hdiff)
    as (_ & Hstarts & _).
  exists blocks. subst p'.
  unfold DiffApprovePanel.getContent, DiffApprovePanel._loadDiffContent.
  rewrite Hf1, Hf2, Hdiff. simpl. split_and!; try done.
  - intros x. rewrite elem_of_list_to_set. unfold nonContextIds.
    rewrite list_elem_of_fmap. split.
    + intros (b & -> & [Hty Hin]%list_elem_of_filter). by exists b.
    + intros (b & Hin & Hty & <-). exists b. split; [done|].
      by apply list_elem_of_filter.
  - rewrite size_list_to_set.
    + unfold nonContextIds. by rewrite length_fmap.
    + apply nonContextIds_NoDup. intros k b Hk.
      by destruct (Hstarts k b Hk).
Qed.

Lemma getContent_fills_pending_witness :
  size (DiffApprovePanel._pendingBlocks
          (DiffApprovePanel.getContent
             (DiffApprovePanel.create shifted_old shifted_new))) = 2%nat.
Proof.
  destruct (getContent_fills_pending
              (DiffApprovePanel.create shifted_old shifted_new)
              shifted_old shifted_new eq_refl eq_refl)
    as (blocks & Hdiff & _ & _ & Hsize & _).
  rewrite Hsize. vm_compute in Hdiff. injection Hdiff as <-. reflexivity.
Defined.

(** ** [DiffFile.computeDiff]: what the blocks hold *)

Module DiffFileSidesFacts.
Import DiffFile DiffFileSidesInv.

Lemma oldPartLines_snoc seen part :
  oldPartLines (seen ++ [part])
  = oldPartLines seen ++ (if added part then [] else partLines part).
Proof.
  unfold oldPartLines. rewrite List.filter_app, fmap_app, concat_app. simpl.
  destruct (added part); simpl; by rewrite ?app_nil_r.
Qed.

Lemma newPartLines_snoc seen part :
  newPartLines (seen ++ [part])
  = newPartLines seen
    ++ (if added part || negb (removed part) then partLines part else []).
Proof.
  unfold newPartLines. rewrite List.filter_app, fmap_app, concat_app. simpl.
  destruct (added part || negb (removed part)); simpl; by rewrite ?app_nil_r.
Qed.

Lemma sides_snoc bs b :
  oldSide (bs ++ [b]) = oldSide bs ++ oldLines b
  ∧ newSide (bs ++ [b]) = newSide bs ++ newLines b.
Proof.
  unfold oldSide, newSide. rewrite !fmap_app, !concat_app. simpl.
  by rewrite !app_nil_r.
Qed.

Lemma step_sides seen st part :
  sides_inv seen st → sides_inv (seen ++ [part]) (step st part).
Proof.
  intros [Hold Hnew]. unfold sides_inv.
  rewrite oldPartLines_snoc, newPartLines_snoc, <- Hold, <- Hnew.
  unfold step.
  destruct (added part) eqn:Ea, (removed part) eqn:Er; simpl;
    try (unfold openBlock, freshBlock, retype; rewrite ?Ea, ?Er; simpl;
         destruct (pendingBlock st) as [b|]; simpl;
         [ destruct (startsNewBlock part b _ _); simpl;
           repeat match goal with
             | |- context [if ?c then _ else _] => destruct c; simpl
             end
         | ];
         repeat (rewrite (proj1 (sides_snoc _ _))
                 || rewrite (proj2 (sides_snoc _ _))); simpl;
         rewrite ?app_nil_r, <- ?app_assoc; done).
  (* an unchanged part *)
  case_bool_decide as Hnil; simpl.
  - rewrite Hnil, !app_nil_r. done.
  - by rewrite (proj1 (sides_snoc _ _)), (proj2 (sides_snoc _ _)).
Qed.

Lemma loop_sides changes seen st :
  sides_inv seen st → sides_inv (seen ++ changes) (loop changes st).
Proof.
  unfold loop. revert seen st.
  induction changes as [|part rest IH]; intros seen st Hinv; simpl.
  - by rewrite app_nil_r.
  - replace (seen ++ part :: rest) with ((seen ++ [part]) ++ rest)
      by (by rewrite <- app_assoc).
    apply IH. by apply step_sides.
Qed.

(** A set built from an array without repetitions lists the array. *)
Lemma setOfArray_NoDup (array : list Z) :
  NoDup array → setOfArray array = array.
Proof.
  unfold setOfArray.
  assert (Hgen : ∀ l acc : list Z, NoDup (acc ++ l) →
    fold_left (λ (set : list Z) (x : Z),
                 if decide (x ∈ set) then set else set ++ [x]) l acc
    = acc ++ l).
  { induction l as [|x l IH]; intros acc Hnd; simpl.
    - by rewrite app_nil_r.
    - apply NoDup_app in Hnd as Hparts. destruct Hparts as (_ & Hdisj & _).
      rewrite decide_False.
      + rewrite IH; rewrite <- app_assoc; done.
      + intros Hin. apply (Hdisj x Hin). by left. }
  intros Hnd. by rewrite Hgen.
Qed.

End DiffFileSidesFacts.

(** X8: [DiffFile.computeDiff] hands out the ids 0, 1, 2, ... in emission
    order, so the ids of a diff are pairwise different, and the pending
    set of a session opened on the diff lists the id of every non-context
    block exactly once, in emission order. *)
Theorem computeDiff_ids_and_initial_pending
        (changes : list Change) (path : string) (files : gset string) :
  let blocks := DiffFile.computeDiffOf changes in
  (∀ (k : nat) (b : DiffBlock), blocks !! k = Some b → id b = Z.of_nat k)
  ∧ NoDup (id <$> blocks)
  ∧ DiffFile.pendingBlocks (DiffFile.open path blocks files)
    = id <$> filter (λ b, type b ≠ context) blocks
  ∧ NoDup (DiffFile.pendingBlocks (DiffFile.open path blocks files)).
Proof.
  intros blocks.
  pose proof (DiffFileFacts.computeDiffOf_ids changes) as Hids.
  fold blocks in Hids.
  assert (Hnd : NoDup (nonContextIds blocks))
    by (by apply nonContextIds_NoDup).
  split_and!.
  - done.
  - apply NoDup_alt. intros i j x Hi Hj.
    apply list_lookup_fmap_Some in Hi as (bi & -> & Hbi).
    apply list_lookup_fmap_Some in Hj as (bj & Heq & Hbj).
    rewrite (Hids _ _ Hbi), (Hids _ _ Hbj) in Heq. lia.
  - simpl. by rewrite DiffFileSidesFacts.setOfArray_NoDup.
  - simpl. by rewrite DiffFileSidesFacts.setOfArray_NoDup.
Qed.

(** X9: the grouping of [DiffFile.computeDiff] neither drops nor reorders
    lines: the old lines of the blocks, in order, are the filtered lines of
    the parts that are not added, and the new lines are the filtered lines
    of the parts that are added or not removed. *)
Theorem computeDiff_sides_are_part_lines (changes : list Change) :
  oldSide (DiffFile.computeDiffOf changes) = oldPartLines changes
  ∧ newSide (DiffFile.computeDiffOf changes) = newPartLines changes.
Proof.
  unfold DiffFile.computeDiffOf.
  by apply (DiffFileSidesFacts.loop_sides changes [] DiffFile.init).
Qed.

(** ** The webview script: what [renderDiff] draws *)

Module WebviewFacts.
Import Webview.

Lemma filterFrom_changes visible i rest :
  filter (λ b, type b ≠ context) (filterFrom visible i rest)
  = filter (λ b, type b ≠ context) rest.
Proof.
  revert i. induction rest as [|block rest IH]; intros i; [done|].
  simpl. rewrite filter_app, IH.
  destruct (is_context block) eqn:Hctx.
  - apply GroupingFacts.is_context_true in Hctx.
    rewrite (filter_cons_False _ block) by (intros Hne; by apply Hne).
    destruct (keepsContext visible i); [|done].
    by rewrite (filter_cons_False _ block) by (intros Hne; by apply Hne).
  - apply GroupingFacts.is_context_false in Hctx.
    by rewrite !(filter_cons_True _ block) by done.
Qed.

Lemma filterFrom_sublist visible i rest :
  filterFrom visible i rest `sublist_of` rest.
Proof.
  revert i. induction rest as [|block rest IH]; intros i; [done|]. simpl.
  destruct (is_context block); [destruct (keepsContext visible i)|]; simpl;
    (apply sublist_skip || apply sublist_cons); apply IH.
Qed.

End WebviewFacts.

(** X10: of the non-context blocks, [renderDiff] draws exactly the pending
    ones, in their order; whatever it draws is taken, in order, from the
    blocks that are context or pending.  It draws nothing (the early
    return) exactly when there is no content or no block is context or
    pending. *)
Theorem renderDiff_draws_pending_changes
        (blocks : list DiffBlock) (pendingBlocks : gset Z) :
  match Webview.renderDiff (Some blocks) pendingBlocks with
  | Some drawn =>
      filter (λ b, type b ≠ context) drawn
      = filter (λ b, type b ≠ context ∧ id b ∈ pendingBlocks) blocks
      ∧ drawn `sublist_of` Webview.visibleBlocks blocks pendingBlocks
      ∧ drawn `sublist_of` blocks
  | None =>
      ∀ b, b ∈ blocks → type b ≠ context ∧ id b ∉ pendingBlocks
  end.
Proof.
  unfold Webview.renderDiff. cbv zeta.
  destruct (length (Webview.visibleBlocks blocks pendingBlocks) =? 0)%nat
    eqn:Hlen.
  - apply Nat.eqb_eq, length_zero_iff_nil in Hlen. intros b Hb.
    assert (Hnot : b ∉ Webview.visibleBlocks blocks pendingBlocks)
      by (rewrite Hlen; apply not_elem_of_nil).
    unfold Webview.visibleBlocks in Hnot.
    rewrite list_elem_of_filter in Hnot. split.
    + intros Hctx. apply Hnot. split; [by left|done].
    + intros Hin. apply Hnot. split; [by right|done].
  - unfold Webview.filteredBlocks. split_and!.
    + rewrite WebviewFacts.filterFrom_changes.
      unfold Webview.visibleBlocks. rewrite list_filter_filter.
      apply list_filter_iff. intros b. split.
      * intros [Hty [Hctx|Hin]]; [done|by split].
      * intros [Hty Hin]. split; [done|by right].
    + apply WebviewFacts.filterFrom_sublist.
    + etrans; [apply WebviewFacts.filterFrom_sublist|].
      apply sublist_filter.
Qed.

(** ** The session of [DiffFile]: rejected calls and closing *)

Module SessionEdgeFacts.
Import DiffFile SessionInv.

(** The bulk loop stops at the first id whose call is rejected. *)
Lemma notifyAll_rejected resolves approved ids s x :
  x ∈ ids → resolves x = false →
  ∃ sent rest,
    ids = sent ++ rest
    ∧ (∀ y, y ∈ removelast sent → resolves y = true)
    ∧ (∃ z, last sent = Some z ∧ resolves z = false)
    ∧ notifyAll resolves approved ids s
      = (mkSession (filePath s) (pendingBlocks s)
                   (hasCalledAllBlocksProcessed s) (approvedFiles s)
                   (calls s
                    ++ ((λ blockId, BlockApprove blockId approved) <$> sent))
                   (disposed s), false).
Proof.
  revert s. induction ids as [|y ids IH]; intros s Hin Hx.
  - by apply not_elem_of_nil in Hin.
  - simpl. destruct (resolves y) eqn:Hy.
    + apply elem_of_cons in Hin as [->|Hin]; [congruence|].
      destruct (IH (record (BlockApprove y approved) s) Hin Hx)
        as (sent & rest & -> & Hok & (z & Hz & Hzr) & ->).
      exists (y :: sent), rest. split_and!; [done| | |].
      * intros w Hw. destruct sent as [|s0 sent']; [done|].
        change (removelast (y :: s0 :: sent'))
          with (y :: removelast (s0 :: sent')) in Hw.
        apply elem_of_cons in Hw as [->|Hw]; [done|by apply Hok].
      * exists z. split; [|done]. by destruct sent.
      * simpl. by rewrite <- app_assoc.
    + exists [y], ids. split_and!; [done| |by exists y|done].
      intros w Hw. simpl in Hw. by apply not_elem_of_nil in Hw.
Qed.

End SessionEdgeFacts.

(** X11: when a call of [onBlockApprove] is rejected, the handler of
    [DiffFile] ends there: for a single [approve] or [deny] the block stays
    pending, and for a bulk action the whole pending set stays as it was,
    although the callback has already run for the ids before the rejected
    one; in both cases no completion is signalled and the file is not
    marked approved. *)
Theorem rejected_callback_keeps_blocks_pending
        (s : DiffFile.Session) (t : DiffFile.MessageType)
        (blockId : option Z) (resolves : Z → bool) (x : Z) :
  DiffFile.disposed s = false →
  resolves x = false →
  (blockId = Some x ∧ (t = DiffFile.approve ∨ t = DiffFile.deny))
  ∨ (x ∈ DiffFile.pendingBlocks s
     ∧ (t = DiffFile.approveAll ∨ t = DiffFile.denyAll)) →
  let s' := DiffFile.handle s (DiffFile.Message t blockId resolves) in
  DiffFile.pendingBlocks s' = DiffFile.pendingBlocks s
  ∧ DiffFile.hasCalledAllBlocksProcessed s'
    = DiffFile.hasCalledAllBlocksProcessed s
  ∧ DiffFile.approvedFiles s' = DiffFile.approvedFiles s
  ∧ signals s' = signals s
  ∧ ∃ sent z,
      DiffFile.calls s'
      = DiffFile.calls s
        ++ ((λ y, DiffFile.BlockApprove
                    y (bool_decide (t = DiffFile.approve
                                    ∨ t = DiffFile.approveAll))) <$> sent)
      ∧ last sent = Some z ∧ resolves z = false
      ∧ (∀ y, y ∈ removelast sent → resolves y = true).
Proof.
  intros Hopen Hx Hcase s'. subst s'.
  assert (Hsig : ∀ approved (sent : list Z),
    length (filter (λ c, c = DiffFile.AllBlocksProcessed)
              (DiffFile.calls s
               ++ ((λ y, DiffFile.BlockApprove y approved) <$> sent)))
    = signals s).
  { intros approved sent. rewrite filter_app, length_app.
    replace (filter _ (_ <$> sent)) with (@nil DiffFile.Callback);
      [unfold signals; simpl; lia|].
    induction sent as [|y l IH]; [done|]. simpl.
    by rewrite filter_cons_False. }
  destruct Hcase as [[-> Ht] | [Hin Ht]].
  - destruct (SessionFacts.single_message_effect s t x resolves Hopen Ht)
      as (_ & Hfail & _).
    rewrite (Hfail Hx). simpl. split_and!; try done.
    + apply SessionFacts.signals_record_block.
    + exists [x], x.
      destruct Ht as [-> | ->]; simpl; split_and!; try done;
        intros y Hy; by apply not_elem_of_nil in Hy.
  - unfold DiffFile.handle. rewrite Hopen. unfold DiffFile.onMessage.
    destruct (SessionEdgeFacts.notifyAll_rejected resolves
                (bool_decide (t = DiffFile.approveAll))
                (DiffFile.pendingBlocks s) s x Hin Hx)
      as (sent & rest & Hids & Hok & (z & Hz & Hzr) & Hrun).
    destruct Ht as [-> | ->]; rewrite Hrun; simpl;
      (split_and!; try done; [apply Hsig|]);
      exists sent, z; by split_and!.
Qed.

Lemma rejected_callback_keeps_blocks_pending_witness :
  DiffFile.disposed splitSession = false
  ∧ DiffFile.pendingBlocks
      (DiffFile.handle splitSession
         (DiffFile.Message DiffFile.denyAll None (λ y, negb (y =? 2)%Z)))
    = [0%Z; 2%Z; 3%Z].
Proof.
  split; [reflexivity|].
  destruct (rejected_callback_keeps_blocks_pending splitSession
              DiffFile.denyAll None (λ y, negb (y =? 2)%Z) 2%Z
              eq_refl eq_refl) as (Hp & _).
  - right. split; [|by right].
    apply (bool_decide_unpack _). vm_compute. exact I.
  - rewrite Hp. vm_compute. reflexivity.
Defined.

(** X12: closing the panel of a file whose diff has only context blocks
    (nothing was ever pending) counts as completion: the completion
    callback is called once, the file is marked approved, and the session
    handles nothing after that. *)
Theorem closing_unchanged_file_marks_it_approved
        (path : string) (blocks : list DiffBlock) (files : gset string)
        (later : list DiffFile.Event) :
  Forall (λ b, type b = context) blocks →
  let s := DiffFile.handle (DiffFile.open path blocks files)
                           DiffFile.PanelDisposed in
  DiffFile.pendingBlocks (DiffFile.open path blocks files) = []
  ∧ DiffFile.calls s = [DiffFile.AllBlocksProcessed]
  ∧ DiffFile.isFileApproved (DiffFile.approvedFiles s) path = true
  ∧ DiffFile.run s later = s.
Proof.
  intros Hctx s.
  assert (Hnone : nonContextIds blocks = []).
  { unfold nonContextIds.
    induction Hctx as [|b l Hb Hl IH]; [done|].
    rewrite filter_cons_False by (intros Hne; by apply Hne). done. }
  assert (Hpending : DiffFile.pendingBlocks (DiffFile.open path blocks files)
                     = []) by (simpl; by rewrite Hnone).
  subst s. unfold DiffFile.handle, DiffFile.onDidDispose. simpl.
  rewrite Hnone. simpl. split_and!; try done.
  - apply bool_decide_eq_true. unfold DiffFile.markFileAsApproved.
    apply elem_of_union_l. by apply elem_of_singleton.
  - induction later as [|e rest IH]; [done|]. simpl. apply IH.
Qed.

Lemma closing_unchanged_file_marks_it_approved_witness :
  Forall (λ b, type b = context)
         [mkBlock 0 context ["a"] ["a"] 1 1]
  ∧ DiffFile.calls
      (DiffFile.handle
         (DiffFile.open "a.ts" [mkBlock 0 context ["a"] ["a"] 1 1] ∅)
         DiffFile.PanelDisposed)
    = [DiffFile.AllBlocksProcessed].
Proof.
  assert (H : Forall (λ b, type b = context)
                     [mkBlock 0 context ["a"] ["a"] 1 1])
    by (by repeat constructor).
  split; [exact H|].
  apply (closing_unchanged_file_marks_it_approved "a.ts" _ ∅ [] H).
Defined.

(** ** The single-panel provider: groups and completion *)

Module SinglePanelFacts.
Import SinglePanelProvider SinglePanelSession GroupingInv.
Local Open Scope nat_scope.

(** Whatever the target, the two loops return a segment of the blocks
    without context blocks. *)
Lemma scan_segment all idx :
  ∃ lo n,
    lookForwards (drop (S idx) all) (lookBackwards all idx [])
    = take n (drop lo all)
    ∧ Forall (λ g, type g ≠ context) (take n (drop lo all)).
Proof.
  destruct (all !! idx) as [b|] eqn:Hb.
  - destruct (decide (type b = context)) as [Hctx|Hchange].
    + rewrite (GroupingFacts.lookBackwards_context all idx b [] Hb)
        by (by apply GroupingFacts.is_context_true).
      destruct (GroupingFacts.lookForwards_run (drop (S idx) all) [])
        as (n & _ & -> & Hrun & _).
      exists (S idx), n. split; [done|].
      apply Forall_lookup. intros k g Hk.
      apply lookup_take_Some in Hk as [Hk Hlt]. by apply (Hrun k).
    + destruct (GroupingFacts.scan_run all idx b Hb Hchange)
        as (lo & hi & Hidx & (_ & Hrun & _) & ->).
      exists lo, (hi - lo). split; [done|].
      apply Forall_lookup. intros k g Hk.
      apply lookup_take_Some in Hk as [Hk Hlt]. rewrite lookup_drop in Hk.
      apply (Hrun (lo + k)); [lia|done].
  - apply lookup_ge_None in Hb.
    rewrite drop_ge by lia. simpl.
    destruct idx as [|idx']; simpl.
    + destruct all; [|simpl in Hb; lia]. by exists 0, 0.
    + rewrite (proj2 (lookup_ge_None all (S idx'))) by lia.
      by exists 0, 0.
Qed.

(** The loop over a group whose calls all resolve. *)
Lemma processGroup_resolved resolves approved group s :
  (∀ g, g ∈ group → resolves (id g) = true) →
  processGroup resolves approved group s
  = (mkProvider (diffContent s)
       (filter (λ x, x ∉ (id <$> group)) (pendingBlocks s))
       (calls s ++ ((λ g, DiffFile.BlockApprove (id g) approved) <$> group))
       (disposed s), true).
Proof.
  revert s. induction group as [|b rest IH]; intros s Hres; simpl.
  - rewrite app_nil_r. destruct s as [dc pend cs dsp]. simpl. f_equal.
    f_equal. induction pend as [|x l IHl]; [done|].
    rewrite filter_cons_True by (cbv beta; apply not_elem_of_nil).
    by rewrite <- IHl.
  - rewrite (Hres b) by apply list_elem_of_here.
    rewrite IH by (intros g Hg; apply Hres; by apply list_elem_of_further).
    simpl. f_equal. f_equal.
    + rewrite list_filter_filter. apply list_filter_iff. intros x.
      rewrite not_elem_of_cons. tauto.
    + by rewrite <- app_assoc.
Qed.

Lemma panel_signals_record_block blockId approved s :
  signals (record (DiffFile.BlockApprove blockId approved) s) = signals s.
Proof.
  unfold signals, record. simpl. rewrite filter_app, length_app.
  rewrite filter_cons_False by done. simpl. lia.
Qed.

Lemma panel_processGroup_frame resolves approved group s :
  let r := (processGroup resolves approved group s).1 in
  disposed r = disposed s ∧ signals r = signals s
  ∧ diffContent r = diffContent s.
Proof.
  revert s. induction group as [|b rest IH]; intros s; simpl; [done|].
  destruct (resolves (id b)); simpl.
  - destruct (IH (deletePending (id b)
                    (record (DiffFile.BlockApprove (id b) approved) s)))
      as (-> & -> & ->).
    simpl. by rewrite <- (panel_signals_record_block (id b) approved s).
  - by rewrite <- (panel_signals_record_block (id b) approved s).
Qed.

Lemma panel_notifyAll_frame resolves approved ids s :
  let r := (notifyAll resolves approved ids s).1 in
  disposed r = disposed s ∧ signals r = signals s
  ∧ diffContent r = diffContent s.
Proof.
  revert s. induction ids as [|x rest IH]; intros s; simpl; [done|].
  destruct (resolves x); simpl.
  - destruct (IH (record (DiffFile.BlockApprove x approved) s))
      as (-> & -> & ->).
    by rewrite <- (panel_signals_record_block x approved s).
  - by rewrite <- (panel_signals_record_block x approved s).
Qed.

Lemma complete_signals completes s :
  signals (complete completes s) = S (signals s)
  ∧ disposed (complete completes s) = (completes || disposed s).
Proof.
  unfold complete, signals, dispose, record.
  destruct completes; simpl; rewrite filter_app, length_app;
    rewrite filter_cons_True by done; simpl; split; try done; lia.
Qed.

(** One event adds at most one completion call, and after a completion
    call that returned the provider is disposed. *)
Lemma handle_signals s e :
  (∀ t b r c, e = Message t b r c → c = true) →
  signals s ≤ signals (handle s e) ≤ S (signals s)
  ∧ (signals (handle s e) = S (signals s) → disposed (handle s e) = true).
Proof.
  intros Hcompletes. unfold handle.
  destruct (disposed s) eqn:Hd; [split; [lia|intros; lia]|].
  destruct e as [t blockId resolves completes|];
    [|change (signals (dispose s)) with (signals s); split; [lia|done]].
  rewrite (Hcompletes t blockId resolves completes eq_refl).
  unfold onMessage.
  destruct (diffContent s) as [all|]; [|split; [lia|intros; lia]].
  destruct t.
  1,2: destruct blockId as [b|]; [|split; [lia|intros; lia]];
    cbv zeta;
    destruct (0 <? length (findRelatedBlocks (Some all) b));
      [|split; [lia|intros; lia]];
    match goal with
    | |- context [processGroup ?r ?a ?g ?s0] =>
        pose proof (panel_processGroup_frame r a g s0) as Hfr;
        destruct (processGroup r a g s0) as [s1 ok]
    end;
    simpl in Hfr; destruct Hfr as (Hd1 & Hs1 & _);
    (destruct ok; [|rewrite Hs1; split; [lia|intros; lia]]);
    (case_bool_decide; [|rewrite Hs1; split; [lia|intros; lia]]);
    destruct (complete_signals true s1) as [-> ->]; rewrite Hs1;
    split; [lia|done].
  1,2: match goal with
    | |- context [notifyAll ?r ?a ?ids ?s0] =>
        pose proof (panel_notifyAll_frame r a ids s0) as Hfr;
        destruct (notifyAll r a ids s0) as [s1 ok]
    end;
    simpl in Hfr; destruct Hfr as (Hd1 & Hs1 & _);
    (destruct ok; [|rewrite Hs1; split; [lia|intros; lia]]);
    destruct (complete_signals true (clearPending s1)) as [-> ->];
    change (signals (clearPending s1)) with (signals s1); rewrite Hs1;
    split; [lia|done].
  split; [lia|intros; lia].
Qed.

Lemma run_disposed s events : disposed s = true → run s events = s.
Proof.
  intros Hd. induction events as [|e rest IH]; [done|].
  simpl. replace (handle s e) with s by (unfold handle; by rewrite Hd).
  apply IH.
Qed.

End SinglePanelFacts.


(** X13: whatever the stored blocks and the id asked for, the grouping of
    the single-panel provider returns a contiguous segment of the stored
    blocks that holds no context block; it is empty when nothing is stored
    or no block has the id. *)
Theorem findRelatedBlocks_returns_change_segment
        (diffContent : option (list DiffBlock)) (blockId : Z) :
  let group := SinglePanelProvider.findRelatedBlocks diffContent blockId in
  Forall (λ g, type g ≠ context) group
  ∧ match diffContent with
    | None => group = []
    | Some all =>
        (∃ lo n, group = take n (drop lo all))
        ∧ ((∀ b, b ∈ all → id b ≠ blockId) → group = [])
    end.
Proof.
  intros group. subst group. unfold SinglePanelProvider.findRelatedBlocks.
  destruct diffContent as [all|]; [|by split].
  destruct (list_find _ all) as [[idx b]|] eqn:Hfind.
  - destruct (SinglePanelFacts.scan_segment all idx) as (lo & n & -> & Hrun).
    split; [done|]. split; [by exists lo, n|].
    intros Hnone. apply list_find_Some in Hfind as (Hb & Hid & _).
    destruct (Hnone b); [|done]. by apply (list_elem_of_lookup_2 all idx).
  - split; [done|]. split; [|done]. by exists 0%nat, 0%nat.
Qed.

(** X14: asked for the id of a context block of a diff computation, the
    grouping of the single-panel provider returns the changes that follow
    that block, up to the next context block or the end, and not the block
    itself. *)
Theorem findRelatedBlocks_of_context_block
        (changes : list Change) (idx : nat) (c : DiffBlock) :
  DiffFile.computeDiffOf changes !! idx = Some c →
  type c = context →
  let all := DiffFile.computeDiffOf changes in
  let group := SinglePanelProvider.findRelatedBlocks (Some all) (id c) in
  (c ∉ group)
  ∧ ∃ n, group = take n (drop (S idx) all)
      ∧ Forall (λ g, type g ≠ context) group
      ∧ ((S idx + n)%nat = length all
         ∨ ∃ c', all !! (S idx + n)%nat = Some c' ∧ type c' = context).
Proof.
  intros Hc Hctx all group.
  pose proof (DiffFileFacts.computeDiffOf_ids changes) as Hids.
  fold all in Hc, Hids.
  assert (Hgroup : ∃ n, group = take n (drop (S idx) all)
      ∧ Forall (λ g, type g ≠ context) group
      ∧ ((S idx + n)%nat = length all
         ∨ ∃ c', all !! (S idx + n)%nat = Some c' ∧ type c' = context)).
  { subst group. unfold SinglePanelProvider.findRelatedBlocks.
    rewrite (GroupingFacts.find_by_id all idx c Hids Hc).
    rewrite (GroupingFacts.lookBackwards_context all idx c [] Hc)
      by (by apply GroupingFacts.is_context_true).
    destruct (GroupingFacts.lookForwards_run (drop (S idx) all) [])
      as (n & Hn & -> & Hrun & Hend).
    exists n. simpl. split_and!; [done| |].
    - apply Forall_lookup. intros k g Hk.
      apply lookup_take_Some in Hk as [Hk Hlt]. by apply (Hrun k).
    - apply lookup_lt_Some in Hc. rewrite length_drop in Hn, Hend.
      destruct Hend as [Hend|(c' & Hc' & Hty)]; [left; lia|right].
      exists c'. by rewrite lookup_drop in Hc'. }
  split; [|done].
  destruct Hgroup as (n & _ & Hrun & _). intros Hin.
  rewrite Forall_forall in Hrun. by apply (Hrun c Hin).
Qed.

Lemma findRelatedBlocks_of_context_block_witness :
  mkBlock 1 context ["a"; ""] ["a"; ""] 1 4
  ∉ SinglePanelProvider.findRelatedBlocks
      (Some (DiffFile.computeDiffOf splitEdit)) 1.
Proof.
  assert (Hc : DiffFile.computeDiffOf splitEdit !! 1%nat
               = Some (mkBlock 1 context ["a"; ""] ["a"; ""] 1 4))
    by (vm_compute; reflexivity).
  destruct (findRelatedBlocks_of_context_block splitEdit 1 _ Hc eq_refl)
    as [Hout _].
  exact Hout.
Defined.

(** X15: in the single-panel provider, approving or denying a non-context
    block of a diff computation, with the callback resolving for the blocks
    of its run, calls [onBlockApprove] once for each block of the run in
    order, removes exactly the ids of the run from the pending ids, and
    calls [onAllBlocksProcessed] (and then disposes the panel) just when no
    id is left pending. *)
Theorem single_panel_resolves_whole_run
        (changes : list Change) (blockId : Z) (b : DiffBlock)
        (t : DiffFile.MessageType) (resolves : Z → bool) (completes : bool)
        (s : SinglePanelSession.Provider) :
  SinglePanelSession.diffContent s = Some (DiffFile.computeDiffOf changes) →
  SinglePanelSession.disposed s = false →
  findBlock (DiffFile.computeDiffOf changes) blockId = Some b →
  type b ≠ context →
  t = DiffFile.approve ∨ t = DiffFile.deny →
  let group :=
    SinglePanelProvider.findRelatedBlocks
      (Some (DiffFile.computeDiffOf changes)) blockId in
  (∀ g, g ∈ group → resolves (id g) = true) →
  let s' :=
    SinglePanelSession.handle s
      (SinglePanelSession.Message t (Some blockId) resolves completes) in
  b ∈ group
  ∧ SinglePanelSession.pendingBlocks s'
    = filter (λ x, x ∉ (id <$> group)) (SinglePanelSession.pendingBlocks s)
  ∧ SinglePanelSession.calls s'
    = SinglePanelSession.calls s
      ++ ((λ g, DiffFile.BlockApprove
                  (id g) (bool_decide (t = DiffFile.approve))) <$> group)
      ++ (if bool_decide (SinglePanelSession.pendingBlocks s' = [])
          then [DiffFile.AllBlocksProcessed] else [])
  ∧ SinglePanelSession.disposed s'
    = bool_decide (SinglePanelSession.pendingBlocks s' = []) && completes.
Proof.
  intros Hcontent Hopen Hfind Hty Ht group Hres s'.
  pose proof (DiffFileFacts.computeDiffOf_ids changes) as Hids.
  unfold findBlock in Hfind.
  destruct (list_find _ _) as [[idx b']|] eqn:Hlf; [|done].
  injection Hfind as ->.
  apply list_find_Some in Hlf as (Hb & Hid & _). subst blockId.
  destruct (GroupingFacts.findRelatedBlocks_at _ idx b Hids Hb Hty)
    as (lo & hi & Hidx & Hmax & Heq).
  assert (Hin : b ∈ group).
  { subst group. rewrite Heq. apply list_elem_of_lookup. exists (idx - lo)%nat.
    apply lookup_take_Some. split; [|lia]. rewrite lookup_drop.
    by replace (lo + (idx - lo))%nat with idx by lia. }
  split; [done|].
  assert (Hlen : (0 <? length group)%nat = true).
  { apply Nat.ltb_lt. destruct group; [by apply elem_of_nil in Hin|simpl; lia]. }
  subst s'. unfold SinglePanelSession.handle. rewrite Hopen.
  unfold SinglePanelSession.onMessage. rewrite Hcontent.
  fold group. cbv zeta. rewrite Hlen.
  assert (Hloop : ∀ approved,
    SinglePanelSession.processGroup resolves approved group s
    = (SinglePanelSession.mkProvider (SinglePanelSession.diffContent s)
         (filter (λ x, x ∉ (id <$> group)) (SinglePanelSession.pendingBlocks s))
         (SinglePanelSession.calls s
            ++ ((λ g, DiffFile.BlockApprove (id g) approved) <$> group))
         (SinglePanelSession.disposed s), true))
    by (intros approved; by apply SinglePanelFacts.processGroup_resolved).
  set (left := filter (λ x, x ∉ (id <$> group))
                     (SinglePanelSession.pendingBlocks s)) in *.
  destruct Ht as [-> | ->]; rewrite Hloop; simpl; fold left;
    unfold SinglePanelSession.complete;
    repeat case_bool_decide; try done; destruct completes; simpl;
    rewrite ?Hopen, ?app_nil_r, <- ?app_assoc; done.
Qed.

Lemma single_panel_resolves_whole_run_witness :
  SinglePanelSession.calls
    (SinglePanelSession.handle
       (SinglePanelSession.load (DiffFile.computeDiffOf splitEdit))
       (SinglePanelSession.Message DiffFile.deny (Some 2) (λ _, true) true))
  = [DiffFile.BlockApprove 2 false; DiffFile.BlockApprove 3 false].
Proof.
  assert (Hfind : findBlock (DiffFile.computeDiffOf splitEdit) 2
                  = Some (mkBlock 2 deletion ["b"; ""] [] 2 5))
    by (vm_compute; reflexivity).
  destruct (single_panel_resolves_whole_run splitEdit 2 _ DiffFile.deny
              (λ _, true) true
              (SinglePanelSession.load (DiffFile.computeDiffOf splitEdit))
              eq_refl eq_refl Hfind ltac:(discriminate)
              (or_intror eq_refl) (λ _ _, eq_refl))
    as (_ & _ & Hcalls & _).
  rewrite Hcalls. vm_compute. reflexivity.
Defined.

(** X16: in the single-panel provider, as long as the completion callback
    resolves, [onAllBlocksProcessed] is called at most once over any
    sequence of messages and panel closings, and once it has been called
    the provider is disposed. *)
Theorem single_panel_completion_at_most_once
        (s : SinglePanelSession.Provider)
        (events : list SinglePanelSession.Event) :
  Forall (λ e, ∀ t b r c, e = SinglePanelSession.Message t b r c → c = true)
         events →
  (SinglePanelSession.signals (SinglePanelSession.run s events)
   ≤ S (SinglePanelSession.signals s))%nat
  ∧ (SinglePanelSession.signals (SinglePanelSession.run s events)
     = S (SinglePanelSession.signals s) →
     SinglePanelSession.disposed (SinglePanelSession.run s events) = true).
Proof.
  intros Hevents. revert s.
  induction Hevents as [|e rest He Hrest IH]; intros s.
  - simpl. split; [lia|intros; lia].
  - change (SinglePanelSession.run s (e :: rest))
      with (SinglePanelSession.run (SinglePanelSession.handle s e) rest).
    destruct (SinglePanelFacts.handle_signals s e He) as [Hstep Hdisposed].
    destruct (decide (SinglePanelSession.signals
                        (SinglePanelSession.handle s e)
                      = S (SinglePanelSession.signals s))) as [Hone|Hnone].
    + rewrite (SinglePanelFacts.run_disposed _ rest (Hdisposed Hone)).
      split; [lia|done].
    + destruct (IH (SinglePanelSession.handle s e)) as [Hle Hd].
      assert (Hsame : SinglePanelSession.signals
                        (SinglePanelSession.handle s e)
                      = SinglePanelSession.signals s) by lia.
      rewrite Hsame in Hle, Hd. by split.
Qed.

Lemma single_panel_completion_at_most_once_witness :
  (SinglePanelSession.signals
     (SinglePanelSession.run
        (SinglePanelSession.load (DiffFile.computeDiffOf splitEdit))
        [SinglePanelSession.Message DiffFile.approveAll None (λ _, true) true;
         SinglePanelSession.Message DiffFile.denyAll None (λ _, true) true])
   ≤ 1)%nat.
Proof.
  refine (proj1 (single_panel_completion_at_most_once
                   (SinglePanelSession.load (DiffFile.computeDiffOf splitEdit))
                   [SinglePanelSession.Message DiffFile.approveAll None
                      (λ _, true) true;
                    SinglePanelSession.Message DiffFile.denyAll None
                      (λ _, true) true] _)).
  repeat constructor; intros t b r c H; by injection H.
Defined.

(** X17: in the single-panel provider a bulk action whose completion
    callback rejects leaves the panel open with nothing pending, and the
    next bulk action calls [onAllBlocksProcessed] again. *)
Theorem single_panel_rejected_completion_is_repeated
        (blocks : list DiffBlock) (s : SinglePanelSession.Provider)
        (t t' : DiffFile.MessageType) (resolves resolves' : Z → bool)
        (completes' : bool) :
  SinglePanelSession.diffContent s = Some blocks →
  SinglePanelSession.disposed s = false →
  t = DiffFile.approveAll ∨ t = DiffFile.denyAll →
  t' = DiffFile.approveAll ∨ t' = DiffFile.denyAll →
  (∀ x, x ∈ SinglePanelSession.pendingBlocks s → resolves x = true) →
  let s1 :=
    SinglePanelSession.handle s
      (SinglePanelSession.Message t None resolves false) in
  let s2 :=
    SinglePanelSession.handle s1
      (SinglePanelSession.Message t' None resolves' completes') in
  SinglePanelSession.disposed s1 = false
  ∧ SinglePanelSession.pendingBlocks s1 = []
  ∧ SinglePanelSession.signals s1 = S (SinglePanelSession.signals s)
  ∧ SinglePanelSession.calls s2
    = SinglePanelSession.calls s1 ++ [DiffFile.AllBlocksProcessed]
  ∧ SinglePanelSession.signals s2 = S (S (SinglePanelSession.signals s)).
Proof.
  intros Hcontent Hopen Ht Ht' Hres s1 s2.
  assert (Hall : ∀ approved ids st,
    (∀ x, x ∈ ids → resolves x = true) →
    SinglePanelSession.notifyAll resolves approved ids st
    = (SinglePanelSession.mkProvider (SinglePanelSession.diffContent st)
         (SinglePanelSession.pendingBlocks st)
         (SinglePanelSession.calls st
            ++ ((λ x, DiffFile.BlockApprove x approved) <$> ids))
         (SinglePanelSession.disposed st), true)).
  { intros approved ids. induction ids as [|x rest IH]; intros st Hr; simpl.
    - rewrite app_nil_r. by destruct st.
    - rewrite (Hr x) by apply list_elem_of_here.
      rewrite IH by (intros y Hy; apply Hr; by apply list_elem_of_further).
      simpl. by rewrite <- app_assoc. }
  assert (Hs1 : ∃ approved,
    s1 = SinglePanelSession.mkProvider (Some blocks) []
           ((SinglePanelSession.calls s
               ++ ((λ x, DiffFile.BlockApprove x approved)
                     <$> SinglePanelSession.pendingBlocks s))
              ++ [DiffFile.AllBlocksProcessed]) false).
  { subst s1. unfold SinglePanelSession.handle. rewrite Hopen.
    unfold SinglePanelSession.onMessage. rewrite Hcontent.
    destruct Ht as [-> | ->]; rewrite (Hall _ _ s Hres); simpl;
      rewrite Hcontent, Hopen; by eexists. }
  destruct Hs1 as [approved Hs1].
  assert (Hsig1 : SinglePanelSession.signals s1
                  = S (SinglePanelSession.signals s)).
  { rewrite Hs1. unfold SinglePanelSession.signals. simpl.
    rewrite !filter_app, !length_app.
    rewrite filter_cons_True by done. simpl.
    assert (Hnone : ∀ l : list Z,
              filter (λ c, c = DiffFile.AllBlocksProcessed)
                ((λ x, DiffFile.BlockApprove x approved) <$> l) = []).
    { intros l. induction l as [|x l IHl]; [done|].
      rewrite fmap_cons.
      by rewrite filter_cons_False by (cbv beta; discriminate). }
    rewrite Hnone. simpl. lia. }
  assert (Hs2 : SinglePanelSession.calls s2
                = SinglePanelSession.calls s1 ++ [DiffFile.AllBlocksProcessed]).
  { subst s2. rewrite Hs1. unfold SinglePanelSession.handle. simpl.
    unfold SinglePanelSession.onMessage. simpl.
    unfold SinglePanelSession.complete.
    destruct Ht' as [-> | ->]; simpl; by destruct completes'. }
  split_and!; [by rewrite Hs1|by rewrite Hs1|done|done|].
  unfold SinglePanelSession.signals in *. rewrite Hs2.
  rewrite filter_app, length_app, Hsig1.
  rewrite filter_cons_True by done. simpl. lia.
Qed.

Lemma single_panel_rejected_completion_is_repeated_witness :
  SinglePanelSession.signals
    (SinglePanelSession.run
       (SinglePanelSession.load (DiffFile.computeDiffOf splitEdit))
       [SinglePanelSession.Message DiffFile.approveAll None (λ _, true) false;
        SinglePanelSession.Message DiffFile.approveAll None (λ _, true) true])
  = 2%nat.
Proof.
  destruct (single_panel_rejected_completion_is_repeated
              (DiffFile.computeDiffOf splitEdit)
              (SinglePanelSession.load (DiffFile.computeDiffOf splitEdit))
              DiffFile.approveAll DiffFile.approveAll (λ _, true) (λ _, true)
              true eq_refl eq_refl (or_introl eq_refl) (or_introl eq_refl)
              (λ _ _, eq_refl))
    as (_ & _ & _ & _ & Hsignals).
  exact Hsignals.
Defined.


(** ** [escapeHtml] *)

Module HtmlFacts.
Import Html.
Local Open Scope string_scope.

Lemma append_cons x (a b : string) : String x a ++ b = String x (a ++ b).
Proof. reflexivity. Qed.

Lemma append_nil_r (a : string) : a ++ EmptyString = a.
Proof.
  induction a as [|x a IH]; [reflexivity|]. by rewrite append_cons, IH.
Qed.

Lemma append_assoc (a b c : string) : (a ++ b) ++ c = a ++ (b ++ c).
Proof.
  induction a as [|x a IH]; [reflexivity|]. by rewrite !append_cons, IH.
Qed.

Lemma replaceAll_app c by_ a b :
  replaceAll c by_ (a ++ b) = replaceAll c by_ a ++ replaceAll c by_ b.
Proof.
  induction a as [|x a IH]; [reflexivity|].
  rewrite append_cons. simpl.
  destruct (Ascii.eqb x c); rewrite IH; [by rewrite append_assoc|done].
Qed.

Lemma replaceAll_one c by_ x :
  replaceAll c by_ (String x EmptyString)
  = if Ascii.eqb x c then by_ else String x EmptyString.
Proof.
  simpl. destruct (Ascii.eqb x c); [|done]. apply append_nil_r.
Qed.

(** The five replacements applied to one character. *)
Lemma escapeHtml_one x : escapeHtml (String x EmptyString) = escapeChar x.
Proof.
  unfold escapeHtml, escapeChar. rewrite replaceAll_one.
  destruct (Ascii.eqb_spec x amp) as [->|_]; [reflexivity|].
  rewrite replaceAll_one.
  destruct (Ascii.eqb_spec x lt) as [->|_]; [reflexivity|].
  rewrite replaceAll_one.
  destruct (Ascii.eqb_spec x gt) as [->|_]; [reflexivity|].
  rewrite replaceAll_one.
  destruct (Ascii.eqb_spec x quot) as [->|_]; [reflexivity|].
  by rewrite replaceAll_one.
Qed.

Lemma escapeHtml_app a b : escapeHtml (a ++ b) = escapeHtml a ++ escapeHtml b.
Proof. unfold escapeHtml. by rewrite !replaceAll_app. Qed.

Lemma escapeHtml_each s : escapeHtml s = escapeEach s.
Proof.
  induction s as [|x rest IH]; [done|].
  change (String x rest) with (String x EmptyString ++ rest).
  rewrite escapeHtml_app, escapeHtml_one, IH. reflexivity.
Qed.

Lemma escapeChar_cases c :
  (c = amp ∧ escapeChar c = "&amp;")
  ∨ (c = lt ∧ escapeChar c = "&lt;")
  ∨ (c = gt ∧ escapeChar c = "&gt;")
  ∨ (c = quot ∧ escapeChar c = "&quot;")
  ∨ (c = apos ∧ escapeChar c = "&#039;")
  ∨ (c ≠ amp ∧ c ≠ lt ∧ c ≠ gt ∧ c ≠ quot ∧ c ≠ apos
     ∧ escapeChar c = String c EmptyString).
Proof.
  unfold escapeChar.
  destruct (Ascii.eqb_spec c amp) as [->|?]; [by left|right].
  destruct (Ascii.eqb_spec c lt) as [->|?]; [by left|right].
  destruct (Ascii.eqb_spec c gt) as [->|?]; [by left|right].
  destruct (Ascii.eqb_spec c quot) as [->|?]; [by left|right].
  destruct (Ascii.eqb_spec c apos) as [->|?]; [by left|right].
  done.
Qed.

Lemma append_nil (b : string) : EmptyString ++ b = b.
Proof. reflexivity. Qed.

Lemma chars_app a b : chars (a ++ b) = (chars a ++ chars b)%list.
Proof.
  induction a as [|x a IH]; [reflexivity|].
  rewrite append_cons. simpl. by rewrite IH.
Qed.

Lemma escapeEach_inj a b : escapeEach a = escapeEach b → a = b.
Proof.
  revert b. induction a as [|x a IH]; intros [|y b] H; [done| | |].
  - simpl in H.
    destruct (escapeChar_cases y)
      as [[_ E]|[[_ E]|[[_ E]|[[_ E]|[[_ E]|(_&_&_&_&_&E)]]]]];
      rewrite E in H; rewrite append_cons in H; discriminate.
  - simpl in H.
    destruct (escapeChar_cases x)
      as [[_ E]|[[_ E]|[[_ E]|[[_ E]|[[_ E]|(_&_&_&_&_&E)]]]]];
      rewrite E in H; rewrite append_cons in H; discriminate.
  - simpl in H.
    destruct (escapeChar_cases x)
      as [[-> E]|[[-> E]|[[-> E]|[[-> E]|[[-> E]|(N1&N2&N3&N4&N5&E)]]]]];
      rewrite E in H; clear E;
      destruct (escapeChar_cases y)
        as [[-> E]|[[-> E]|[[-> E]|[[-> E]|[[-> E]|(M1&M2&M3&M4&M5&E)]]]]];
      rewrite E in H; clear E; rewrite ?append_cons, ?append_nil in H;
      try discriminate;
      try (injection H as H; f_equal; by apply IH);
      try (injection H as Hc H; exfalso;
           first [by apply N1 | by apply M1]).
    injection H as -> H. f_equal. by apply IH.
Qed.

End HtmlFacts.

(** X18: the five chained replacements of [escapeHtml] act as one pass
    over the characters: the text is mapped character by character, so
    the ampersands of the entities written by the later replacements are
    not escaped again, and escaping distributes over concatenation. *)
Theorem escapeHtml_is_one_pass (unsafe rest : string) :
  Html.escapeHtml unsafe = Html.escapeEach unsafe
  ∧ Html.escapeHtml (unsafe ++ rest)%string
    = (Html.escapeHtml unsafe ++ Html.escapeHtml rest)%string.
Proof.
  split; [apply HtmlFacts.escapeHtml_each|apply HtmlFacts.escapeHtml_app].
Qed.

(** X19: the text returned by [escapeHtml] holds no angle bracket and no
    quote character. *)
Theorem escapeHtml_output_has_no_markup (unsafe : string) :
  Forall (λ c, c ≠ Html.lt ∧ c ≠ Html.gt ∧ c ≠ Html.quot ∧ c ≠ Html.apos)
         (Html.chars (Html.escapeHtml unsafe)).
Proof.
  rewrite HtmlFacts.escapeHtml_each.
  induction unsafe as [|x rest IH]; [by constructor|].
  simpl. rewrite HtmlFacts.chars_app. apply Forall_app. split; [|done].
  destruct (HtmlFacts.escapeChar_cases x)
    as [[_ E]|[[_ E]|[[_ E]|[[_ E]|[[_ E]|(_&N2&N3&N4&N5&E)]]]]];
    rewrite E; simpl; repeat constructor;
    first [done | intros Heq; vm_compute in Heq; discriminate].
Qed.

(** X20: [escapeHtml] loses nothing: two texts with the same escaped form
    are the same text. *)
Theorem escapeHtml_injective (a b : string) :
  Html.escapeHtml a = Html.escapeHtml b → a = b.
Proof.
  rewrite !HtmlFacts.escapeHtml_each. apply HtmlFacts.escapeEach_inj.
Qed.

Lemma escapeHtml_injective_witness :
  Html.escapeHtml "a<b" = Html.escapeHtml "a<b" ∧ "a<b" = "a<b".
Proof.
  split; [reflexivity|].
  apply (escapeHtml_injective "a<b" "a<b"). reflexivity.
Defined.


(** ** Approving the changes of the panel one after the other *)

Module ApproveLoopFacts.
Import DiffApprovePanel.
Local Open Scope nat_scope.

Lemma list_to_set_empty_inv (l : list Z) :
  size (list_to_set (C := gset Z) l) = 0 → l = [].
Proof.
  intros Hsize. apply size_empty_inv in Hsize.
  destruct l as [|x l]; [done|].
  exfalso. apply (not_elem_of_empty (C := gset Z) x).
  apply (proj1 (Hsize x)). rewrite elem_of_list_to_set.
  apply list_elem_of_here.
Qed.

(** Approving the ids [finished] one by one, starting with the ids
    [finished ++ todo] pending: the ids [todo] stay pending, and
    [_openModifiedFile] is asked for once, by the approval that empties the
    set. *)
Lemma approve_loop blocks finished todo p :
  _diffContent p = Some blocks →
  (∀ x, x ∈ finished → is_Some (findBlock blocks x)) →
  NoDup (finished ++ todo) →
  _pendingBlocks p = list_to_set (finished ++ todo) →
  let p' := fold_left (λ q x, _handleApproval x approve true q) finished p in
  _pendingBlocks p' = list_to_set todo
  ∧ _diffContent p' = Some blocks
  ∧ file1 p' = file1 p ∧ file2 p' = file2 p
  ∧ openRequests p'
    = openRequests p
      + (if bool_decide (finished ≠ [] ∧ todo = []) then 1 else 0).
Proof.
  revert p. induction finished as [|x rest IH]; intros p Hcontent Hfound Hnd Hp.
  - simpl. by split_and!.
  - simpl in Hnd. apply NoDup_cons in Hnd as [Hx Hnd].
    assert (Hrest : _pendingBlocks p ∖ {[ x ]}
                    = list_to_set (C := gset Z) (rest ++ todo)).
    { rewrite Hp. simpl. apply set_eq. intros y.
      rewrite elem_of_difference, elem_of_union, elem_of_singleton,
        elem_of_list_to_set.
      split; [intros [[->|Hy] Hne]; done|].
      intros Hy. split; [by right|]. by intros ->. }
    cbn [fold_left].
    set (p1 := _handleApproval x approve true p).
    assert (Hp1 : p1 = _checkIfAllBlocksProcessed
                         (mkPanel (file1 p) (file2 p) (_diffContent p)
                                  (list_to_set (rest ++ todo))
                                  (openRequests p))).
    { subst p1. unfold _handleApproval. rewrite Hcontent.
      destruct (Hfound x (list_elem_of_here _ _)) as [b ->].
      by rewrite Hrest. }
    destruct (decide (rest ++ todo = [])) as [Hlast|Hmore].
    + apply app_eq_nil in Hlast as [-> ->]. clear IH.
      cbv zeta. cbn [fold_left].
      rewrite (bool_decide_eq_true_2 ([x] ≠ [] ∧ [] = [])) by done.
      rewrite Hp1. unfold _checkIfAllBlocksProcessed.
      case_bool_decide as Hsize;
        [|destruct Hsize; apply (size_empty (C := gset Z))].
      cbn [_pendingBlocks _diffContent file1 file2 openRequests].
      split_and!; try done. lia.
    + assert (Hsame : p1 = mkPanel (file1 p) (file2 p) (_diffContent p)
                             (list_to_set (rest ++ todo)) (openRequests p)).
      { rewrite Hp1. unfold _checkIfAllBlocksProcessed. simpl.
        rewrite bool_decide_eq_false_2; [done|].
        intros Hsize. by apply list_to_set_empty_inv in Hsize. }
      destruct (IH p1) as (Hpend & Hdiff & Hf1 & Hf2 & Hopen).
      * by rewrite Hsame.
      * intros y Hy. apply Hfound. by apply list_elem_of_further.
      * done.
      * by rewrite Hsame.
      * assert (Hframe : file1 p1 = file1 p ∧ file2 p1 = file2 p
                         ∧ openRequests p1 = openRequests p)
          by (by rewrite Hsame).
        destruct Hframe as (Hg1 & Hg2 & Hg3).
        cbv zeta in Hf1, Hf2, Hopen, Hpend, Hdiff |- *.
        rewrite Hg1 in Hf1. rewrite Hg2 in Hf2. rewrite Hg3 in Hopen.
        split_and!; try done. rewrite Hopen. f_equal.
        destruct todo as [|t todo'].
        -- rewrite app_nil_r in Hmore.
           by rewrite !bool_decide_eq_true_2.
        -- by rewrite !bool_decide_eq_false_2 by (by intros [_ ?]).
Qed.

End ApproveLoopFacts.

(** X21: after ["getContent"], approving the non-context blocks of the
    panel one at a time, in any order, leaves the modified file and the
    stored diff as they are, empties the pending set, and asks to open the
    modified file exactly once: at the approval of the last one and at none
    before it. *)
Theorem approving_every_change_opens_file_once
        (content1 content2 : string) (blocks : list DiffBlock)
        (ids : list Z) :
  DiffApprovePanel._computeDiff content1 content2 = Some blocks →
  ids ≡ₚ nonContextIds blocks →
  ids ≠ [] →
  let p := DiffApprovePanel.getContent
             (DiffApprovePanel.create content1 content2) in
  let after (k : nat) :=
    fold_left (λ q x, DiffApprovePanel._handleApproval
                        x DiffApprovePanel.approve true q)
              (take k ids) p in
  (∀ k, (k < length ids)%nat →
        DiffApprovePanel.openRequests (after k) = 0%nat
        ∧ DiffApprovePanel._pendingBlocks (after k) ≠ ∅)
  ∧ DiffApprovePanel.openRequests (after (length ids)) = 1%nat
  ∧ DiffApprovePanel._pendingBlocks (after (length ids)) = ∅
  ∧ DiffApprovePanel.file2 (after (length ids)) = Some content2
  ∧ DiffApprovePanel._diffContent (after (length ids)) = Some blocks.
Proof.
  intros Hdiff Hperm Hsome p after.
  destruct (DenyAllFacts._computeDiff_facts _ _ _ Hdiff)
    as (_ & Hstarts & _).
  assert (Hnd : NoDup ids).
  { rewrite Hperm. apply nonContextIds_NoDup. intros k b Hk.
    by destruct (Hstarts k b Hk). }
  assert (Hp : p = DiffApprovePanel.mkPanel (Some content1) (Some content2)
                     (Some blocks) (list_to_set (nonContextIds blocks)) 0).
  { subst p. unfold DiffApprovePanel.getContent,
      DiffApprovePanel._loadDiffContent, DiffApprovePanel.create.
    simpl. by rewrite Hdiff. }
  assert (Hpending : DiffApprovePanel._pendingBlocks p
                     = list_to_set (C := gset Z) ids).
  { rewrite Hp. simpl. apply set_eq. intros y.
    rewrite !elem_of_list_to_set. by rewrite Hperm. }
  assert (Hstep : ∀ k,
    DiffApprovePanel._pendingBlocks (after k) = list_to_set (drop k ids)
    ∧ DiffApprovePanel._diffContent (after k) = Some blocks
    ∧ DiffApprovePanel.file1 (after k) = DiffApprovePanel.file1 p
    ∧ DiffApprovePanel.file2 (after k) = DiffApprovePanel.file2 p
    ∧ DiffApprovePanel.openRequests (after k)
      = (DiffApprovePanel.openRequests p
         + (if bool_decide (take k ids ≠ [] ∧ drop k ids = [])
            then 1 else 0))%nat).
  { intros k. apply ApproveLoopFacts.approve_loop.
    - by rewrite Hp.
    - intros x Hx. apply PanelFacts.findBlock_of_id. rewrite <- Hperm.
      by apply (subseteq_take k ids).
    - by rewrite take_drop.
    - by rewrite take_drop. }
  split_and!.
  - intros k Hk. destruct (Hstep k) as (Hpend & _ & _ & _ & Hopen).
    assert (Hleft : drop k ids ≠ []).
    { intros Hnil. apply (f_equal length) in Hnil.
      rewrite length_drop in Hnil. simpl in Hnil. lia. }
    split.
    + rewrite Hopen, Hp. simpl.
      by rewrite bool_decide_eq_false_2 by (by intros [_ ?]).
    + rewrite Hpend. destruct (drop k ids) as [|y l]; [done|].
      intros Hempty. apply (not_elem_of_empty (C := gset Z) y).
      rewrite <- Hempty. rewrite elem_of_list_to_set.
      apply list_elem_of_here.
  - destruct (Hstep (length ids)) as (_ & _ & _ & _ & Hopen).
    rewrite Hopen, Hp. simpl.
    rewrite bool_decide_eq_true_2; [done|].
    rewrite firstn_all, drop_all. done.
  - destruct (Hstep (length ids)) as (Hpend & _).
    by rewrite Hpend, drop_all.
  - destruct (Hstep (length ids)) as (_ & _ & _ & Hf2 & _).
    by rewrite Hf2, Hp.
  - by destruct (Hstep (length ids)) as (_ & Hcontent & _).
Qed.

Lemma approving_every_change_opens_file_once_witness :
  DiffApprovePanel.openRequests
    (fold_left (λ q x, DiffApprovePanel._handleApproval
                         x DiffApprovePanel.approve true q)
               (take 2 (rev (nonContextIds editedBlocks)))
               editedPanel)
  = 1%nat.
Proof.
  assert (Hdiff : DiffApprovePanel._computeDiff
                    ("a" ++ nl ++ "b" ++ nl ++ "c")%string
                    ("x" ++ nl ++ "b" ++ nl ++ "y")%string
                  = Some editedBlocks) by (vm_compute; reflexivity).
  assert (Hperm : rev (nonContextIds editedBlocks)
                  ≡ₚ nonContextIds editedBlocks)
    by (symmetry; apply Permutation_rev).
  assert (Hsome : rev (nonContextIds editedBlocks) ≠ [])
    by (vm_compute; discriminate).
  destruct (approving_every_change_opens_file_once
              _ _ editedBlocks
              (rev (nonContextIds editedBlocks)) Hdiff Hperm Hsome)
    as (_ & Hopen & _).
  exact Hopen.
Defined.


(** X22: while a file is active, a further [show] for its path reuses the
    [DiffFile] registered first, so the callbacks passed to the further
    call are not used, and leaves the registry as it is; other paths are
    not touched; once the file was removed, [show] registers the callbacks
    it is given. *)
Theorem show_reuses_active_file
        {DiffFile : Type} (filePath : string) (first further : DiffFile)
        (activeFiles : gmap string DiffFile) :
  let shown := Registry.show filePath first activeFiles in
  Registry.show filePath further shown.1 = shown
  ∧ shown.1 !! filePath = Some shown.2
  ∧ (activeFiles !! filePath = None → shown.2 = first)
  ∧ (∀ other, other ≠ filePath → shown.1 !! other = activeFiles !! other)
  ∧ (Registry.show filePath further
       (Registry.removeActiveFile filePath shown.1)).2 = further.
Proof.
  intros shown. subst shown. unfold Registry.show, Registry.removeActiveFile.
  destruct (activeFiles !! filePath) as [d|] eqn:Hactive; simpl.
  - rewrite Hactive, lookup_delete_eq. split_and!; try done.
  - rewrite lookup_insert_eq, lookup_delete_eq. split_and!; try done.
    intros other Hother. by rewrite lookup_insert_ne.
Qed.
